(** * aspose-mcp-preview: the protocol engine, embedded and verified

    A shallow embedding of the protocol parser (src/protocol/parser.js),
    the command handler (src/protocol/command.js), the response emitter
    (src/protocol/ack.js), the transport backends
    (src/protocol/transport/*.js), the session store (src/session/store.js)
    and the callbacks the entry point (src/index.js) hands to the parser.

    JavaScript numbers that the code uses as integers are [Z]; the 32-bit
    conversions of the bit operators and the rounding of [Number(bigint)]
    are written out.  Buffers are [list byte].  Module-level and
    closure-level variables are fields of one explicit state record; writes
    to stdout and callback invocations are collected, in order, in a trace
    of effects, and calls of the logger in the state.  What the program
    takes from the platform ([JSON.parse], the conversion to a string in
    template literals, the file system, the kernel32 bridge, the
    configuration) is a class of parameters, [Env].  A template literal
    throws a TypeError on a value that has no text (an object with a
    property [toString], which [JSON.parse] can make): every literal of
    the source that writes a field of a message is a computation that may
    throw, at the place where the source has it.

    The functions of the source are asynchronous.  Here a computation runs
    to its end: an [await] is the sequencing of the monad, and the read of
    a file or of a shared-memory region gives its result within the step
    that asks for it.  The loop of [processData] has a bound on its
    iterations, and a run that exhausts it has no result. *)

From Stdlib Require Import ZArith Lia List Bool.
From Stdlib Require Import Strings.Byte.
From stdpp Require Import gmap strings list pretty.

Local Open Scope Z_scope.
Set Warnings "-register-all".

(** ** JavaScript 32-bit operators *)

Module JS.

(** ToUint32 and ToInt32 of ECMAScript, on integral values. *)
Definition ToUint32 (z : Z) : Z := z mod 2 ^ 32.

Definition ToInt32 (z : Z) : Z :=
  let u := z mod 2 ^ 32 in
  if u <? 2 ^ 31 then u else u - 2 ^ 32.

(** [a ^ b]: both operands go through ToInt32, the result is an int32. *)
Definition xor (a b : Z) : Z := Z.lxor (ToInt32 a) (ToInt32 b).

(** [a & b] *)
Definition and (a b : Z) : Z := Z.land (ToInt32 a) (ToInt32 b).

(** [a >>> n]: the left operand goes through ToUint32, the shift count is
    taken modulo 32 and the result is a uint32. *)
Definition ushr (a n : Z) : Z := Z.shiftr (ToUint32 a) (n mod 32).

End JS.

(** ** Buffers *)

Definition Buffer := list byte.

Definition byte_to_Z (b : byte) : Z := Z.of_N (Byte.to_N b).

(** ** CRC-32 (parser.js, [calculateCRC32] and [getCRC32Table]) *)

Module CRC.

(** The body of the inner loop of [getCRC32Table]:
    [c = c & 1 ? 0xedb88320 ^ (c >>> 1) : c >>> 1]. *)
Definition entry_step (c : Z) : Z :=
  if JS.and c 1 =? 0 then JS.ushr c 1 else JS.xor 0xedb88320 (JS.ushr c 1).

(** [let c = i; for (j = 0; j < 8; j++) c = ...]; the value stored in the
    [Uint32Array] is converted by ToUint32. *)
Definition entry (i : Z) : Z :=
  JS.ToUint32 (Nat.iter 8 entry_step i).

(** [new Uint32Array(256)] followed by the outer loop, which assigns
    [crc32Table[i] = c] for [i = 0 .. 255]. *)
Definition generate : list Z :=
  fold_left (fun (tbl : list Z) (i : nat) => <[ i := entry (Z.of_nat i) ]> tbl)
            (seq 0 256) (replicate 256 0).

(** [table[k]]; reading a typed array out of range gives [undefined],
    which the bit operators read as 0. *)
Definition at_index (table : list Z) (k : Z) : Z :=
  if k <? 0 then 0 else default 0 (table !! Z.to_nat k).

(** The body of the loop of [calculateCRC32]:
    [crc = (crc >>> 8) ^ table[(crc ^ data[i]) & 0xff]]. *)
Definition update (table : list Z) (crc : Z) (b : byte) : Z :=
  JS.xor (JS.ushr crc 8)
         (at_index table (JS.and (JS.xor crc (byte_to_Z b)) 0xff)).

(** [calculateCRC32] for a given table:
    [crc = 0xffffffff; for ...; return (crc ^ 0xffffffff) >>> 0]. *)
Definition checksum_with (table : list Z) (data : Buffer) : Z :=
  JS.ushr (JS.xor (fold_left (update table) data 0xffffffff) 0xffffffff) 0.

(** *** The reference CRC-32

    Written from the specification's words, not from the code: the
    reflected 32-bit CRC with polynomial 0xEDB88320, initial value and
    final XOR 0xFFFFFFFF, computed one bit at a time on unsigned 32-bit
    words. *)
Definition reference_bit (c : Z) : Z :=
  if Z.testbit c 0 then Z.lxor (Z.shiftr c 1) 0xEDB88320 else Z.shiftr c 1.

Definition reference_byte (c : Z) (b : byte) : Z :=
  Nat.iter 8 reference_bit (Z.lxor c (byte_to_Z b)).

Definition reference (data : Buffer) : Z :=
  Z.lxor (fold_left reference_byte data 0xFFFFFFFF) 0xFFFFFFFF.

End CRC.

(** ** JavaScript values *)

(** A Number as far as the code looks at it: an integral value (0 also
    stands for -0, which [===] and truthiness do not tell apart), or any
    other double, kept as an opaque literal: the text [String(n)] gives
    of it, so that equal doubles have the same literal.  [JSON.parse]
    never returns NaN, so every non-integral number is truthy. *)
Inductive JsNumber :=
| Integral (z : Z)
| NonIntegral (literal : string).

Inductive JsVal :=
| JUndefined
| JNull
| JBool (b : bool)
| JNum (n : JsNumber)
| JStr (s : string)
| JArr (items : list JsVal)
| JObj (fields : list (string * JsVal)).

(** ToBoolean. *)
Definition truthy (v : JsVal) : bool :=
  match v with
  | JUndefined | JNull => false
  | JBool b => b
  | JNum (Integral z) => negb (z =? 0)
  | JNum (NonIntegral _) => true
  | JStr s => negb (String.eqb s EmptyString)
  | JArr _ | JObj _ => true
  end.

(** [a || b] *)
Definition js_or (a b : JsVal) : JsVal := if truthy a then a else b.

(** [v === 'literal'] *)
Definition is_str (v : JsVal) (s : string) : bool :=
  match v with
  | JStr s' => String.eqb s' s
  | _ => false
  end.

(** [v === n] for a Number [n] with an integral value. *)
Definition is_int (v : JsVal) (n : Z) : bool :=
  match v with
  | JNum (Integral z) => z =? n
  | _ => false
  end.

(** [v !== undefined] *)
Definition is_defined (v : JsVal) : bool :=
  match v with
  | JUndefined => false
  | _ => true
  end.

Fixpoint assoc (k : string) (fields : list (string * JsVal)) : JsVal :=
  match fields with
  | [] => JUndefined
  | (k', v) :: rest => if String.eqb k k' then v else assoc k rest
  end.

(** [v.k] for a value that is neither [null] nor [undefined] and a key
    that no prototype defines (every key the code reads is such a key):
    an own property of an object, [undefined] on anything else. *)
Definition prop (v : JsVal) (k : string) : JsVal :=
  match v with
  | JObj fields => assoc k fields
  | _ => JUndefined
  end.

Definition nullish (v : JsVal) : bool :=
  match v with
  | JUndefined | JNull => true
  | _ => false
  end.

(** The object has an own property [k]. *)
Definition has_key (k : string) (fields : list (string * JsVal)) : bool :=
  existsb (fun entry => String.eqb entry.1 k) fields.

(** The value has a text: a template literal makes a string of it.  A
    primitive has one.  An object that [JSON.parse] made has one unless it
    has an own property [toString]: this property hides
    [Object.prototype.toString] and is not a function, [valueOf] gives the
    object back, and ToPrimitive throws a TypeError.  An array is joined
    from the texts of its items ([null] gives the empty text), so it has a
    text when all of them have. *)
Fixpoint stringable (v : JsVal) : bool :=
  match v with
  | JArr items => forallb stringable items
  | JObj fields => negb (has_key "toString" fields)
  | _ => true
  end.

(** ** Buffer operations of Node.js *)

Fixpoint index_from (b : Buffer) (c : byte) (i : Z) : Z :=
  match b with
  | [] => -1
  | x :: rest => if Byte.eqb x c then i else index_from rest c (i + 1)
  end.

(** [buffer.indexOf(c)]: the first position of the byte, or -1. *)
Definition indexOf (b : Buffer) (c : byte) : Z := index_from b c 0.

(** The line feed, ['\n']. *)
Definition newline : byte := x0a.

(** A start or end argument of [subarray]: negative values count from the
    end, and the result is clamped to the buffer. *)
Definition clamp_index (len i : Z) : Z :=
  if i <? 0 then Z.max (len + i) 0 else Z.min i len.

(** [buffer.subarray(start, end)] *)
Definition subarray (b : Buffer) (start stop : Z) : Buffer :=
  let len := Z.of_nat (length b) in
  let s := clamp_index len start in
  let e := clamp_index len stop in
  take (Z.to_nat (e - s)) (drop (Z.to_nat s) b).

(** [buffer.subarray(start)] *)
Definition subarray_from (b : Buffer) (start : Z) : Buffer :=
  subarray b start (Z.of_nat (length b)).

Definition le_unsigned (bs : list byte) : Z :=
  fold_right (fun b acc => byte_to_Z b + 256 * acc) 0 bs.

(** [buffer.readBigInt64LE(offset)]: a RangeError ([None]) unless
    [0 <= offset <= length - 8], else the signed 64-bit value. *)
Definition readBigInt64LE (b : Buffer) (offset : Z) : option Z :=
  if (offset <? 0) || (Z.of_nat (length b) - 8 <? offset) then None
  else
    let u := le_unsigned (take 8 (drop (Z.to_nat offset) b)) in
    Some (if u <? 2 ^ 63 then u else u - 2 ^ 64).

(** The double nearest to an integer (ties to even), for magnitudes far
    below the overflow threshold: integers up to 2^53 are exact. *)
Definition round_double (z : Z) : Z :=
  let a := Z.abs z in
  if a <=? 2 ^ 53 then z
  else
    let e := Z.log2 a - 52 in
    let q := a / 2 ^ e in
    let r := a mod 2 ^ e in
    let half := 2 ^ (e - 1) in
    let q' := if r <? half then q
              else if half <? r then q + 1
              else if Z.even q then q else q + 1 in
    Z.sgn z * (q' * 2 ^ e).

(** [Number(bigint)] *)
Definition Number_of_BigInt (z : Z) : Z := round_double z.

(** [a + b] on Numbers with integral values: the exact sum, rounded. *)
Definition js_add (a b : Z) : Z := round_double (a + b).

(** ** Effects, state and the monad of the embedding *)

(** A line written to stdout by ack.js, before [JSON.stringify]. *)
Inductive Response :=
| InitializeResponse (name version : JsVal) (title : string)
                     (description author : JsVal) (websiteUrl : string)
| Ack (sequenceNumber : JsVal) (status : string)
| Pong
| CommandResult (commandId : JsVal) (success : bool)
                (result : option JsVal) (error : option JsVal).

(** What the protocol engine does to the outside: a line on stdout, or a
    call of one of the callbacks given to [createProtocolParser]. *)
Inductive Effect :=
| Stdout (r : Response)
| OnSnapshot (metadata : JsVal) (data : Buffer)
| OnHeartbeat
| OnSessionClosed (sessionId : JsVal)
| OnSessionUnbound (sessionId : JsVal)
| OnShutdown
| OnInitialized
| OnError (message : string).

Inductive Level := Debug | Info | Warn | Error.

(** A call of a scoped logger of logger.js (diagnostics on stderr). *)
Record LogCall := mkLog { log_scope : string; log_level : Level; log_text : string }.

(** The variables the modules keep between calls. *)
Record State := mkState {
  buffer : Buffer;                   (* parser.js, closure: let buffer *)
  started : bool;                    (* parser.js, closure: let started *)
  handshakeComplete : bool;          (* parser.js, module: let handshakeComplete *)
  crc32Table : option (list Z);      (* parser.js, module: let crc32Table *)
  packageInfo : JsVal;               (* ack.js, module: let packageInfo *)
  windowsInitialized : bool;         (* mmap.js, module *)
  windowsInitError : option string;  (* mmap.js, module *)
  logged : list LogCall              (* stderr, oldest first *)
}.

Definition initial_state : State :=
  mkState [] false false None JNull false None [].

Definition set_buffer (b : Buffer) (s : State) : State :=
  mkState b (started s) (handshakeComplete s) (crc32Table s) (packageInfo s)
          (windowsInitialized s) (windowsInitError s) (logged s).

Definition set_started (v : bool) (s : State) : State :=
  mkState (buffer s) v (handshakeComplete s) (crc32Table s) (packageInfo s)
          (windowsInitialized s) (windowsInitError s) (logged s).

Definition set_handshakeComplete (v : bool) (s : State) : State :=
  mkState (buffer s) (started s) v (crc32Table s) (packageInfo s)
          (windowsInitialized s) (windowsInitError s) (logged s).

Definition set_crc32Table (t : option (list Z)) (s : State) : State :=
  mkState (buffer s) (started s) (handshakeComplete s) t (packageInfo s)
          (windowsInitialized s) (windowsInitError s) (logged s).

Definition set_packageInfo (p : JsVal) (s : State) : State :=
  mkState (buffer s) (started s) (handshakeComplete s) (crc32Table s) p
          (windowsInitialized s) (windowsInitError s) (logged s).

Definition set_windowsInit (err : option string) (s : State) : State :=
  mkState (buffer s) (started s) (handshakeComplete s) (crc32Table s)
          (packageInfo s) true err (logged s).

Definition add_log (l : LogCall) (s : State) : State :=
  mkState (buffer s) (started s) (handshakeComplete s) (crc32Table s)
          (packageInfo s) (windowsInitialized s) (windowsInitError s)
          (logged s ++ [l]).

(** How a computation ends: with a value, with a thrown error (its
    message), or without an answer because the loop bound ran out. *)
Inductive Res (A : Type) :=
| Ok (a : A)
| Throw (message : string)
| OutOfFuel.
Arguments Ok {A} a.
Arguments Throw {A} message.
Arguments OutOfFuel {A}.

(** A computation: from a state to a result, the state after it and the
    effects it performed, in order. *)
Definition Eff (A : Type) : Type := State -> Res A * State * list Effect.

Definition eff_ret {A} (a : A) : Eff A := fun s => (Ok a, s, []).

Definition eff_bind {A B} (m : Eff A) (f : A -> Eff B) : Eff B :=
  fun s =>
    match m s with
    | (Ok a, s1, t1) =>
        match f a s1 with
        | (r, s2, t2) => (r, s2, t1 ++ t2)
        end
    | (Throw e, s1, t1) => (Throw e, s1, t1)
    | (OutOfFuel, s1, t1) => (OutOfFuel, s1, t1)
    end.

#[global] Instance Eff_ret : MRet Eff := @eff_ret.
#[global] Instance Eff_bind : MBind Eff := fun A B f m => eff_bind m f.

Definition throw {A} (message : string) : Eff A := fun s => (Throw message, s, []).

Definition out_of_fuel {A} : Eff A := fun s => (OutOfFuel, s, []).

(** [try { m } catch (err) { handler(err.message) }] *)
Definition try_catch {A} (m : Eff A) (handler : string -> Eff A) : Eff A :=
  fun s =>
    match m s with
    | (Throw e, s1, t1) =>
        match handler e s1 with
        | (r, s2, t2) => (r, s2, t1 ++ t2)
        end
    | other => other
    end.

Definition emit (e : Effect) : Eff unit := fun s => (Ok tt, s, [e]).

Definition get_state : Eff State := fun s => (Ok s, s, []).

Definition modify (f : State -> State) : Eff unit := fun s => (Ok tt, f s, []).

Definition log (scope : string) (level : Level) (text : string) : Eff unit :=
  modify (add_log (mkLog scope level text)).

(** The result of the calls [readFromWindowsMmap] makes through the
    foreign-function bridge, taken together. *)
Inductive WindowsRead :=
| OpenFailed (code : Z)        (* OpenFileMappingW returned null *)
| MapFailed (code : Z)         (* MapViewOfFile returned null *)
| CopyFailed (message : string)  (* Buffer.alloc or koffi.decode threw *)
| Copied (bytes : Buffer).

(** What the program takes from its surroundings: built-ins of the
    language and of Node.js, the file system, the operating system and the
    configuration. *)
Class Env := {
  (** [JSON.parse(bytes.toString('utf-8'))]: the message of the SyntaxError,
      or the value. *)
  decodeJSON : Buffer -> string + JsVal;
  (** The string a template literal makes of a value that has a text
      (see [stringable]); it is not asked for another value. *)
  ToString : JsVal -> string;
  (** [config.transport], the [transport] option of the parser. *)
  defaultTransport : string;
  (** [config.noOpen] *)
  noOpen : bool;
  (** [os.platform()] *)
  currentPlatform : string;
  (** [fs.promises.readFile(path)]: the message of the error, or the bytes. *)
  readFile : JsVal -> string + Buffer;
  (** [import('koffi')] and [koffi.load('kernel32.dll')]: [Some] message
      when either throws. *)
  loadKoffi : option string;
  (** The kernel32 calls for a mapping name and a size. *)
  windowsRead : JsVal -> JsVal -> WindowsRead;
  (** package.json read and parsed by ack.js: the message of the error, or
      the value. *)
  readPackageJson : string + JsVal;
  (** [getVersion()] of command.js: [pkg.version], or ['unknown']. *)
  packageVersion : JsVal
}.

Section Engine.

Context {E : Env}.

(** [`${v}`]: the text of the value, or the TypeError of ToPrimitive. *)
Definition to_string (v : JsVal) : Eff string :=
  if stringable v then mret (ToString v)
  else throw "Cannot convert object to primitive value".

(** *** ack.js *)

Definition getPackageInfo : Eff JsVal :=
  s ← get_state;
  if truthy (packageInfo s) then mret (packageInfo s)
  else
    match readPackageJson with
    | inl message => throw message
    | inr pkg => modify (set_packageInfo pkg);; mret pkg
    end.

(** [typeof pkg.author === 'string' ? pkg.author : pkg.author?.name || ''] *)
Definition author_of (pkg : JsVal) : JsVal :=
  match prop pkg "author" with
  | JStr author => JStr author
  | author => js_or (prop author "name") (JStr EmptyString)
  end.

(** [url.replace(/\.git$/, '')] on a string: the text without its last
    four characters when they are [.git]. *)
Fixpoint strip_git (url : string) : string :=
  match url with
  | EmptyString => EmptyString
  | String c rest =>
      if String.eqb url ".git" then EmptyString else String c (strip_git rest)
  end.

(** [pkg.repository?.url?.replace(/\.git$/, '') || '']: the optional
    chains stop at [null] and [undefined] only, and a value of another
    type that is not a string has no method [replace], so that the call
    throws a TypeError (its message, on the left). *)
Definition websiteUrl_of (pkg : JsVal) : string + string :=
  match prop (prop pkg "repository") "url" with
  | JUndefined | JNull => inr EmptyString
  | JStr url => inr (strip_git url)
  | _ => inl "pkg.repository?.url?.replace is not a function"
  end.

(** The fields of the response are read off [pkg]; reading a property of
    [null] throws, and so may the computation of [websiteUrl].  The line
    is written before the log line is made. *)
Definition sendInitializeResponse : Eff unit :=
  pkg ← getPackageInfo;
  if nullish pkg then throw "Cannot read properties of null (reading 'name')"
  else
    match websiteUrl_of pkg with
    | inl message => throw message
    | inr websiteUrl =>
        emit (Stdout (InitializeResponse (prop pkg "name") (prop pkg "version")
                        "Aspose MCP Preview" (prop pkg "description")
                        (author_of pkg) websiteUrl));;
        name ← to_string (prop pkg "name");
        version ← to_string (prop pkg "version");
        log "ack" Info ("Sent initialize_response: " +:+ name +:+ "@" +:+ version)
    end.

(** [sendAck(sequenceNumber)], with the default status ['processed']: the
    line is written, then the log line is made. *)
Definition sendAck (sequenceNumber : JsVal) : Eff unit :=
  emit (Stdout (Ack sequenceNumber "processed"));;
  text ← to_string sequenceNumber;
  log "ack" Debug ("Sent ACK for sequence " +:+ text).

Definition sendPong : Eff unit :=
  emit (Stdout Pong);;
  log "ack" Debug "Sent pong".

(** [sendCommandResult(commandId, success, result = null, error = null)]:
    [result] is attached when [success && result], [error] when
    [!success && error]. *)
Definition sendCommandResult (commandId : JsVal) (success : bool)
           (result error : JsVal) : Eff unit :=
  emit (Stdout (CommandResult commandId success
                  (if success && truthy result then Some result else None)
                  (if negb success && truthy error then Some error else None)));;
  id ← to_string commandId;
  log "ack" Debug ("Sent command_result for " +:+ id
                   +:+ ": success=" +:+ ToString (JBool success)).

(** *** command.js *)

Definition handleCommand (metadata : JsVal) : Eff unit :=
  let commandId := prop metadata "commandId" in
  let commandType := prop metadata "commandType" in
  if negb (truthy commandId) then
    log "command" Warn "Received command without commandId"
  else
    type ← to_string commandType;
    id ← to_string commandId;
    log "command" Debug ("Handling command: " +:+ type +:+ " (" +:+ id +:+ ")");;
    if is_str commandType "get_version" then
      sendCommandResult commandId true (JObj [("version", packageVersion)]) JNull
    else
      unknown ← to_string commandType;
      log "command" Warn ("Unknown command type: " +:+ unknown);;
      error ← to_string commandType;
      sendCommandResult commandId false JNull
        (JStr ("Unknown command type: " +:+ error)).

(** *** transport/file.js *)

Definition byte_count (data : Buffer) : JsVal :=
  JNum (Integral (Z.of_nat (length data))).

Definition readFromFile (filePath : JsVal) : Eff Buffer :=
  path ← to_string filePath;
  log "transport:file" Debug ("Reading from file: " +:+ path);;
  match readFile filePath with
  | inr data =>
      log "transport:file" Debug
          ("Read " +:+ ToString (byte_count data) +:+ " bytes from file");;
      mret data
  | inl message =>
      log "transport:file" Error ("Failed to read file: " +:+ message);;
      throw message
  end.

(** *** transport/mmap.js *)

Definition initializeWindowsAsync : Eff bool :=
  s ← get_state;
  if windowsInitialized s then
    mret (match windowsInitError s with None => true | Some _ => false end)
  else
    match loadKoffi with
    | None =>
        modify (set_windowsInit None);;
        log "transport:mmap" Info "Windows shared memory support initialized with koffi";;
        mret true
    | Some message =>
        modify (set_windowsInit (Some message));;
        log "transport:mmap" Warn ("Windows shared memory not available: " +:+ message);;
        log "transport:mmap" Warn
            "Install koffi package for Windows mmap support: npm install koffi";;
        mret false
    end.

(** The view is unmapped and the handle closed in [finally] blocks on
    every path; these calls return nothing to the caller. *)
Definition readFromWindowsMmap (mmapName dataSize : JsVal) : Eff Buffer :=
  match windowsRead mmapName dataSize with
  | OpenFailed code =>
      name ← to_string mmapName;
      throw ("Failed to open file mapping '" +:+ name
             +:+ "': error code " +:+ ToString (JNum (Integral code)))
  | MapFailed code =>
      throw ("Failed to map view of file: error code "
             +:+ ToString (JNum (Integral code)))
  | CopyFailed message => throw message
  | Copied data => mret data
  end.

(** [if (data.length !== dataSize) log.warn(...)] *)
Definition warn_size_mismatch (data : Buffer) (dataSize : JsVal) : Eff unit :=
  if is_int dataSize (Z.of_nat (length data)) then mret tt
  else
    expected ← to_string dataSize;
    log "transport:mmap" Warn
        ("Data size mismatch: expected " +:+ expected
         +:+ ", got " +:+ ToString (byte_count data)).

Definition readFromLinuxMmap (mmapName dataSize : JsVal) : Eff Buffer :=
  name ← to_string mmapName;
  let shmPath := "/dev/shm" +:+ name in
  log "transport:mmap" Debug ("Reading from Linux shared memory: " +:+ shmPath);;
  match readFile (JStr shmPath) with
  | inl message => throw message
  | inr data => warn_size_mismatch data dataSize;; mret data
  end.

Definition readFromMacOSMmap (filePath dataSize : JsVal) : Eff Buffer :=
  path ← to_string filePath;
  log "transport:mmap" Debug ("Reading from macOS file-backed mmap: " +:+ path);;
  match readFile filePath with
  | inl message => throw message
  | inr data => warn_size_mismatch data dataSize;; mret data
  end.

(** [readFromMmap(mmapName, dataSize, filePath = null)] *)
Definition readFromMmap (mmapName dataSize filePath : JsVal) : Eff Buffer :=
  let filePath := if is_defined filePath then filePath else JNull in
  name ← to_string mmapName;
  size ← to_string dataSize;
  log "transport:mmap" Debug
      ("Reading from mmap: " +:+ name +:+ ", size: " +:+ size
       +:+ ", platform: " +:+ currentPlatform);;
  if String.eqb currentPlatform "win32" then
    available ← initializeWindowsAsync;
    if negb available then
      throw ("Windows shared memory support not available. "
             +:+ "Please install koffi (npm install koffi), or use stdin/file transport mode.")
    else readFromWindowsMmap mmapName dataSize
  else if String.eqb currentPlatform "linux" then
    readFromLinuxMmap mmapName dataSize
  else if String.eqb currentPlatform "darwin" then
    if negb (truthy filePath) then
      throw ("macOS mmap requires filePath in metadata. "
             +:+ "Please ensure aspose-mcp-server provides filePath for macOS.")
    else readFromMacOSMmap filePath dataSize
  else
    throw ("Memory-mapped transport is not supported on platform: "
           +:+ currentPlatform +:+ ". "
           +:+ "Please use stdin or file transport mode instead.").

(** *** parser.js *)

(** [getCRC32Table]: the table is generated on the first call and kept
    in [crc32Table]. *)
Definition getCRC32Table : Eff (list Z) :=
  s ← get_state;
  match crc32Table s with
  | Some table => mret table
  | None =>
      let table := CRC.generate in
      modify (set_crc32Table (Some table));;
      mret table
  end.

Definition calculateCRC32 (data : Buffer) : Eff Z :=
  table ← getCRC32Table;
  mret (CRC.checksum_with table data).

(** [buffer = buffer.subarray(newlineIndex + 1)] *)
Definition consume_line (newlineIndex : Z) : Eff unit :=
  modify (fun s => set_buffer (subarray_from (buffer s) (newlineIndex + 1)) s).

Definition onError (message : string) : Eff unit := emit (OnError message).

(** The transport a snapshot resolves to:
    [metadata.transportMode || defaultTransport]. *)
Definition resolved_transport (metadata : JsVal) : JsVal :=
  js_or (prop metadata "transportMode") (JStr defaultTransport).

(** A callback of index.js that is given a session id: the callback is
    invoked, and the first thing it does is to write the id in a debug
    line (index.js, lines 48, 85 and 93), which throws when the id has no
    text.  The exception goes through the parser as any other. *)
Definition session_callback (e : Effect) (sessionId : JsVal) : Eff unit :=
  emit e;;
  _ ← to_string sessionId;
  mret tt.

(** [sendAck(metadata.sequenceNumber); onSnapshot(metadata, data)], as
    all three paths of [parseSnapshot] have it.  The callback also writes
    the sequence number in a log line when the session is known
    (store.js, line 49); that cannot throw here, since [sendAck] has just
    made a text of the same value. *)
Definition acknowledge_and_deliver (metadata : JsVal) (data : Buffer) : Eff unit :=
  sendAck (prop metadata "sequenceNumber");;
  session_callback (OnSnapshot metadata data) (prop metadata "sessionId").

(** The inline path of [parseSnapshot], after the two early returns of
    the file and mmap paths. *)
Definition parseInline (metadata : JsVal) (newlineIndex : Z) : Eff bool :=
  s ← get_state;
  let buf := buffer s in
  let len := Z.of_nat (length buf) in
  let dataStart := newlineIndex + 1 in
  let lengthPrefixSize := 8 in
  if len <? dataStart + lengthPrefixSize then mret false
  else
    match readBigInt64LE buf dataStart with
    | None => throw "RangeError: The value of offset is out of range"
    | Some dataSize =>
        let totalSize :=
          js_add (dataStart + lengthPrefixSize) (Number_of_BigInt dataSize) in
        if len <? totalSize then mret false
        else
          let binaryData := subarray buf (dataStart + lengthPrefixSize) totalSize in
          modify (set_buffer (subarray_from buf totalSize));;
          let checksum := prop metadata "checksum" in
          if is_defined checksum then
            calculatedChecksum ← calculateCRC32 binaryData;
            if negb (is_int checksum calculatedChecksum) then
              expected ← to_string checksum;
              onError ("Checksum mismatch: expected " +:+ expected
                       +:+ ", got "
                       +:+ ToString (JNum (Integral calculatedChecksum)));;
              mret true
            else acknowledge_and_deliver metadata binaryData;; mret true
          else acknowledge_and_deliver metadata binaryData;; mret true
    end.

Definition parseSnapshot (metadata : JsVal) (newlineIndex : Z) : Eff bool :=
  let transportMode := resolved_transport metadata in
  if is_str transportMode "file" then
    consume_line newlineIndex;;
    try_catch
      (data ← readFromFile (prop metadata "filePath");
       acknowledge_and_deliver metadata data)
      (fun message => onError ("Failed to read file: " +:+ message));;
    mret true
  else if is_str transportMode "mmap" then
    consume_line newlineIndex;;
    try_catch
      (data ← readFromMmap (prop metadata "mmapName") (prop metadata "dataSize")
                           (prop metadata "filePath");
       acknowledge_and_deliver metadata data)
      (fun message => onError ("Failed to read mmap: " +:+ message));;
    mret true
  else parseInline metadata newlineIndex.

(** The [switch (msgType)] of [parseMessage]. *)
Definition dispatch (metadata : JsVal) (newlineIndex : Z) : Eff bool :=
  let msgType := prop metadata "type" in
  if is_str msgType "initialize" then
    consume_line newlineIndex;;
    version ← to_string (prop metadata "protocolVersion");
    log "parser" Info ("Received initialize, protocolVersion: " +:+ version);;
    sendInitializeResponse;;
    mret true
  else if is_str msgType "initialized" then
    consume_line newlineIndex;;
    modify (set_handshakeComplete true);;
    log "parser" Info "Handshake complete";;
    emit OnInitialized;;
    mret true
  else if is_str msgType "heartbeat" then
    consume_line newlineIndex;;
    sendPong;;
    emit OnHeartbeat;;
    mret true
  else if is_str msgType "session_closed" then
    consume_line newlineIndex;;
    session_callback (OnSessionClosed (prop metadata "sessionId"))
                     (prop metadata "sessionId");;
    mret true
  else if is_str msgType "session_unbound" then
    consume_line newlineIndex;;
    session_callback (OnSessionUnbound (prop metadata "sessionId"))
                     (prop metadata "sessionId");;
    mret true
  else if is_str msgType "shutdown" then
    consume_line newlineIndex;;
    emit OnShutdown;;
    mret true
  else if is_str msgType "snapshot" then
    parseSnapshot metadata newlineIndex
  else if is_str msgType "command" then
    consume_line newlineIndex;;
    handleCommand metadata;;
    mret true
  else
    unknown ← to_string (prop metadata "messageType");
    log "parser" Warn ("Unknown message type: " +:+ unknown);;
    consume_line newlineIndex;;
    mret true.

(** [parseMessage]: [false] is "need more data", [true] is "a frame was
    handled, try the next one". *)
Definition parseMessage : Eff bool :=
  s ← get_state;
  let newlineIndex := indexOf (buffer s) newline in
  if newlineIndex =? -1 then mret false
  else
    match decodeJSON (subarray (buffer s) 0 newlineIndex) with
    | inl message =>
        onError ("Failed to parse JSON metadata: " +:+ message);;
        consume_line newlineIndex;;
        mret true
    | inr metadata =>
        if nullish metadata then
          throw "Cannot read properties of null (reading 'type')"
        else
          msgType ← to_string (prop metadata "type");
          log "parser" Debug ("Received message type: " +:+ msgType);;
          dispatch metadata newlineIndex
    end.

(** [while (await parseMessage()) {}], with a bound on the number of
    iterations: the loop of the source need not terminate. *)
Fixpoint processLoop (fuel : nat) : Eff unit :=
  match fuel with
  | O => out_of_fuel
  | S fuel' =>
      again ← parseMessage;
      if (again : bool) then processLoop fuel' else mret tt
  end.

(** [processData(data)]: [buffer = Buffer.concat([buffer, data])], then
    the loop. *)
Definition processData (fuel : nat) (data : Buffer) : Eff unit :=
  modify (fun s => set_buffer (buffer s ++ data) s);;
  processLoop fuel.

(** The listener [start] puts on the ['data'] event of stdin. *)
Definition onData (fuel : nat) (chunk : Buffer) : Eff unit :=
  try_catch (processData fuel chunk) onError.

(** [start()]; the listeners themselves are [onData] and [onError]. *)
Definition start : Eff unit :=
  s ← get_state;
  if started s then mret tt
  else
    modify (set_started true);;
    log "parser" Debug "Starting protocol parser".

(** [stop()] *)
Definition stop : Eff unit := modify (set_started false).

(** [isReady()] *)
Definition isReady : Eff bool :=
  s ← get_state;
  mret (handshakeComplete s).

(** Feeding chunks one call after the other, each call running to its
    end before the next. *)
Fixpoint feed (fuel : nat) (chunks : list Buffer) : Eff unit :=
  match chunks with
  | [] => mret tt
  | chunk :: rest => processData fuel chunk;; feed fuel rest
  end.

End Engine.

(** ** The session store (session/store.js) *)

(** The object [updateSnapshot] stores: the nine properties of its
    object literal. *)
Record Session := mkSession {
  sessionId : string;
  documentType : JsVal;
  originalPath : JsVal;
  outputFormat : JsVal;
  mimeType : JsVal;
  timestamp : JsVal;
  sequenceNumber : JsVal;
  data : Buffer;
  hasUpdate : bool
}.

(** The value of an own property of a stored session. *)
Inductive PropValue :=
| PVal (v : JsVal)
| PData (bytes : Buffer)
| PFlag (b : bool).

(** [session[k]] on a stored session: [None] when the object has no such
    property. *)
Definition session_prop (s : Session) (k : string) : option PropValue :=
  if String.eqb k "sessionId" then Some (PVal (JStr (sessionId s)))
  else if String.eqb k "documentType" then Some (PVal (documentType s))
  else if String.eqb k "originalPath" then Some (PVal (originalPath s))
  else if String.eqb k "outputFormat" then Some (PVal (outputFormat s))
  else if String.eqb k "mimeType" then Some (PVal (mimeType s))
  else if String.eqb k "timestamp" then Some (PVal (timestamp s))
  else if String.eqb k "sequenceNumber" then Some (PVal (sequenceNumber s))
  else if String.eqb k "data" then Some (PData (data s))
  else if String.eqb k "hasUpdate" then Some (PFlag (hasUpdate s))
  else None.

(** An entry of [getAllSessions]. *)
Record Summary := mkSummary {
  sum_sessionId : string;
  sum_documentType : JsVal;
  sum_originalPath : JsVal;
  sum_outputFormat : JsVal;
  sum_lastUpdate : JsVal;
  sum_hasUpdate : bool
}.

Module SessionStore.

Section Store.

Context {E : Env}.

(** [this.sessions], a [Map<string, SessionSnapshot>]. *)
Abbreviation t := (gmap string Session).

Definition empty : t := ∅.

(** The snapshot object built by [updateSnapshot]. *)
Definition snapshot_of (sessionId : string) (metadata : JsVal) (data : Buffer)
  : Session :=
  {| sessionId := sessionId;
     documentType := prop metadata "documentType";
     originalPath := prop metadata "originalPath";
     outputFormat := prop metadata "outputFormat";
     mimeType := prop metadata "mimeType";
     timestamp := prop metadata "timestamp";
     sequenceNumber := prop metadata "sequenceNumber";
     data := data;
     hasUpdate := true |}.

(** [updateSnapshot(sessionId, metadata, data)]: the map after the
    call, and the line it then logs or, when the sequence number it would
    write has no text, the message of the TypeError it then throws. *)
Definition updateSnapshot (sessionId : string) (metadata : JsVal)
           (data : Buffer) (sessions : t) : t * (string + LogCall) :=
  let existing := sessions !! sessionId in
  let snapshot := snapshot_of sessionId metadata data in
  (<[ sessionId := snapshot ]> sessions,
   match existing with
   | Some _ =>
       if stringable (prop metadata "sequenceNumber") then
         inr (mkLog "session" Debug
                    ("Updated session " +:+ sessionId +:+ ", sequence: "
                     +:+ ToString (prop metadata "sequenceNumber")))
       else inl "Cannot convert object to primitive value"
   | None =>
       inr (mkLog "session" Info ("New session " +:+ sessionId +:+ " created"))
   end).

Definition getSession (sessionId : string) (sessions : t) : option Session :=
  sessions !! sessionId.

Definition getAllSessions (sessions : t) : list Summary :=
  (fun entry : string * Session =>
     mkSummary entry.1 (documentType entry.2) (originalPath entry.2)
               (outputFormat entry.2) (timestamp entry.2) (hasUpdate entry.2))
    <$> map_to_list sessions.

Definition mark_viewed (s : Session) : Session :=
  mkSession (sessionId s) (documentType s) (originalPath s) (outputFormat s)
            (mimeType s) (timestamp s) (sequenceNumber s) (data s) false.

(** [markAsViewed(sessionId)]: [session.hasUpdate = false] on the
    stored object, when there is one. *)
Definition markAsViewed (sessionId : string) (sessions : t) : t :=
  alter mark_viewed sessionId sessions.

(** [removeSession(sessionId)]: the map after the call and the line it
    logs when the session existed. *)
Definition removeSession (sessionId : string) (sessions : t)
  : t * option LogCall :=
  (delete sessionId sessions,
   match sessions !! sessionId with
   | Some _ => Some (mkLog "session" Info ("Session " +:+ sessionId +:+ " removed"))
   | None => None
   end).

Definition clear (sessions : t) : t * LogCall :=
  (∅, mkLog "session" Info "All sessions cleared").

Definition size (sessions : t) : nat := base.size sessions.

End Store.

End SessionStore.

(** ** The callbacks of the entry point (index.js, [main]) *)

(** What a callback does besides updating the store. *)
Inductive HostAction :=
| Broadcast (type : string)
| CreateServer
| InitWebSocket
| StartServer
| OpenBrowser
| CloseAllConnections
| StopServer
| ProcessExit (code : Z).

(** An entry of the Map of the store under a key that is not a string.
    The declared type of the keys is [string], but [Map] takes any value,
    and the session id of a message is not checked before it is used as
    the key.  The object stored is the one [updateSnapshot] builds from
    the metadata and the data; no route clears its flag, since a route has
    strings only to look up. *)
Record Stray := mkStray {
  stray_key : JsVal;
  stray_metadata : JsVal;
  stray_data : Buffer
}.

(** The variables of [main] and the store. *)
Record Host := mkHost {
  sessions : gmap string Session;   (* sessionStore.sessions, keys that are strings *)
  others : list Stray;              (* sessionStore.sessions, all other keys *)
  server : bool;                    (* let server = null: whether it is set *)
  serverStarted : bool              (* let serverStarted = false *)
}.

Definition initial_host : Host := mkHost ∅ [] false false.

Definition set_sessions (m : gmap string Session) (h : Host) : Host :=
  mkHost m (others h) (server h) (serverStarted h).

Definition set_others (l : list Stray) (h : Host) : Host :=
  mkHost (sessions h) l (server h) (serverStarted h).

(** SameValueZero, the equality of the keys of a [Map], on two values of
    which one is not a string: primitives are compared by value; an object
    or an array is equal to itself only, and every message is parsed to
    new objects, so that no key of a later message is one of them. *)
Definition same_key (a b : JsVal) : bool :=
  match a, b with
  | JUndefined, JUndefined => true
  | JNull, JNull => true
  | JBool x, JBool y => Bool.eqb x y
  | JNum (Integral x), JNum (Integral y) => x =? y
  | JNum (NonIntegral x), JNum (NonIntegral y) => String.eqb x y
  | _, _ => false
  end.

Module Main.

Section Callbacks.

Context {E : Env}.

(** [this.sessions.get(sessionId)] is an object. *)
Definition known (sessionId : JsVal) (h : Host) : bool :=
  match sessionId with
  | JStr id => bool_decide (is_Some (sessions h !! id))
  | key => existsb (fun e => same_key (stray_key e) key) (others h)
  end.

(** [this.sessions.set(sessionId, snapshot)] in [updateSnapshot], for a
    key of any type: the entry of an equal key is replaced where it is, a
    new key is added. *)
Definition store (metadata : JsVal) (data : Buffer) (h : Host) : Host :=
  match prop metadata "sessionId" with
  | JStr id =>
      set_sessions (SessionStore.updateSnapshot id metadata data (sessions h)).1 h
  | key =>
      set_others
        (if known key h then
           (fun e => if same_key (stray_key e) key
                     then mkStray key metadata data else e) <$> others h
         else others h ++ [mkStray key metadata data]) h
  end.

(** [onSnapshot]: a debug line that names the session, which throws when
    the id has no text; [sessionStore.updateSnapshot(metadata.sessionId,
    metadata, data)], which sets the entry and then throws when the session
    was known and the sequence number has no text; two broadcasts. *)
Definition onSnapshot (metadata : JsVal) (data : Buffer) (h : Host)
  : Host * list HostAction :=
  if negb (stringable (prop metadata "sessionId")) then (h, [])
  else if known (prop metadata "sessionId") h
          && negb (stringable (prop metadata "sequenceNumber")) then
    (store metadata data h, [])
  else (store metadata data h, [Broadcast "snapshot"; Broadcast "log"]).

(** [sessionStore.removeSession(sessionId)], for a key of any type. *)
Definition remove (sessionId : JsVal) (h : Host) : Host :=
  match sessionId with
  | JStr id => set_sessions (SessionStore.removeSession id (sessions h)).1 h
  | key =>
      set_others
        (List.filter (fun e => negb (same_key (stray_key e) key)) (others h)) h
  end.

(** [onSessionClosed] and [onSessionUnbound]: a debug line that names the
    session, which throws when the id has no text; the removal; a
    broadcast. *)
Definition onSessionClosed (sessionId : JsVal) (h : Host) : Host * list HostAction :=
  if negb (stringable sessionId) then (h, [])
  else (remove sessionId h, [Broadcast "session_closed"]).

Definition onSessionUnbound (sessionId : JsVal) (h : Host) : Host * list HostAction :=
  if negb (stringable sessionId) then (h, [])
  else (remove sessionId h, [Broadcast "session_unbound"]).

(** [onInitialized]: the server is created and started unless
    [serverStarted] is already set. *)
Definition onInitialized (h : Host) : Host * list HostAction :=
  if negb (serverStarted h) then
    (mkHost (sessions h) (others h) true true,
     [CreateServer; InitWebSocket; StartServer]
       ++ (if negb noOpen then [OpenBrowser] else [])
       ++ [Broadcast "log"])
  else (h, []).

(** [shutdown(server)] *)
Definition shutdown (h : Host) : list HostAction :=
  (if server h then [CloseAllConnections; StopServer] else []) ++ [ProcessExit 0].

Definition onShutdown (h : Host) : Host * list HostAction :=
  (h, Broadcast "shutdown" :: shutdown h).

(** The callback an effect of the parser invokes; a line on stdout
    invokes none. *)
Definition handle (e : Effect) (h : Host) : Host * list HostAction :=
  match e with
  | Stdout _ => (h, [])
  | OnSnapshot metadata data => onSnapshot metadata data h
  | OnHeartbeat => (h, [Broadcast "log"])
  | OnSessionClosed id => onSessionClosed id h
  | OnSessionUnbound id => onSessionUnbound id h
  | OnShutdown => onShutdown h
  | OnInitialized => onInitialized h
  | OnError _ => (h, [Broadcast "log"])
  end.

(** The callbacks of a whole trace, in order. *)
Fixpoint run (trace : list Effect) (h : Host) : Host * list HostAction :=
  match trace with
  | [] => (h, [])
  | e :: rest =>
      let '(h1, a1) := handle e h in
      let '(h2, a2) := run rest h1 in
      (h2, a1 ++ a2)
  end.

End Callbacks.

End Main.

(** ** Observations on traces *)

Definition is_ack (e : Effect) : bool :=
  match e with
  | Stdout (Ack _ _) => true
  | _ => false
  end.

Definition is_snapshot_delivery (e : Effect) : bool :=
  match e with
  | OnSnapshot _ _ => true
  | _ => false
  end.


Definition is_command_result (e : Effect) : bool :=
  match e with
  | Stdout (CommandResult _ _ _ _) => true
  | _ => false
  end.


Definition count {A} (p : A -> bool) (l : list A) : nat :=
  length (List.filter p l).

(** ** A small concrete environment, for examples *)

Module Demo.

(** The bytes of a text in which an apostrophe stands for the double
    quote of JSON. *)
Definition bytes (s : string) : Buffer :=
  (fun b => if Byte.eqb b x27 then x22 else b) <$> String.list_byte_of_string s.

Definition text (b : Buffer) : string :=
  String.string_of_list_byte ((fun c => if Byte.eqb c x22 then x27 else c) <$> b).

Definition snapshot_line : Buffer :=
  bytes "{'type':'snapshot','sessionId':'s1','sequenceNumber':1}".

Definition snapshot_metadata : JsVal :=
  JObj [("type", JStr "snapshot"); ("sessionId", JStr "s1");
        ("sequenceNumber", JNum (Integral 1))].

(** Checksum 1 is not the CRC-32 of any payload used below. *)
Definition bad_checksum_line : Buffer :=
  bytes "{'type':'snapshot','sessionId':'s1','sequenceNumber':1,'checksum':1}".

Definition bad_checksum_metadata : JsVal :=
  JObj [("type", JStr "snapshot"); ("sessionId", JStr "s1");
        ("sequenceNumber", JNum (Integral 1)); ("checksum", JNum (Integral 1))].

Definition file_line : Buffer :=
  bytes "{'type':'snapshot','sessionId':'s2','sequenceNumber':2,'transportMode':'file','filePath':'/tmp/a.png'}".

Definition file_metadata : JsVal :=
  JObj [("type", JStr "snapshot"); ("sessionId", JStr "s2");
        ("sequenceNumber", JNum (Integral 2)); ("transportMode", JStr "file");
        ("filePath", JStr "/tmp/a.png")].

Definition mmap_line : Buffer :=
  bytes "{'type':'snapshot','sessionId':'s3','sequenceNumber':3,'transportMode':'mmap','mmapName':'/p3','dataSize':2}".

Definition mmap_metadata : JsVal :=
  JObj [("type", JStr "snapshot"); ("sessionId", JStr "s3");
        ("sequenceNumber", JNum (Integral 3)); ("transportMode", JStr "mmap");
        ("mmapName", JStr "/p3"); ("dataSize", JNum (Integral 2))].

Definition initialized_line : Buffer := bytes "{'type':'initialized'}".

Definition initialized_metadata : JsVal := JObj [("type", JStr "initialized")].

Definition heartbeat_line : Buffer := bytes "{'type':'heartbeat'}".

Definition heartbeat_metadata : JsVal := JObj [("type", JStr "heartbeat")].

Definition command_line : Buffer :=
  bytes "{'type':'command','commandId':'c1','commandType':'reload'}".

Definition command_metadata : JsVal :=
  JObj [("type", JStr "command"); ("commandId", JStr "c1");
        ("commandType", JStr "reload")].

Definition empty_id_command_line : Buffer :=
  bytes "{'type':'command','commandId':'','commandType':'reload'}".

Definition empty_id_command_metadata : JsVal :=
  JObj [("type", JStr "command"); ("commandId", JStr EmptyString);
        ("commandType", JStr "reload")].

Definition no_id_command_metadata : JsVal :=
  JObj [("type", JStr "command"); ("commandType", JStr "reload")].

(** A line that is not JSON. *)
Definition garbage_line : Buffer := bytes "{'type':".

(** U+FFFD, the replacement character, in UTF-8. *)
Definition replacement_character : string :=
  String.string_of_list_byte [xef; xbf; xbd].

(** A heartbeat with a field that holds the byte FF, which no UTF-8 text
    has: [toString('utf-8')] reads this byte as U+FFFD, and the text is
    JSON. *)
Definition invalid_utf8_line : Buffer :=
  bytes "{'type':'heartbeat','x':'" ++ [xff] ++ bytes "'}".

Definition invalid_utf8_metadata : JsVal :=
  JObj [("type", JStr "heartbeat"); ("x", JStr replacement_character)].

(** A snapshot whose sequence number is an object with a property
    [toString]. *)
Definition untyped_sequence_line : Buffer :=
  bytes "{'type':'snapshot','sessionId':'s1','sequenceNumber':{'toString':0}}".

Definition untyped_sequence_metadata : JsVal :=
  JObj [("type", JStr "snapshot"); ("sessionId", JStr "s1");
        ("sequenceNumber", JObj [("toString", JNum (Integral 0))])].

(** A command whose type is such an object. *)
Definition untyped_command_line : Buffer :=
  bytes "{'type':'command','commandId':'c1','commandType':{'toString':0}}".

Definition untyped_command_metadata : JsVal :=
  JObj [("type", JStr "command"); ("commandId", JStr "c1");
        ("commandType", JObj [("toString", JNum (Integral 0))])].

Definition table : list (Buffer * JsVal) :=
  [(snapshot_line, snapshot_metadata);
   (bad_checksum_line, bad_checksum_metadata);
   (file_line, file_metadata);
   (mmap_line, mmap_metadata);
   (initialized_line, initialized_metadata);
   (heartbeat_line, heartbeat_metadata);
   (command_line, command_metadata);
   (empty_id_command_line, empty_id_command_metadata);
   (invalid_utf8_line, invalid_utf8_metadata);
   (untyped_sequence_line, untyped_sequence_metadata);
   (untyped_command_line, untyped_command_metadata)].

Fixpoint lookup_line (line : string) (entries : list (Buffer * JsVal)) : string + JsVal :=
  match entries with
  | [] => inl "Unexpected end of JSON input"
  | (b, v) :: rest => if String.eqb line (text b) then inr v else lookup_line line rest
  end.

(** A decoder that knows the lines above and rejects every other line. *)
Definition decode (b : Buffer) : string + JsVal := lookup_line (text b) table.

(** The texts of values; an array is joined with commas, and [null]
    gives the empty text in it. *)
Fixpoint show (v : JsVal) : string :=
  match v with
  | JUndefined => "undefined"
  | JNull => "null"
  | JBool true => "true"
  | JBool false => "false"
  | JNum (Integral z) => pretty z
  | JNum (NonIntegral literal) => literal
  | JStr s => s
  | JArr items =>
      String.concat "," ((fun item => if nullish item then EmptyString
                                      else show item) <$> items)
  | JObj _ => "[object Object]"
  end.

(** A package.json. *)
Definition package : JsVal :=
  JObj [("name", JStr "aspose-mcp-preview"); ("version", JStr "1.0.0");
        ("description", JStr "Preview extension");
        ("author", JObj [("name", JStr "xjustloveux")]);
        ("repository",
         JObj [("type", JStr "git");
               ("url", JStr "https://github.com/xjustloveux/aspose-mcp-preview.git")])].

(** A file system with one file. *)
Definition read (path : JsVal) : string + Buffer :=
  if is_str path "/tmp/a.png" then inr [x41; x42]
  else inl "ENOENT: no such file or directory".

(** Linux, inline transport by default, one readable file. *)
#[local] Instance env : Env := {|
  decodeJSON := decode;
  ToString := show;
  defaultTransport := "stdin";
  noOpen := true;
  currentPlatform := "linux";
  readFile := read;
  loadKoffi := Some "Cannot find package 'koffi'";
  windowsRead := fun _ _ => OpenFailed 2;
  readPackageJson := inr package;
  packageVersion := JStr "1.0.0"
|}.

(** The same on a platform without shared memory. *)
#[local] Instance env_unsupported : Env := {|
  decodeJSON := decode;
  ToString := show;
  defaultTransport := "stdin";
  noOpen := true;
  currentPlatform := "freebsd";
  readFile := read;
  loadKoffi := Some "Cannot find package 'koffi'";
  windowsRead := fun _ _ => OpenFailed 2;
  readPackageJson := inr package;
  packageVersion := JStr "1.0.0"
|}.

(** The length 5 as a little-endian 64-bit prefix, and a payload of five
    bytes. *)
Definition prefix5 : Buffer := [x05; x00; x00; x00; x00; x00; x00; x00].

Definition payload5 : Buffer := [x41; x42; x43; x44; x45].

Definition snapshot_frame : Buffer :=
  snapshot_line ++ [newline] ++ prefix5 ++ payload5.

Definition bad_checksum_frame : Buffer :=
  bad_checksum_line ++ [newline] ++ prefix5 ++ payload5.

Definition untyped_sequence_frame : Buffer :=
  untyped_sequence_line ++ [newline] ++ prefix5 ++ payload5.

End Demo.

(** ** Frames and states, for the statements *)

Section Frames.

Context {E : Env}.

(** The line written by [log.debug] at the top of [parseMessage]. *)
Definition received_log (metadata : JsVal) : LogCall :=
  mkLog "parser" Debug ("Received message type: " +:+ ToString (prop metadata "type")).

(** The line written by [sendAck]. *)
Definition ack_log (sequenceNumber : JsVal) : LogCall :=
  mkLog "ack" Debug ("Sent ACK for sequence " +:+ ToString sequenceNumber).

(** A well-formed snapshot frame of the inline transport: a metadata line
    without a line feed that decodes to a snapshot message whose transport
    is neither file nor mmap, eight bytes that hold the length of the
    payload, and the payload.  The sequence number and the session id of
    the message have texts, as the number and the string that the protocol
    makes of them have.  The whole frame has at most 2^53 bytes (no buffer
    of Node.js is longer). *)
Record InlineFrame (line pre payload : Buffer) (metadata : JsVal) : Prop := {
  frame_line : indexOf line newline = -1;
  frame_decodes : decodeJSON line = inr metadata;
  frame_type : is_str (prop metadata "type") "snapshot" = true;
  frame_not_file : is_str (resolved_transport metadata) "file" = false;
  frame_not_mmap : is_str (resolved_transport metadata) "mmap" = false;
  frame_prefix : length pre = 8%nat;
  frame_length : readBigInt64LE pre 0 = Some (Z.of_nat (length payload));
  frame_size : Z.of_nat (length line) + 9 + Z.of_nat (length payload) <= 2 ^ 53;
  frame_sequence : stringable (prop metadata "sequenceNumber") = true;
  frame_session : stringable (prop metadata "sessionId") = true
}.

(** The bytes of the frame on the wire. *)
Definition frame_bytes (line pre payload : Buffer) : Buffer :=
  line ++ [newline] ++ pre ++ payload.

(** The metadata names no checksum, or the CRC-32 of the payload. *)
Definition checksum_ok (metadata : JsVal) (payload : Buffer) : bool :=
  negb (is_defined (prop metadata "checksum"))
  || is_int (prop metadata "checksum") (CRC.reference payload).

(** [isMmapAvailable()] of mmap.js. *)
Definition isMmapAvailable : Eff bool :=
  if String.eqb currentPlatform "win32" then initializeWindowsAsync
  else if String.eqb currentPlatform "linux" then mret true
  else if String.eqb currentPlatform "darwin" then mret true
  else mret false.



(** The line written by [log.info] when the handshake completes. *)
Definition handshake_log : LogCall := mkLog "parser" Info "Handshake complete".

(** A line without a line feed that decodes to an [initialized] message. *)
Definition initialized_line (line : Buffer) : Prop :=
  indexOf line newline = -1
  /\ exists metadata, decodeJSON line = inr metadata
                      /\ is_str (prop metadata "type") "initialized" = true.

(** Lines on the wire, each followed by its line feed. *)
Definition stream (lines : list Buffer) : Buffer :=
  concat ((fun line => line ++ [newline]) <$> lines).

(** The sessions after two successive calls of [updateSnapshot] with one
    session id. *)
Definition updated_twice (id : string) (m1 : JsVal) (d1 : Buffer)
           (m2 : JsVal) (d2 : Buffer) (store : gmap string Session)
  : gmap string Session :=
  (SessionStore.updateSnapshot id m2 d2
     (SessionStore.updateSnapshot id m1 d1 store).1).1.

(** [processData] is asynchronous: a call appends its chunk and makes its
    first parse attempt at once, and makes the further attempts of its loop
    later, when other calls may have appended and tried in between.  A
    parse attempt on an inline frame performs its effects before it first
    suspends, so the attempts of calls that are pending together form a
    sequence of steps: either a call appends its chunk and tries, or a
    pending call tries again. *)
Inductive Step :=
| AppendAndParse (chunk : Buffer)
| ParseAgain.

Definition step (a : Step) : Eff bool :=
  match a with
  | AppendAndParse chunk =>
      modify (fun s => set_buffer (buffer s ++ chunk) s);;
      parseMessage
  | ParseAgain => parseMessage
  end.

Fixpoint steps (acts : list Step) : Eff unit :=
  match acts with
  | [] => mret tt
  | a :: rest => step a;; steps rest
  end.

(** The bytes a sequence of steps appends, in order. *)
Fixpoint appended (acts : list Step) : Buffer :=
  match acts with
  | [] => []
  | AppendAndParse chunk :: rest => chunk ++ appended rest
  | ParseAgain :: rest => appended rest
  end.

(** The calls the rest of the program can make on the parser. *)
Inductive Call :=
| CallProcessData (fuel : nat) (data : Buffer)
| CallOnData (fuel : nat) (chunk : Buffer)
| CallOnStdinError (message : string)
| CallStart
| CallStop
| CallIsReady.

Definition call (c : Call) : Eff unit :=
  match c with
  | CallProcessData fuel data => processData fuel data
  | CallOnData fuel chunk => onData fuel chunk
  | CallOnStdinError message => onError message
  | CallStart => start
  | CallStop => stop
  | CallIsReady => isReady;; mret tt
  end.

(** The state after a sequence of calls, each made on the state the
    one before left (also when that one threw or did not return). *)
Definition calls (cs : list Call) (s : State) : State :=
  fold_left (fun s c => (call c s).1.2) cs s.

End Frames.

Arguments InlineFrame {E} line pre payload metadata.

(** Well-formed UTF-8 (The Unicode Standard, table 3-7): what
    [toString('utf-8')] decodes without a replacement character. *)
Definition in_range (low high : Z) (b : byte) : bool :=
  (low <=? byte_to_Z b) && (byte_to_Z b <=? high).

Definition second_of_three (b0 b1 : byte) : bool :=
  if in_range 0xE0 0xE0 b0 then in_range 0xA0 0xBF b1
  else if in_range 0xED 0xED b0 then in_range 0x80 0x9F b1
  else in_range 0x80 0xBF b1.

Definition second_of_four (b0 b1 : byte) : bool :=
  if in_range 0xF0 0xF0 b0 then in_range 0x90 0xBF b1
  else if in_range 0xF4 0xF4 b0 then in_range 0x80 0x8F b1
  else in_range 0x80 0xBF b1.

Fixpoint valid_utf8 (b : Buffer) : bool :=
  match b with
  | [] => true
  | b0 :: r0 =>
      if in_range 0x00 0x7F b0 then valid_utf8 r0
      else
        match r0 with
        | [] => false
        | b1 :: r1 =>
            if in_range 0xC2 0xDF b0 then
              in_range 0x80 0xBF b1 && valid_utf8 r1
            else
              match r1 with
              | [] => false
              | b2 :: r2 =>
                  if in_range 0xE0 0xEF b0 then
                    second_of_three b0 b1 && in_range 0x80 0xBF b2
                    && valid_utf8 r2
                  else
                    match r2 with
                    | [] => false
                    | b3 :: r3 =>
                        in_range 0xF0 0xF4 b0 && second_of_four b0 b1
                        && in_range 0x80 0xBF b2 && in_range 0x80 0xBF b3
                        && valid_utf8 r3
                    end
              end
        end
  end.

Definition is_error (e : Effect) : bool :=
  match e with
  | OnError _ => true
  | _ => false
  end.

(** An unsigned 32-bit value. *)
Definition uint32 (z : Z) : Prop := 0 <= z < 2 ^ 32.

(** The table variable is unset or holds the generated table: so it is
    in every state the program reaches. *)
Definition table_ok (s : State) : Prop :=
  crc32Table s = None \/ crc32Table s = Some CRC.generate.

(** A state without its diagnostics. *)
Definition forget_log (s : State) : State :=
  mkState (buffer s) (started s) (handshakeComplete s) (crc32Table s)
          (packageInfo s) (windowsInitialized s) (windowsInitError s) [].

(** The delivery of a snapshot: its acknowledgement, then the callback. *)
Definition delivery (metadata : JsVal) (payload : Buffer) : list Effect :=
  [Stdout (Ack (prop metadata "sequenceNumber") "processed");
   OnSnapshot metadata payload].

(** A computation keeps a property of the state, however it ends. *)
Definition preserves (P : State -> Prop) {A} (m : Eff A) : Prop :=
  forall s, P s -> P (m s).1.2.

(** ** transport/stdin.js *)

Section Stdin.

Context {E : Env}.

(** [readFromStdin(buffer, offset, length)]: the message of the error it
    throws, or the slice. *)
Definition readFromStdin (buffer : Buffer) (offset length : Z) : string + Buffer :=
  if Z.of_nat (List.length buffer) <? js_add offset length then
    inl ("Not enough data in buffer: need " +:+ ToString (JNum (Integral length))
         +:+ " bytes at offset " +:+ ToString (JNum (Integral offset))
         +:+ ", have " +:+ ToString (byte_count buffer))
  else inr (subarray buffer offset (js_add offset length)).

(** [parseLengthPrefix(buffer, offset)]; [readBigInt64LE] throws on an
    offset below zero. *)
Definition parseLengthPrefix (buffer : Buffer) (offset : Z) : string + Z :=
  if Z.of_nat (List.length buffer) <? js_add offset 8 then
    inl "Not enough data for length prefix"
  else
    match readBigInt64LE buffer offset with
    | None => inl "RangeError: The value of offset is out of range"
    | Some value => inr value
    end.

End Stdin.

(** ** transport/mmap.js, [getMmapInfo] *)

Record MmapInfo := mkMmapInfo {
  info_platform : string;
  info_strategy : string;
  info_windowsAvailable : option bool;   (* null off Windows *)
  info_windowsError : option string      (* the message, or null *)
}.

Section MmapInfo.

Context {E : Env}.

Definition getMmapInfo : Eff MmapInfo :=
  s ← get_state;
  mret (mkMmapInfo
          currentPlatform
          (if String.eqb currentPlatform "win32" then "WindowsNamed"
           else if String.eqb currentPlatform "linux" then "LinuxPosix"
           else if String.eqb currentPlatform "darwin" then "FileBacked"
           else "Unsupported")
          (if String.eqb currentPlatform "win32" then
             Some (match windowsInitError s with None => true | Some _ => false end)
           else None)
          (match windowsInitError s with
           | Some message =>
               if String.eqb message EmptyString then None else Some message
           | None => None
           end)).

End MmapInfo.

(** ** The routes (server/routes.js) *)

Inductive Body :=
| JsonBody (value : JsVal)
| SessionsBody (sessions : list Summary)
| BytesBody (bytes : Buffer).

(** What a handler leaves in [reply] and returns: the status code (200
    unless [reply.code] was called), the headers set, the body. *)
Record Reply := mkReply {
  reply_code : Z;
  reply_headers : list (string * JsVal);
  reply_body : Body
}.

Module Routes.

Section Handlers.

Context {E : Env}.

(** [encodeURIComponent]: the message of the URIError, or the text. *)
Variable encodeURIComponent : JsVal -> string + string.

(** [new Date().toISOString()] at the time of the request. *)
Variable now : string.

(** [GET /api/sessions] *)
Definition listSessions (sessions : gmap string Session)
  : Reply * list LogCall :=
  let entries := SessionStore.getAllSessions sessions in
  (mkReply 200 [] (SessionsBody entries),
   [mkLog "routes" Debug
          ("Returning " +:+ ToString (JNum (Integral (Z.of_nat (length entries))))
           +:+ " sessions")]).

(** [v.toString()] on [session.sequenceNumber || 0]: the message of the
    TypeError, or the text.  An own property [toString] of an object is
    not a function; an array is joined from the texts of its items. *)
Definition call_toString (v : JsVal) : string + string :=
  match v with
  | JObj fields =>
      if has_key "toString" fields then
        inl "(session.sequenceNumber || 0).toString is not a function"
      else inr (ToString v)
  | _ =>
      if stringable v then inr (ToString v)
      else inl "Cannot convert object to primitive value"
  end.

(** The [catch] of the snapshot route: the reply keeps the headers set
    before the error. *)
Definition internal_error (sessionId : string) (headers : list (string * JsVal))
           (message : string) : Reply * list LogCall :=
  (mkReply 500 headers
           (JsonBody (JObj [("error", JStr ("Internal error: " +:+ message))])),
   [mkLog "routes" Error
          ("Error getting snapshot for session " +:+ sessionId +:+ ":")]).

(** [GET /api/sessions/:sessionId/snapshot]: the reply, the sessions
    after the request and the lines logged.  After the flag is cleared
    three statements can throw: the encoding of the path, the call of
    [toString] on the sequence number, and the log line, which writes the
    MIME type. *)
Definition getSnapshot (sessionId : string) (sessions : gmap string Session)
  : Reply * gmap string Session * list LogCall :=
  match SessionStore.getSession sessionId sessions with
  | None =>
      (mkReply 404 [] (JsonBody (JObj [("error", JStr "Session not found")])),
       sessions,
       [mkLog "routes" Debug ("Session not found: " +:+ sessionId)])
  | Some session =>
      if (length (data session) =? 0)%nat then
        (mkReply 500 []
                 (JsonBody (JObj [("error", JStr "Session has no snapshot data")])),
         sessions,
         [mkLog "routes" Error ("Session " +:+ sessionId +:+ " has no data")])
      else
        let sessions' := SessionStore.markAsViewed sessionId sessions in
        let first_headers :=
          [("Content-Type", js_or (mimeType session) (JStr "application/octet-stream"));
           ("X-Document-Type", js_or (documentType session) (JStr "unknown"))] in
        match encodeURIComponent (js_or (originalPath session) (JStr EmptyString)) with
        | inl message =>
            let '(reply, logs) := internal_error sessionId first_headers message in
            (reply, sessions', logs)
        | inr path =>
            let more_headers :=
              first_headers ++
              [("X-Original-Path", JStr path);
               ("X-Output-Format", js_or (outputFormat session) (JStr "unknown"));
               ("X-Timestamp", js_or (timestamp session) (JStr now))] in
            match call_toString (js_or (sequenceNumber session)
                                       (JNum (Integral 0))) with
            | inl message =>
                let '(reply, logs) := internal_error sessionId more_headers message in
                (reply, sessions', logs)
            | inr sequence =>
                let headers := more_headers ++ [("X-Sequence-Number", JStr sequence)] in
                if stringable (mimeType session) then
                  (mkReply 200 headers (BytesBody (data session)),
                   sessions',
                   [mkLog "routes" Debug
                          ("Returning snapshot for session " +:+ sessionId +:+ ", "
                           +:+ ToString (byte_count (data session))
                           +:+ " bytes, mimeType: "
                           +:+ ToString (mimeType session))])
                else
                  let '(reply, logs) :=
                    internal_error sessionId headers
                                   "Cannot convert object to primitive value" in
                  (reply, sessions', logs)
            end
        end
  end.

(** [GET /api/sessions/:sessionId/info] *)
Definition getInfo (id : string) (sessions : gmap string Session) : Reply :=
  match SessionStore.getSession id sessions with
  | None => mkReply 404 [] (JsonBody (JObj [("error", JStr "Session not found")]))
  | Some session =>
      mkReply 200 []
        (JsonBody (JObj [("sessionId", JStr (sessionId session));
                         ("documentType", documentType session);
                         ("originalPath", originalPath session);
                         ("outputFormat", outputFormat session);
                         ("mimeType", mimeType session);
                         ("timestamp", timestamp session);
                         ("sequenceNumber", sequenceNumber session);
                         ("dataSize", byte_count (data session));
                         ("hasUpdate", JBool (hasUpdate session))]))
  end.

(** [POST /api/sessions/:sessionId/viewed] *)
Definition postViewed (sessionId : string) (sessions : gmap string Session)
  : Reply * gmap string Session :=
  (mkReply 200 [] (JsonBody (JObj [("success", JBool true)])),
   SessionStore.markAsViewed sessionId sessions).

End Handlers.

End Routes.

(** ** More notions for the statements *)

(** A computation that never answers "need more data". *)
Definition consumes (m : Eff bool) : Prop :=
  forall s, (m s).1.1 <> Ok false.

(** The buffer holds the last bytes of [b0]. *)
Definition buffer_within (b0 : Buffer) (s : State) : Prop :=
  buffer s `suffix_of` b0.

Section MoreFrames.

Context {E : Env}.

(** An inline frame as it is on the wire, with the metadata its line
    decodes to. *)
Record Frame := mkFrame {
  f_line : Buffer;
  f_prefix : Buffer;
  f_payload : Buffer;
  f_metadata : JsVal
}.

Definition valid_frame (f : Frame) : Prop :=
  InlineFrame (f_line f) (f_prefix f) (f_payload f) (f_metadata f)
  /\ checksum_ok (f_metadata f) (f_payload f) = true.

Definition wire (frames : list Frame) : Buffer :=
  mjoin ((fun f => frame_bytes (f_line f) (f_prefix f) (f_payload f)) <$> frames).

Definition deliveries (frames : list Frame) : list Effect :=
  mjoin ((fun f => delivery (f_metadata f) (f_payload f)) <$> frames).

(** The response of [handleCommand] to a command, if any. *)
Definition command_effects (metadata : JsVal) : list Effect :=
  if negb (truthy (prop metadata "commandId")) then []
  else if is_str (prop metadata "commandType") "get_version" then
    [Stdout (CommandResult (prop metadata "commandId") true
               (Some (JObj [("version", packageVersion)])) None)]
  else
    [Stdout (CommandResult (prop metadata "commandId") false None
               (Some (JStr ("Unknown command type: "
                            +:+ ToString (prop metadata "commandType")))))].

(** What the parser does on a line that is a whole message. *)
Definition line_effects (line : Buffer) : list Effect :=
  match decodeJSON line with
  | inl message => [OnError ("Failed to parse JSON metadata: " +:+ message)]
  | inr metadata =>
      if is_str (prop metadata "type") "initialized" then [OnInitialized]
      else if is_str (prop metadata "type") "heartbeat" then [Stdout Pong; OnHeartbeat]
      else if is_str (prop metadata "type") "session_closed" then
        [OnSessionClosed (prop metadata "sessionId")]
      else if is_str (prop metadata "type") "session_unbound" then
        [OnSessionUnbound (prop metadata "sessionId")]
      else if is_str (prop metadata "type") "command" then command_effects metadata
      else []
  end.

(** The fields of a message that are written in a log line on its way
    have texts: its type; the session id of a session end, which the
    callback writes; the id and the type of a command that has a truthy
    id; the [messageType] of a message of a type the parser does not
    know. *)
Definition has_texts (metadata : JsVal) : bool :=
  let type := prop metadata "type" in
  stringable type
  && if is_str type "initialized" || is_str type "heartbeat" then true
     else if is_str type "session_closed" || is_str type "session_unbound" then
       stringable (prop metadata "sessionId")
     else if is_str type "command" then
       negb (truthy (prop metadata "commandId"))
       || (stringable (prop metadata "commandType")
           && stringable (prop metadata "commandId"))
     else stringable (prop metadata "messageType").

(** A line without a line feed that does not decode, or decodes to a
    value other than [null] whose type is none of [snapshot], [initialize]
    and [shutdown] and whose fields have the texts the parser makes of
    them.  (After a [shutdown] line the callback of index.js ends the
    process, at once when no server is running yet.) *)
Definition line_message (line : Buffer) : Prop :=
  indexOf line newline = -1
  /\ match decodeJSON line with
     | inl _ => True
     | inr metadata =>
         nullish metadata = false
         /\ is_str (prop metadata "type") "snapshot" = false
         /\ is_str (prop metadata "type") "initialize" = false
         /\ is_str (prop metadata "type") "shutdown" = false
         /\ has_texts metadata = true
     end.

(** An acknowledgement of a sequence number that has no text: [sendAck]
    throws after it has written it. *)
Definition is_lone_ack (e : Effect) : bool :=
  match e with
  | Stdout (Ack sequenceNumber _) => negb (stringable sequenceNumber)
  | _ => false
  end.

(** Acknowledgements and deliveries go in pairs: a trace in which every
    delivery follows at once the acknowledgement of its sequence number,
    and every acknowledgement is followed at once by the delivery of the
    snapshot whose sequence number it carries, unless this sequence number
    has no text. *)
Inductive paired : list Effect -> Prop :=
| paired_nil : paired []
| paired_other e t :
    is_ack e = false -> is_snapshot_delivery e = false ->
    paired t -> paired (e :: t)
| paired_delivery metadata bytes t :
    stringable (prop metadata "sequenceNumber") = true ->
    paired t -> paired (delivery metadata bytes ++ t)
| paired_lone_ack sequenceNumber t :
    stringable sequenceNumber = false ->
    paired t -> paired (Stdout (Ack sequenceNumber "processed") :: t).

(** All the effects of a computation are in pairs. *)
Definition emits_paired {A} (m : Eff A) : Prop :=
  forall s, paired (m s).2.

(** The listener of the ['data'] event, once for each chunk. *)
Fixpoint listen (fuel : nat) (chunks : list Buffer) : Eff unit :=
  match chunks with
  | [] => mret tt
  | chunk :: rest => onData fuel chunk;; listen fuel rest
  end.

End MoreFrames.

(** ** The calls on the session store *)

(** The calls the rest of the program makes on [sessionStore]. *)
Inductive StoreCall :=
| UpdateSnapshot (sessionId : string) (metadata : JsVal) (data : Buffer)
| MarkAsViewed (sessionId : string)
| RemoveSession (sessionId : string)
| Clear.

Section StoreCalls.

Context {E : Env}.

Definition store_call (c : StoreCall) (sessions : gmap string Session)
  : gmap string Session :=
  match c with
  | UpdateSnapshot id metadata data =>
      (SessionStore.updateSnapshot id metadata data sessions).1
  | MarkAsViewed id => SessionStore.markAsViewed id sessions
  | RemoveSession id => (SessionStore.removeSession id sessions).1
  | Clear => (SessionStore.clear sessions).1
  end.

(** The sessions after a sequence of calls. *)
Definition store_calls (cs : list StoreCall) (sessions : gmap string Session)
  : gmap string Session :=
  fold_left (fun m c => store_call c m) cs sessions.

End StoreCalls.

(** The event is about the session [id]: a snapshot for it, or its end. *)
Definition concerns (id : string) (e : Effect) : bool :=
  match e with
  | OnSnapshot metadata _ => is_str (prop metadata "sessionId") id
  | OnSessionClosed v => is_str v id
  | OnSessionUnbound v => is_str v id
  | _ => false
  end.

(** The state of the Windows initialisation is coherent: no error is
    kept before the first attempt. *)
Definition windows_coherent (s : State) : Prop :=
  windowsInitialized s = false -> windowsInitError s = None.

(** ** Progress of the loop *)

(** The buffer is shorter than [n] bytes. *)
Definition shorter_than (n : nat) (s : State) : Prop :=
  (length (buffer s) < n)%nat.

(** A computation that always ends, with a value or a thrown error. *)
Definition answers {A} (m : Eff A) : Prop :=
  forall s, (m s).1.1 <> OutOfFuel.

Section Sizes.

Context {E : Env}.

(** The buffer starts with the line of an inline snapshot that is
    followed by a length prefix below zero. *)
Definition negative_frame (b : Buffer) : bool :=
  let newlineIndex := indexOf b newline in
  if newlineIndex =? -1 then false
  else
    match decodeJSON (subarray b 0 newlineIndex) with
    | inl _ => false
    | inr metadata =>
        negb (nullish metadata)
        && is_str (prop metadata "type") "snapshot"
        && negb (is_str (resolved_transport metadata) "file")
        && negb (is_str (resolved_transport metadata) "mmap")
        && match readBigInt64LE b (newlineIndex + 1) with
           | Some dataSize => dataSize <? 0
           | None => false
           end
    end.

(** No part of the data that the parser may come to read as a frame has
    a length prefix below zero: none of its suffixes starts so. *)
Definition well_sized (b : Buffer) : bool :=
  forallb (fun k => negb (negative_frame (drop k b))) (seq 0 (S (length b))).

End Sizes.

(** ** Runs on states that differ *)

(** A computation does the same on two related states: the same result,
    the same effects, and states that are related again. *)
Definition sim (R : State -> State -> Prop) {A} (m : Eff A) : Prop :=
  forall s s2,
    R s s2 ->
    (m s).1.1 = (m s2).1.1 /\ (m s).2 = (m s2).2 /\ R (m s).1.2 (m s2).1.2.

(** The second state is the first with [more] appended to its buffer. *)
Definition extended (more : Buffer) (s s2 : State) : Prop :=
  s2 = set_buffer (buffer s ++ more) s.

(** The two states differ by their diagnostics at most. *)
Definition same_but_log (s s2 : State) : Prop :=
  forget_log s = forget_log s2.

(** ** More lines for the examples *)

Module DemoLines.

Definition initialize_line : Buffer :=
  Demo.bytes "{'type':'initialize','protocolVersion':'1.0'}".

Definition initialize_metadata : JsVal :=
  JObj [("type", JStr "initialize"); ("protocolVersion", JStr "1.0")].

(** The JSON text [null]. *)
Definition null_line : Buffer := Demo.bytes "null".

Definition session_closed_line : Buffer :=
  Demo.bytes "{'type':'session_closed','sessionId':'s1'}".

Definition session_closed_metadata : JsVal :=
  JObj [("type", JStr "session_closed"); ("sessionId", JStr "s1")].

(** A message of a type the parser does not know. *)
Definition progress_line : Buffer := Demo.bytes "{'type':'progress'}".

Definition progress_metadata : JsVal := JObj [("type", JStr "progress")].

(** A snapshot with its MIME type. *)
Definition image_line : Buffer :=
  Demo.bytes "{'type':'snapshot','sessionId':'s4','sequenceNumber':7,'mimeType':'image/png'}".

Definition image_metadata : JsVal :=
  JObj [("type", JStr "snapshot"); ("sessionId", JStr "s4");
        ("sequenceNumber", JNum (Integral 7)); ("mimeType", JStr "image/png")].

Definition table : list (Buffer * JsVal) :=
  [(initialize_line, initialize_metadata);
   (null_line, JNull);
   (session_closed_line, session_closed_metadata);
   (progress_line, progress_metadata);
   (image_line, image_metadata)].

(** A decoder that knows these lines and those of [Demo]. *)
Definition decode (b : Buffer) : string + JsVal :=
  match Demo.lookup_line (Demo.text b) table with
  | inr v => inr v
  | inl _ => Demo.decode b
  end.

#[local] Instance env : Env := {|
  decodeJSON := decode;
  ToString := Demo.show;
  defaultTransport := "stdin";
  noOpen := true;
  currentPlatform := "linux";
  readFile := Demo.read;
  loadKoffi := Some "Cannot find package 'koffi'";
  windowsRead := fun _ _ => OpenFailed 2;
  readPackageJson := inr Demo.package;
  packageVersion := JStr "1.0.0"
|}.

(** Windows without koffi. *)
#[local] Instance env_windows : Env := {|
  decodeJSON := decode;
  ToString := Demo.show;
  defaultTransport := "stdin";
  noOpen := true;
  currentPlatform := "win32";
  readFile := Demo.read;
  loadKoffi := Some "Cannot find package 'koffi'";
  windowsRead := fun _ _ => OpenFailed 2;
  readPackageJson := inr Demo.package;
  packageVersion := JStr "1.0.0"
|}.


(** [encodeURIComponent] on the texts of the examples, which it leaves as
    they are. *)
Definition encode (v : JsVal) : string + string := inr (Demo.show v).

Definition snapshot_frame : Frame :=
  mkFrame Demo.snapshot_line Demo.prefix5 Demo.payload5 Demo.snapshot_metadata.

Definition image_frame : Frame :=
  mkFrame image_line Demo.prefix5 Demo.payload5 image_metadata.

End DemoLines.

(** * Properties *)

(** ** The 32-bit operators, bit by bit *)

Module JSFacts.

Lemma ToUint32_range z : 0 <= JS.ToUint32 z < 2 ^ 32.
Proof. unfold JS.ToUint32. apply Z.mod_pos_bound. lia. Qed.

Lemma ToUint32_small z : 0 <= z < 2 ^ 32 -> JS.ToUint32 z = z.
Proof. intros Hz. unfold JS.ToUint32. apply Z.mod_small. exact Hz. Qed.

Lemma ToUint32_ToInt32 z : JS.ToUint32 (JS.ToInt32 z) = JS.ToUint32 z.
Proof.
  unfold JS.ToUint32, JS.ToInt32.
  destruct (z mod 2 ^ 32 <? 2 ^ 31).
  - apply Z.mod_mod. lia.
  - replace (z mod 2 ^ 32 - 2 ^ 32) with (z mod 2 ^ 32 + (-1) * 2 ^ 32) by lia.
    rewrite Z.mod_add by lia. apply Z.mod_mod. lia.
Qed.

Lemma ToUint32_testbit z i :
  Z.testbit (JS.ToUint32 z) i = ((i <? 32) && Z.testbit z i)%bool.
Proof. unfold JS.ToUint32. apply Z.testbit_mod_pow2. lia. Qed.

Lemma ToInt32_testbit z i : 0 <= i < 32 -> Z.testbit (JS.ToInt32 z) i = Z.testbit z i.
Proof.
  intros Hi.
  assert (Hlow : forall x, Z.testbit (JS.ToUint32 x) i = Z.testbit x i).
  { intros x. rewrite ToUint32_testbit.
    destruct (Z.ltb_spec i 32); [reflexivity | lia]. }
  rewrite <- (Hlow (JS.ToInt32 z)), ToUint32_ToInt32. apply Hlow.
Qed.

(** Two values with the same low 32 bits have the same ToUint32. *)
Lemma ToUint32_ext a b :
  (forall i, 0 <= i < 32 -> Z.testbit a i = Z.testbit b i) ->
  JS.ToUint32 a = JS.ToUint32 b.
Proof.
  intros Hbits. apply Z.bits_inj'. intros i Hi.
  rewrite !ToUint32_testbit.
  destruct (Z.ltb_spec i 32); [| reflexivity].
  simpl. apply Hbits. lia.
Qed.

Lemma ToUint32_xor a b :
  JS.ToUint32 (JS.xor a b) = Z.lxor (JS.ToUint32 a) (JS.ToUint32 b).
Proof.
  apply Z.bits_inj'. intros i Hi. unfold JS.xor.
  rewrite Z.lxor_spec, !ToUint32_testbit, Z.lxor_spec.
  destruct (Z.ltb_spec i 32); [| reflexivity].
  simpl. rewrite !ToInt32_testbit by lia. reflexivity.
Qed.

Lemma ushr_eq a n : 0 <= n < 32 -> JS.ushr a n = Z.shiftr (JS.ToUint32 a) n.
Proof. intros Hn. unfold JS.ushr. rewrite Z.mod_small by lia. reflexivity. Qed.

Lemma shiftr_range u n : 0 <= u < 2 ^ 32 -> 0 <= n -> 0 <= Z.shiftr u n < 2 ^ 32.
Proof.
  intros Hu Hn. rewrite Z.shiftr_div_pow2 by lia. split.
  - apply Z.div_pos; lia.
  - apply Z.le_lt_trans with u; [| lia].
    apply Z.div_le_upper_bound; [lia |].
    assert (1 <= 2 ^ n) by (apply (Z.pow_le_mono_r 2 0 n); lia). nia.
Qed.

Lemma ToUint32_ushr a n : 0 <= n < 32 -> JS.ToUint32 (JS.ushr a n) = JS.ushr a n.
Proof.
  intros Hn. rewrite ushr_eq by lia. apply ToUint32_small.
  apply shiftr_range; [apply ToUint32_range | lia].
Qed.

(** [x & 0xff] reads the low eight bits whatever the sign of [x]. *)
Lemma and_255 x : JS.and x 255 = Z.land (JS.ToUint32 x) 255.
Proof.
  unfold JS.and. change (JS.ToInt32 255) with (Z.ones 8).
  change 255 with (Z.ones 8).
  apply Z.bits_inj'. intros i Hi.
  rewrite !Z.land_spec, Z.testbit_ones_nonneg by lia.
  destruct (Z.ltb_spec i 8).
  - rewrite ToInt32_testbit, ToUint32_testbit by lia.
    destruct (Z.ltb_spec i 32); [reflexivity | lia].
  - rewrite !andb_false_r. reflexivity.
Qed.

Lemma and_1 x : JS.and x 1 = if Z.testbit (JS.ToUint32 x) 0 then 1 else 0.
Proof.
  assert (Hbit : Z.testbit (JS.ToUint32 x) 0 = Z.testbit (JS.ToInt32 x) 0).
  { rewrite ToUint32_testbit, ToInt32_testbit by lia. reflexivity. }
  rewrite Hbit. unfold JS.and. change (JS.ToInt32 1) with (Z.ones 1).
  rewrite Z.land_ones by lia. change (2 ^ 1) with 2.
  rewrite Z.bit0_odd, Zmod_odd. destruct (Z.odd (JS.ToInt32 x)); reflexivity.
Qed.

End JSFacts.

(** ** The table-driven checksum against the reference CRC-32 *)

Module CRCFacts.

Import JSFacts.

Lemma uint32_fix z : uint32 z <-> JS.ToUint32 z = z.
Proof.
  split.
  - apply ToUint32_small.
  - intros <-. apply ToUint32_range.
Qed.

Lemma uint32_lxor a b : uint32 a -> uint32 b -> uint32 (Z.lxor a b).
Proof.
  rewrite !uint32_fix. intros Ha Hb.
  apply Z.bits_inj'. intros i Hi.
  rewrite ToUint32_testbit, Z.lxor_spec, <- Ha, <- Hb, !ToUint32_testbit.
  destruct (i <? 32); reflexivity.
Qed.

Lemma uint32_shiftr a n : uint32 a -> 0 <= n -> uint32 (Z.shiftr a n).
Proof. intros Ha Hn. apply shiftr_range; assumption. Qed.

Lemma reference_bit_uint32 c : uint32 c -> uint32 (CRC.reference_bit c).
Proof.
  intros Hc. unfold CRC.reference_bit. destruct (Z.testbit c 0).
  - apply uint32_lxor; [apply uint32_shiftr; [assumption | lia] |].
    unfold uint32. lia.
  - apply uint32_shiftr; [assumption | lia].
Qed.

Lemma iter_reference_bit_uint32 n c :
  uint32 c -> uint32 (Nat.iter n CRC.reference_bit c).
Proof.
  intros Hc. induction n as [| n IH]; simpl.
  - exact Hc.
  - apply reference_bit_uint32, IH.
Qed.

(** One step of the table loop is one step of the reference, on the
    unsigned reading of the value. *)
Lemma entry_step_reference c :
  JS.ToUint32 (CRC.entry_step c) = CRC.reference_bit (JS.ToUint32 c).
Proof.
  unfold CRC.entry_step, CRC.reference_bit.
  rewrite and_1. destruct (Z.testbit (JS.ToUint32 c) 0).
  - change (1 =? 0) with false. cbv iota.
    rewrite ToUint32_xor, ToUint32_ushr, ushr_eq by lia.
    rewrite Z.lxor_comm. reflexivity.
  - change (0 =? 0) with true. cbv iota.
    rewrite ToUint32_ushr, ushr_eq by lia. reflexivity.
Qed.

Lemma iter_entry_step_reference n c :
  JS.ToUint32 (Nat.iter n CRC.entry_step c)
  = Nat.iter n CRC.reference_bit (JS.ToUint32 c).
Proof.
  induction n as [| n IH]; simpl.
  - reflexivity.
  - rewrite entry_step_reference, IH. reflexivity.
Qed.

Lemma entry_reference i :
  uint32 i -> CRC.entry i = Nat.iter 8 CRC.reference_bit i.
Proof.
  intros Hi. unfold CRC.entry.
  rewrite iter_entry_step_reference, ToUint32_small by exact Hi. reflexivity.
Qed.

(** The generated table holds [entry k] at every index [k]. *)
Lemma generate_entries :
  CRC.generate = (fun i : nat => CRC.entry (Z.of_nat i)) <$> seq 0 256.
Proof. vm_compute. reflexivity. Qed.

Lemma generate_length : length CRC.generate = 256%nat.
Proof. vm_compute. reflexivity. Qed.

Lemma at_index_generate k :
  0 <= k < 256 -> CRC.at_index CRC.generate k = CRC.entry k.
Proof.
  intros Hk. unfold CRC.at_index.
  destruct (Z.ltb_spec k 0); [lia |].
  rewrite generate_entries, list_lookup_fmap, lookup_seq_lt by lia.
  simpl. rewrite Z2Nat.id by lia. reflexivity.
Qed.

(** The reference step is linear over exclusive or. *)
Lemma reference_bit_lxor a b :
  CRC.reference_bit (Z.lxor a b)
  = Z.lxor (CRC.reference_bit a) (CRC.reference_bit b).
Proof.
  unfold CRC.reference_bit.
  rewrite Z.lxor_spec, Z.shiftr_lxor.
  set (sa := Z.shiftr a 1). set (sb := Z.shiftr b 1). set (p := 3988292384).
  destruct (Z.testbit a 0), (Z.testbit b 0); simpl xorb; cbv iota;
    apply Z.bits_inj'; intros i _; rewrite ?Z.lxor_spec;
    destruct (Z.testbit sa i), (Z.testbit sb i), (Z.testbit p i); reflexivity.
Qed.

Lemma iter_reference_bit_lxor n a b :
  Nat.iter n CRC.reference_bit (Z.lxor a b)
  = Z.lxor (Nat.iter n CRC.reference_bit a) (Nat.iter n CRC.reference_bit b).
Proof.
  induction n as [| n IH]; simpl.
  - reflexivity.
  - rewrite IH. apply reference_bit_lxor.
Qed.

(** On a value whose low [n] bits are zero, [n] reference steps only
    shift. *)
Lemma iter_reference_bit_shiftl n y :
  Nat.iter n CRC.reference_bit (Z.shiftl y (Z.of_nat n)) = y.
Proof.
  induction n as [| n IH].
  - simpl. apply Z.shiftl_0_r.
  - rewrite Nat.iter_succ_r. unfold CRC.reference_bit at 2.
    rewrite Z.shiftl_spec_low by lia.
    rewrite Z.shiftr_shiftl_l by lia.
    replace (Z.of_nat (S n) - 1) with (Z.of_nat n) by lia. exact IH.
Qed.

Lemma split_low_byte x :
  x = Z.lxor (Z.shiftl (Z.shiftr x 8) 8) (Z.land x 255).
Proof.
  apply Z.bits_inj'. intros i Hi.
  change 255 with (Z.ones 8).
  rewrite Z.lxor_spec, Z.land_spec, Z.testbit_ones_nonneg by lia.
  destruct (Z.ltb_spec i 8).
  - rewrite Z.shiftl_spec_low by lia. rewrite andb_true_r. reflexivity.
  - rewrite Z.shiftl_spec_high, Z.shiftr_spec by lia.
    replace (i - 8 + 8) with i by lia.
    rewrite andb_false_r, xorb_false_r. reflexivity.
Qed.

Lemma reference_byte_table x :
  Nat.iter 8 CRC.reference_bit x
  = Z.lxor (Z.shiftr x 8) (Nat.iter 8 CRC.reference_bit (Z.land x 255)).
Proof.
  rewrite (split_low_byte x) at 1.
  rewrite iter_reference_bit_lxor.
  pose proof (iter_reference_bit_shiftl 8 (Z.shiftr x 8)) as Hshift.
  change (Z.of_nat 8) with 8 in Hshift. rewrite Hshift. reflexivity.
Qed.

Lemma byte_to_Z_range b : 0 <= byte_to_Z b < 256.
Proof.
  unfold byte_to_Z. pose proof (Byte.to_N_bounded b) as Hb. lia.
Qed.

Lemma land_255_range x : 0 <= Z.land x 255 < 256.
Proof.
  change 255 with (Z.ones 8). rewrite Z.land_ones by lia.
  apply Z.mod_pos_bound. lia.
Qed.

Lemma shiftr_lxor_byte u bz :
  0 <= bz < 256 -> Z.shiftr (Z.lxor u bz) 8 = Z.shiftr u 8.
Proof.
  intros Hb. rewrite Z.shiftr_lxor.
  rewrite (Z.shiftr_div_pow2 bz) by lia.
  rewrite Z.div_small by lia. apply Z.lxor_0_r.
Qed.

(** One iteration of [calculateCRC32] with the generated table is one
    byte of the reference. *)
Lemma update_reference crc b :
  JS.ToUint32 (CRC.update CRC.generate crc b)
  = CRC.reference_byte (JS.ToUint32 crc) b.
Proof.
  unfold CRC.update, CRC.reference_byte.
  pose proof (byte_to_Z_range b) as Hb.
  set (bz := byte_to_Z b) in *. set (u := JS.ToUint32 crc).
  rewrite ToUint32_xor, ToUint32_ushr, ushr_eq by lia.
  rewrite and_255, ToUint32_xor.
  rewrite (ToUint32_small bz) by lia. fold u.
  pose proof (land_255_range (Z.lxor u bz)) as Hidx.
  rewrite at_index_generate by exact Hidx.
  rewrite (ToUint32_small (CRC.entry _)).
  2:{ unfold CRC.entry. apply ToUint32_range. }
  rewrite entry_reference by (unfold uint32; lia).
  rewrite (reference_byte_table (Z.lxor u bz)).
  rewrite shiftr_lxor_byte by exact Hb. reflexivity.
Qed.

Lemma fold_update_reference data crc :
  JS.ToUint32 (fold_left (CRC.update CRC.generate) data crc)
  = fold_left CRC.reference_byte data (JS.ToUint32 crc).
Proof.
  revert crc. induction data as [| b data IH]; intros crc; simpl.
  - reflexivity.
  - rewrite IH, update_reference. reflexivity.
Qed.

(** The checksum computed with the generated table is the reference
    CRC-32, for every input. *)
Lemma checksum_with_generate data :
  CRC.checksum_with CRC.generate data = CRC.reference data.
Proof.
  unfold CRC.checksum_with, CRC.reference.
  rewrite ushr_eq by lia. rewrite Z.shiftr_0_r.
  rewrite ToUint32_xor, fold_update_reference. reflexivity.
Qed.

Lemma reference_byte_uint32 c b : uint32 c -> uint32 (CRC.reference_byte c b).
Proof.
  intros Hc. unfold CRC.reference_byte.
  apply iter_reference_bit_uint32, uint32_lxor; [exact Hc |].
  pose proof (byte_to_Z_range b). unfold uint32. lia.
Qed.

Lemma reference_uint32 data : uint32 (CRC.reference data).
Proof.
  unfold CRC.reference.
  apply uint32_lxor; [| unfold uint32; lia].
  assert (Hgen : forall c, uint32 c -> uint32 (fold_left CRC.reference_byte data c)).
  { induction data as [| b data IH]; intros c Hc; simpl.
    - exact Hc.
    - apply IH, reference_byte_uint32, Hc. }
  apply Hgen. unfold uint32. lia.
Qed.

End CRCFacts.

(** ** Buffers: search, slices and the length prefix *)

Module BufferFacts.

Lemma byte_eqb_refl c : Byte.eqb c c = true.
Proof. apply Byte.byte_dec_lb. reflexivity. Qed.

Lemma index_from_absent (b : Buffer) c i : c ∉ b -> index_from b c i = -1.
Proof.
  revert i. induction b as [| x b IH]; intros i Hc; simpl.
  - reflexivity.
  - destruct (Byte.eqb x c) eqn:Heq.
    + apply Byte.byte_dec_bl in Heq. subst x. exfalso. apply Hc. left.
    + apply IH. intros Hin. apply Hc. right. exact Hin.
Qed.

Lemma index_from_first (line rest : Buffer) c i :
  c ∉ line ->
  index_from (line ++ c :: rest) c i = i + Z.of_nat (length line).
Proof.
  revert i. induction line as [| x line IH]; intros i Hc; simpl.
  - rewrite byte_eqb_refl. lia.
  - destruct (Byte.eqb x c) eqn:Heq.
    + apply Byte.byte_dec_bl in Heq. subst x. exfalso. apply Hc. left.
    + rewrite IH; [lia |]. intros Hin. apply Hc. right. exact Hin.
Qed.

Lemma indexOf_absent (b : Buffer) c : c ∉ b -> indexOf b c = -1.
Proof. apply index_from_absent. Qed.

Lemma indexOf_first (line rest : Buffer) c :
  c ∉ line -> indexOf (line ++ c :: rest) c = Z.of_nat (length line).
Proof. intros Hc. unfold indexOf. rewrite index_from_first by exact Hc. lia. Qed.

Lemma index_from_lower (b : Buffer) c i : index_from b c i = -1 \/ i <= index_from b c i.
Proof.
  revert i. induction b as [| x b IH]; intros i; simpl.
  - left. reflexivity.
  - destruct (Byte.eqb x c); [right; lia |].
    destruct (IH (i + 1)) as [-> | Hle]; [left; reflexivity | right; lia].
Qed.

Lemma index_from_absent_inv (b : Buffer) c i :
  0 <= i -> index_from b c i = -1 -> c ∉ b.
Proof.
  revert i. induction b as [| x b IH]; intros i Hi Hidx; simpl in Hidx.
  - apply not_elem_of_nil.
  - destruct (Byte.eqb x c) eqn:Heq; [lia |].
    apply not_elem_of_cons. split.
    + intros ->. rewrite byte_eqb_refl in Heq. discriminate.
    + apply (IH (i + 1)); [lia | exact Hidx].
Qed.

(** Within the buffer, a slice is a [take] of a [drop]. *)
Lemma subarray_within (b : Buffer) (i j : nat) :
  (i <= j <= length b)%nat ->
  subarray b (Z.of_nat i) (Z.of_nat j) = take (j - i) (drop i b).
Proof.
  intros Hij. unfold subarray, clamp_index.
  destruct (Z.ltb_spec (Z.of_nat i) 0); [lia |].
  destruct (Z.ltb_spec (Z.of_nat j) 0); [lia |].
  rewrite !Z.min_l by lia.
  replace (Z.to_nat (Z.of_nat j - Z.of_nat i)) with (j - i)%nat by lia.
  rewrite Nat2Z.id. reflexivity.
Qed.

Lemma subarray_prefix (line rest : Buffer) :
  subarray (line ++ rest) 0 (Z.of_nat (length line)) = line.
Proof.
  change 0 with (Z.of_nat 0).
  rewrite subarray_within by (rewrite length_app; lia).
  rewrite Nat.sub_0_r, drop_0. apply take_app_length.
Qed.

Lemma subarray_middle (x y z : Buffer) :
  subarray (x ++ y ++ z) (Z.of_nat (length x))
           (Z.of_nat (length x) + Z.of_nat (length y)) = y.
Proof.
  rewrite <- Nat2Z.inj_add.
  rewrite subarray_within by (rewrite !length_app; lia).
  rewrite drop_app_length.
  replace (length x + length y - length x)%nat with (length y) by lia.
  apply take_app_length.
Qed.

Lemma subarray_from_suffix (x y : Buffer) :
  subarray_from (x ++ y) (Z.of_nat (length x)) = y.
Proof.
  unfold subarray_from.
  rewrite subarray_within by (rewrite length_app; lia).
  rewrite drop_app_length, length_app.
  replace (length x + length y - length x)%nat with (length y) by lia.
  apply firstn_all.
Qed.

Lemma le_unsigned_range (bs : list byte) :
  0 <= le_unsigned bs < 256 ^ Z.of_nat (length bs).
Proof.
  induction bs as [| b bs IH].
  - simpl. lia.
  - cbn [le_unsigned fold_right length]. fold (le_unsigned bs).
    rewrite Nat2Z.inj_succ, Z.pow_succ_r by lia.
    pose proof (CRCFacts.byte_to_Z_range b). lia.
Qed.

(** The prefix is read where it stands, whatever follows it. *)
Lemma readBigInt64LE_at (x pre y : Buffer) :
  length pre = 8%nat ->
  readBigInt64LE (x ++ pre ++ y) (Z.of_nat (length x)) = readBigInt64LE pre 0.
Proof.
  intros Hpre. unfold readBigInt64LE.
  rewrite !length_app, Hpre.
  destruct (Z.ltb_spec (Z.of_nat (length x)) 0); [lia |].
  destruct (Z.ltb_spec (Z.of_nat (length x + (8 + length y)) - 8)
                       (Z.of_nat (length x))); [lia |].
  simpl orb. cbv iota.
  rewrite Nat2Z.id, drop_app_length.
  change (Z.to_nat 0) with 0%nat. rewrite drop_0.
  rewrite (take_app_length' pre y 8) by (symmetry; exact Hpre).
  rewrite (take_ge pre 8) by lia. reflexivity.
Qed.

(** Integers up to 2^53 are doubles. *)
Lemma round_double_exact z : Z.abs z <= 2 ^ 53 -> round_double z = z.
Proof.
  intros Hz. unfold round_double.
  destruct (Z.leb_spec (Z.abs z) (2 ^ 53)); [reflexivity | lia].
Qed.

Lemma js_add_exact a b : Z.abs (a + b) <= 2 ^ 53 -> js_add a b = a + b.
Proof. apply round_double_exact. Qed.

End BufferFacts.

(** ** Running the parser *)

Arguments subarray : simpl never.
Arguments subarray_from : simpl never.
Arguments indexOf : simpl never.
Arguments readBigInt64LE : simpl never.
Arguments js_add : simpl never.
Arguments Number_of_BigInt : simpl never.
Arguments CRC.generate : simpl never.
Arguments CRC.checksum_with : simpl never.
Arguments String.append : simpl never.

Ltac eff_unfold :=
  unfold mbind, mret, Eff_bind, Eff_ret, eff_bind, eff_ret, get_state,
         modify, emit, log, throw, out_of_fuel, try_catch in *.

(** The monad, run on a state. *)
Lemma run_get_state {A} (k : State -> Eff A) s :
  (s0 ← get_state; k s0) s = k s s.
Proof.
  eff_unfold. destruct (k s s) as [[r s2] t2]. reflexivity.
Qed.

Lemma run_bind_ok {A B} (m : Eff A) (f : A -> Eff B) s a s1 t1 :
  m s = (Ok a, s1, t1) ->
  (x ← m; f x) s = ((f a s1).1.1, (f a s1).1.2, t1 ++ (f a s1).2).
Proof.
  intros Hm. eff_unfold. rewrite Hm.
  destruct (f a s1) as [[r s2] t2]. reflexivity.
Qed.

Lemma run_bind_throw {A B} (m : Eff A) (f : A -> Eff B) s e s1 t1 :
  m s = (Throw e, s1, t1) -> (x ← m; f x) s = (Throw e, s1, t1).
Proof. intros Hm. eff_unfold. rewrite Hm. reflexivity. Qed.

Lemma run_bind_out_of_fuel {A B} (m : Eff A) (f : A -> Eff B) s s1 t1 :
  m s = (OutOfFuel, s1, t1) -> (x ← m; f x) s = (OutOfFuel, s1, t1).
Proof. intros Hm. eff_unfold. rewrite Hm. reflexivity. Qed.

Lemma triple_eta {A} (x : Res A * State * list Effect) : (x.1.1, x.1.2, x.2) = x.
Proof. destruct x as [[r s] t]. reflexivity. Qed.

Lemma is_str_stringable v str : is_str v str = true -> stringable v = true.
Proof. destruct v; simpl; try discriminate; reflexivity. Qed.

Section ParserFacts.

Context {E : Env}.

Import BufferFacts.

(** The text of a value that has one, and the error for one that has
    none. *)
Lemma to_string_ok v s :
  stringable v = true -> to_string v s = (Ok (ToString v), s, []).
Proof. intros Hv. unfold to_string. rewrite Hv. reflexivity. Qed.

Lemma to_string_throw v s :
  stringable v = false ->
  to_string v s = (Throw "Cannot convert object to primitive value", s, []).
Proof. intros Hv. unfold to_string. rewrite Hv. reflexivity. Qed.

Lemma run_to_string_ok {A} v (k : string -> Eff A) s :
  stringable v = true -> (text ← to_string v; k text) s = k (ToString v) s.
Proof.
  intros Hv. rewrite (run_bind_ok _ _ _ _ _ _ (to_string_ok v s Hv)).
  cbn [app]. apply triple_eta.
Qed.

Lemma run_to_string_throw {A} v (k : string -> Eff A) s :
  stringable v = false ->
  (text ← to_string v; k text) s
  = (Throw "Cannot convert object to primitive value", s, []).
Proof.
  intros Hv. apply run_bind_throw, to_string_throw, Hv.
Qed.

(** The state after the line at the head of the buffer was consumed. *)
Lemma consume_line_app (line rest : Buffer) s :
  buffer s = line ++ newline :: rest ->
  consume_line (Z.of_nat (length line)) s = (Ok tt, set_buffer rest s, []).
Proof.
  intros Hbuf. unfold consume_line. eff_unfold. rewrite Hbuf.
  replace (Z.of_nat (length line) + 1) with (Z.of_nat (length (line ++ [newline])))
    by (rewrite length_app; simpl; lia).
  replace (line ++ newline :: rest) with ((line ++ [newline]) ++ rest)
    by (rewrite <- app_assoc; reflexivity).
  rewrite subarray_from_suffix. reflexivity.
Qed.

(** No newline in the buffer: "need more data", and nothing happens. *)
Lemma parseMessage_no_newline s :
  newline ∉ buffer s -> parseMessage s = (Ok false, s, []).
Proof.
  intros Hnl. unfold parseMessage. eff_unfold.
  rewrite indexOf_absent by exact Hnl. reflexivity.
Qed.

Lemma parseMessage_head (line rest : Buffer) s :
  buffer s = line ++ newline :: rest ->
  newline ∉ line ->
  parseMessage s =
  match decodeJSON line with
  | inl message =>
      (onError ("Failed to parse JSON metadata: " +:+ message);;
       consume_line (Z.of_nat (length line));;
       mret true) s
  | inr metadata =>
      if nullish metadata then
        (Throw "Cannot read properties of null (reading 'type')", s, [])
      else
        (msgType ← to_string (prop metadata "type");
         log "parser" Debug ("Received message type: " +:+ msgType);;
         dispatch metadata (Z.of_nat (length line))) s
  end.
Proof.
  intros Hbuf Hnl. unfold parseMessage. rewrite run_get_state.
  cbv zeta. rewrite Hbuf.
  rewrite indexOf_first by exact Hnl.
  destruct (Z.eqb_spec (Z.of_nat (length line)) (-1)); [lia |].
  rewrite subarray_prefix.
  destruct (decodeJSON line) as [message | metadata]; [reflexivity |].
  destruct (nullish metadata); reflexivity.
Qed.

(** A line that does not decode: one error, that line consumed. *)
Lemma parseMessage_decode_error (line rest : Buffer) message s :
  buffer s = line ++ newline :: rest ->
  newline ∉ line ->
  decodeJSON line = inl message ->
  parseMessage s
  = (Ok true, set_buffer rest s,
     [OnError ("Failed to parse JSON metadata: " +:+ message)]).
Proof.
  intros Hbuf Hnl Hdec.
  rewrite (parseMessage_head line rest) by assumption. rewrite Hdec.
  unfold onError. eff_unfold.
  rewrite (consume_line_app line rest) by exact Hbuf. reflexivity.
Qed.


Lemma is_str_inv v str : is_str v str = true -> v = JStr str.
Proof.
  destruct v; simpl; try discriminate.
  intros Heq. apply String.eqb_eq in Heq. subst. reflexivity.
Qed.

Lemma is_str_not_nullish v k str : is_str (prop v k) str = true -> nullish v = false.
Proof. destruct v; simpl; try discriminate; reflexivity. Qed.

Lemma dispatch_snapshot metadata i :
  is_str (prop metadata "type") "snapshot" = true ->
  dispatch metadata i = parseSnapshot metadata i.
Proof.
  intros Htype. apply is_str_inv in Htype. unfold dispatch.
  rewrite Htype. reflexivity.
Qed.

Lemma parseSnapshot_inline metadata i :
  is_str (resolved_transport metadata) "file" = false ->
  is_str (resolved_transport metadata) "mmap" = false ->
  parseSnapshot metadata i = parseInline metadata i.
Proof.
  intros Hfile Hmmap. unfold parseSnapshot. cbv zeta.
  rewrite Hfile, Hmmap. reflexivity.
Qed.

(** A snapshot line at the head of the buffer hands over to
    [parseSnapshot], after one debug line. *)
Lemma parseMessage_snapshot (line rest : Buffer) metadata s :
  buffer s = line ++ newline :: rest ->
  newline ∉ line ->
  decodeJSON line = inr metadata ->
  is_str (prop metadata "type") "snapshot" = true ->
  parseMessage s
  = parseSnapshot metadata (Z.of_nat (length line)) (add_log (received_log metadata) s).
Proof.
  intros Hbuf Hnl Hdec Htype.
  rewrite (parseMessage_head line rest) by assumption.
  rewrite Hdec, (is_str_not_nullish _ _ _ Htype).
  rewrite run_to_string_ok by exact (is_str_stringable _ _ Htype).
  rewrite dispatch_snapshot by exact Htype.
  unfold log. eff_unfold. fold (received_log metadata).
  destruct (parseSnapshot _ _ _) as [[r s'] t]. reflexivity.
Qed.

(** Fewer than eight bytes after the line: "need more data". *)
Lemma parseInline_short_prefix (line part : Buffer) metadata s :
  buffer s = line ++ newline :: part ->
  (length part < 8)%nat ->
  parseInline metadata (Z.of_nat (length line)) s = (Ok false, s, []).
Proof.
  intros Hbuf Hshort. unfold parseInline. rewrite run_get_state. cbv zeta.
  rewrite Hbuf, length_app. cbn [length].
  destruct (Z.ltb_spec (Z.of_nat (length line + S (length part)))
                       (Z.of_nat (length line) + 1 + 8)); [reflexivity | lia].
Qed.

(** What the parser reads as the total size of a frame whose prefix
    holds the length of its payload. *)
Lemma total_size (line pre payload more : Buffer) :
  length pre = 8%nat ->
  readBigInt64LE pre 0 = Some (Z.of_nat (length payload)) ->
  Z.of_nat (length line) + 9 + Z.of_nat (length payload) <= 2 ^ 53 ->
  readBigInt64LE (line ++ newline :: pre ++ more) (Z.of_nat (length line) + 1)
  = Some (Z.of_nat (length payload))
  /\ js_add (Z.of_nat (length line) + 1 + 8)
            (Number_of_BigInt (Z.of_nat (length payload)))
     = Z.of_nat (length line) + 9 + Z.of_nat (length payload).
Proof.
  intros Hpre Hlen Hsize. split.
  - replace (Z.of_nat (length line) + 1)
      with (Z.of_nat (length (line ++ [newline])))
      by (rewrite length_app; simpl; lia).
    replace (line ++ newline :: pre ++ more)
      with ((line ++ [newline]) ++ pre ++ more)
      by (rewrite <- app_assoc; reflexivity).
    rewrite readBigInt64LE_at by exact Hpre. exact Hlen.
  - unfold Number_of_BigInt.
    rewrite round_double_exact by lia.
    rewrite js_add_exact by lia. lia.
Qed.

(** The prefix is there but the payload is not: "need more data". *)
Lemma parseInline_short_payload (line pre payload part : Buffer) metadata s :
  buffer s = line ++ newline :: pre ++ part ->
  length pre = 8%nat ->
  readBigInt64LE pre 0 = Some (Z.of_nat (length payload)) ->
  Z.of_nat (length line) + 9 + Z.of_nat (length payload) <= 2 ^ 53 ->
  (length part < length payload)%nat ->
  parseInline metadata (Z.of_nat (length line)) s = (Ok false, s, []).
Proof.
  intros Hbuf Hpre Hlen Hsize Hshort.
  destruct (total_size line pre payload part Hpre Hlen Hsize) as [Hread Htotal].
  unfold parseInline. rewrite run_get_state. cbv zeta.
  rewrite Hbuf, Hread, Htotal.
  rewrite length_app. cbn [length]. rewrite length_app, Hpre.
  destruct (Z.ltb_spec (Z.of_nat (length line + S (8 + length part)))
                       (Z.of_nat (length line) + 1 + 8)); [lia |].
  destruct (Z.ltb_spec (Z.of_nat (length line + S (8 + length part)))
                       (Z.of_nat (length line) + 9 + Z.of_nat (length payload)));
    [reflexivity | lia].
Qed.

(** The whole frame is there: it is taken off the buffer at once, and
    the checksum decides between an error and the delivery. *)
Lemma parseInline_complete (line pre payload rest : Buffer) metadata s :
  buffer s = line ++ newline :: pre ++ payload ++ rest ->
  length pre = 8%nat ->
  readBigInt64LE pre 0 = Some (Z.of_nat (length payload)) ->
  Z.of_nat (length line) + 9 + Z.of_nat (length payload) <= 2 ^ 53 ->
  parseInline metadata (Z.of_nat (length line)) s
  = (if is_defined (prop metadata "checksum") then
       calculatedChecksum ← calculateCRC32 payload;
       if negb (is_int (prop metadata "checksum") calculatedChecksum) then
         expected ← to_string (prop metadata "checksum");
         onError ("Checksum mismatch: expected " +:+ expected +:+ ", got "
                  +:+ ToString (JNum (Integral calculatedChecksum)));;
         mret true
       else acknowledge_and_deliver metadata payload;; mret true
     else acknowledge_and_deliver metadata payload;; mret true)
      (set_buffer rest s).
Proof.
  intros Hbuf Hpre Hlen Hsize.
  destruct (total_size line pre payload (payload ++ rest) Hpre Hlen Hsize)
    as [Hread Htotal].
  unfold parseInline. rewrite run_get_state. cbv zeta.
  rewrite Hbuf, Hread, Htotal.
  assert (Hlength : Z.of_nat (length (line ++ newline :: pre ++ payload ++ rest))
                    = Z.of_nat (length line) + 9 + Z.of_nat (length payload)
                      + Z.of_nat (length rest)).
  { rewrite length_app. cbn [length]. rewrite !length_app, Hpre. lia. }
  rewrite Hlength.
  destruct (Z.ltb_spec (Z.of_nat (length line) + 9 + Z.of_nat (length payload)
                        + Z.of_nat (length rest))
                       (Z.of_nat (length line) + 1 + 8)); [lia |].
  destruct (Z.ltb_spec (Z.of_nat (length line) + 9 + Z.of_nat (length payload)
                        + Z.of_nat (length rest))
                       (Z.of_nat (length line) + 9 + Z.of_nat (length payload)));
    [lia |].
  assert (Hdata : subarray (line ++ newline :: pre ++ payload ++ rest)
                           (Z.of_nat (length line) + 1 + 8)
                           (Z.of_nat (length line) + 9 + Z.of_nat (length payload))
                  = payload).
  { replace (line ++ newline :: pre ++ payload ++ rest)
      with ((line ++ newline :: pre) ++ payload ++ rest)
      by (rewrite <- app_assoc; reflexivity).
    replace (Z.of_nat (length line) + 1 + 8)
      with (Z.of_nat (length (line ++ newline :: pre)))
      by (rewrite length_app; cbn [length]; lia).
    replace (Z.of_nat (length line) + 9 + Z.of_nat (length payload))
      with (Z.of_nat (length (line ++ newline :: pre)) + Z.of_nat (length payload))
      by (rewrite length_app; cbn [length]; lia).
    apply subarray_middle. }
  assert (Hrest : subarray_from (line ++ newline :: pre ++ payload ++ rest)
                                (Z.of_nat (length line) + 9 + Z.of_nat (length payload))
                  = rest).
  { replace (line ++ newline :: pre ++ payload ++ rest)
      with ((line ++ newline :: pre ++ payload) ++ rest)
      by (rewrite <- !app_assoc; cbn [app]; rewrite <- !app_assoc; reflexivity).
    replace (Z.of_nat (length line) + 9 + Z.of_nat (length payload))
      with (Z.of_nat (length (line ++ newline :: pre ++ payload)))
      by (rewrite length_app; cbn [length]; rewrite length_app; lia).
    apply subarray_from_suffix. }
  rewrite Hdata, Hrest.
  eff_unfold.
  destruct (_ (set_buffer rest s)) as [[r s'] t]. reflexivity.
Qed.


Lemma table_ok_set_buffer b s : table_ok s -> table_ok (set_buffer b s).
Proof. intros Hs. exact Hs. Qed.

Lemma table_ok_add_log l s : table_ok s -> table_ok (add_log l s).
Proof. intros Hs. exact Hs. Qed.

Lemma table_ok_generated s : table_ok (set_crc32Table (Some CRC.generate) s).
Proof. right. reflexivity. Qed.

(** The table is generated when there is none and reused when there is
    one. *)
Lemma getCRC32Table_first s :
  crc32Table s = None ->
  getCRC32Table s = (Ok CRC.generate, set_crc32Table (Some CRC.generate) s, []).
Proof.
  intros Hnone. unfold getCRC32Table. rewrite run_get_state, Hnone. reflexivity.
Qed.

Lemma getCRC32Table_cached s table :
  crc32Table s = Some table -> getCRC32Table s = (Ok table, s, []).
Proof.
  intros Hsome. unfold getCRC32Table. rewrite run_get_state, Hsome. reflexivity.
Qed.

Lemma set_crc32Table_same s table :
  crc32Table s = Some table -> set_crc32Table (Some table) s = s.
Proof. destruct s. simpl. intros ->. reflexivity. Qed.

Lemma calculateCRC32_run data s :
  table_ok s ->
  calculateCRC32 data s
  = (Ok (CRC.reference data), set_crc32Table (Some CRC.generate) s, []).
Proof.
  intros [Hnone | Hsome]; unfold calculateCRC32.
  - rewrite (run_bind_ok _ _ _ _ _ _ (getCRC32Table_first s Hnone)).
    simpl. rewrite CRCFacts.checksum_with_generate. reflexivity.
  - rewrite (run_bind_ok _ _ _ _ _ _ (getCRC32Table_cached s _ Hsome)).
    simpl. rewrite CRCFacts.checksum_with_generate.
    rewrite set_crc32Table_same by exact Hsome. reflexivity.
Qed.

Lemma sendAck_run sequenceNumber s :
  stringable sequenceNumber = true ->
  sendAck sequenceNumber s
  = (Ok tt, add_log (ack_log sequenceNumber) s,
     [Stdout (Ack sequenceNumber "processed")]).
Proof.
  intros Hseq. unfold sendAck, to_string. rewrite Hseq. reflexivity.
Qed.

(** A sequence number without a text is acknowledged, and no more. *)
Lemma sendAck_throw sequenceNumber s :
  stringable sequenceNumber = false ->
  sendAck sequenceNumber s
  = (Throw "Cannot convert object to primitive value", s,
     [Stdout (Ack sequenceNumber "processed")]).
Proof.
  intros Hseq. unfold sendAck, to_string. rewrite Hseq. reflexivity.
Qed.

Lemma session_callback_run e sessionId s :
  stringable sessionId = true -> session_callback e sessionId s = (Ok tt, s, [e]).
Proof.
  intros Hid. unfold session_callback, to_string. rewrite Hid. reflexivity.
Qed.

Lemma session_callback_throw e sessionId s :
  stringable sessionId = false ->
  session_callback e sessionId s
  = (Throw "Cannot convert object to primitive value", s, [e]).
Proof.
  intros Hid. unfold session_callback, to_string. rewrite Hid. reflexivity.
Qed.

Lemma acknowledge_and_deliver_run metadata data s :
  stringable (prop metadata "sequenceNumber") = true ->
  stringable (prop metadata "sessionId") = true ->
  acknowledge_and_deliver metadata data s
  = (Ok tt, add_log (ack_log (prop metadata "sequenceNumber")) s,
     [Stdout (Ack (prop metadata "sequenceNumber") "processed");
      OnSnapshot metadata data]).
Proof.
  intros Hseq Hid. unfold acknowledge_and_deliver.
  rewrite (run_bind_ok _ _ _ _ _ _ (sendAck_run _ s Hseq)).
  rewrite session_callback_run by exact Hid. reflexivity.
Qed.

Lemma acknowledged_and_delivered metadata data s :
  stringable (prop metadata "sequenceNumber") = true ->
  stringable (prop metadata "sessionId") = true ->
  (acknowledge_and_deliver metadata data;; mret true) s
  = (Ok true, add_log (ack_log (prop metadata "sequenceNumber")) s,
     [Stdout (Ack (prop metadata "sequenceNumber") "processed");
      OnSnapshot metadata data]).
Proof.
  intros Hseq Hid.
  rewrite (run_bind_ok _ _ _ _ _ _ (acknowledge_and_deliver_run _ data s Hseq Hid)).
  reflexivity.
Qed.

(** A complete inline frame with no checksum, or with the right one: it
    is consumed, acknowledged and delivered, in this order. *)
Lemma parseMessage_inline_valid (line pre payload rest : Buffer) metadata s :
  InlineFrame line pre payload metadata ->
  checksum_ok metadata payload = true ->
  table_ok s ->
  buffer s = frame_bytes line pre payload ++ rest ->
  exists s',
    parseMessage s
    = (Ok true, s',
       [Stdout (Ack (prop metadata "sequenceNumber") "processed");
        OnSnapshot metadata payload])
    /\ buffer s' = rest /\ table_ok s'
    /\ handshakeComplete s' = handshakeComplete s.
Proof.
  intros [Hnl Hdec Htype Hfile Hmmap Hpre Hlen Hsize Hseq Hid] Hsum Htable Hbuf.
  unfold frame_bytes in Hbuf. rewrite <- app_assoc in Hbuf. cbn [app] in Hbuf.
  rewrite <- app_assoc in Hbuf.
  apply index_from_absent_inv in Hnl; [| lia].
  rewrite (parseMessage_snapshot line (pre ++ payload ++ rest) metadata) by assumption.
  rewrite parseSnapshot_inline by assumption.
  rewrite (parseInline_complete line pre payload rest) by assumption.
  unfold checksum_ok in Hsum.
  destruct (is_defined (prop metadata "checksum")) eqn:Hdef.
  - simpl in Hsum.
    rewrite (run_bind_ok _ _ _ _ _ _
               (calculateCRC32_run payload
                  (set_buffer rest (add_log (received_log metadata) s)) Htable)).
    rewrite Hsum. cbn [negb].
    rewrite acknowledged_and_delivered by assumption. cbn [fst snd app].
    eexists. split; [reflexivity |].
    split; [reflexivity |]. split; [right; reflexivity | reflexivity].
  - rewrite acknowledged_and_delivered by assumption.
    eexists. split; [reflexivity |].
    split; [reflexivity |]. split; [exact Htable | reflexivity].
Qed.




Lemma set_buffer_same s b : buffer s = b -> set_buffer b s = s.
Proof. destruct s. simpl. intros ->. reflexivity. Qed.

Lemma forget_add_log l s : forget_log (add_log l s) = forget_log s.
Proof. reflexivity. Qed.

(** While the frame is incomplete, "need more data": not a byte is
    consumed and nothing is done but a debug line. *)
Lemma parseMessage_incomplete (line pre payload part more : Buffer) metadata s :
  InlineFrame line pre payload metadata ->
  part ++ more = frame_bytes line pre payload ->
  more <> [] ->
  buffer s = part ->
  exists s', parseMessage s = (Ok false, s', []) /\ forget_log s' = forget_log s.
Proof.
  intros [Hnl Hdec Htype Hfile Hmmap Hpre Hlen Hsize _ _] Hsplit Hmore Hbuf.
  apply index_from_absent_inv in Hnl; [| lia].
  assert (Hpart : part = take (length part) (frame_bytes line pre payload)).
  { rewrite <- Hsplit, take_app_length. reflexivity. }
  assert (Hshort : (length part < length (frame_bytes line pre payload))%nat).
  { rewrite <- Hsplit, length_app. destruct more; [congruence | simpl; lia]. }
  unfold frame_bytes in Hpart, Hshort. cbn [app] in Hpart, Hshort.
  rewrite length_app in Hshort. cbn [length] in Hshort.
  rewrite length_app, Hpre in Hshort.
  destruct (Nat.le_gt_cases (length part) (length line)) as [Hin | Hout].
  - (* the line is not complete *)
    exists s. split; [| reflexivity].
    apply parseMessage_no_newline. rewrite Hbuf, Hpart.
    rewrite take_app_le by exact Hin.
    intros Helem. apply Hnl.
    apply (subseteq_take (length part) line). exact Helem.
  - (* the line is there *)
    rewrite take_app_ge in Hpart by lia.
    destruct (length part - length line)%nat as [| k] eqn:Hk; [lia |].
    cbn [take] in Hpart.
    exists (add_log (received_log metadata) s). split; [| reflexivity].
    rewrite (parseMessage_snapshot line (take k (pre ++ payload)) metadata);
      [| rewrite Hbuf; exact Hpart | assumption ..].
    rewrite parseSnapshot_inline by assumption.
    destruct (Nat.lt_ge_cases k 8) as [Hk8 | Hk8].
    + apply (parseInline_short_prefix line (take k (pre ++ payload))).
      * simpl. rewrite Hbuf. exact Hpart.
      * rewrite length_take. lia.
    + rewrite take_app_ge in Hpart by lia. rewrite Hpre in Hpart.
      apply (parseInline_short_payload line pre payload (take (k - 8) payload));
        try assumption.
      * simpl. rewrite Hbuf. exact Hpart.
      * rewrite length_take. lia.
Qed.

(** The loop, one iteration at a time. *)
Lemma processLoop_stop fuel s s' :
  parseMessage s = (Ok false, s', []) ->
  processLoop (S fuel) s = (Ok tt, s', []).
Proof.
  intros Hparse. cbn [processLoop].
  rewrite (run_bind_ok _ _ _ _ _ _ Hparse). reflexivity.
Qed.

Lemma processLoop_again fuel s s' t :
  parseMessage s = (Ok true, s', t) ->
  processLoop (S fuel) s
  = ((processLoop fuel s').1.1, (processLoop fuel s').1.2,
     t ++ (processLoop fuel s').2).
Proof.
  intros Hparse. cbn [processLoop].
  rewrite (run_bind_ok _ _ _ _ _ _ Hparse). reflexivity.
Qed.

Lemma processLoop_throw fuel s s' t e :
  parseMessage s = (Throw e, s', t) ->
  processLoop (S fuel) s = (Throw e, s', t).
Proof.
  intros Hparse. cbn [processLoop].
  rewrite (run_bind_throw _ _ _ _ _ _ Hparse). reflexivity.
Qed.

Lemma processData_run fuel data s :
  processData fuel data s = processLoop fuel (set_buffer (buffer s ++ data) s).
Proof.
  unfold processData. eff_unfold.
  destruct (processLoop fuel _) as [[r s'] t]. reflexivity.
Qed.

Lemma feed_cons fuel chunk rest s s1 t1 :
  processData fuel chunk s = (Ok tt, s1, t1) ->
  feed fuel (chunk :: rest) s
  = ((feed fuel rest s1).1.1, (feed fuel rest s1).1.2, t1 ++ (feed fuel rest s1).2).
Proof.
  intros Hrun. cbn [feed].
  rewrite (run_bind_ok _ _ _ _ _ _ Hrun). reflexivity.
Qed.

(** Empty chunks on an empty buffer do nothing. *)
Lemma feed_nothing fuel chunks s :
  buffer s = [] -> concat chunks = [] -> feed (S fuel) chunks s = (Ok tt, s, []).
Proof.
  revert s. induction chunks as [| chunk chunks IH]; intros s Hbuf Hcat.
  - reflexivity.
  - simpl in Hcat. apply app_eq_nil in Hcat as [-> Hcat].
    assert (Hrun : processData (S fuel) [] s = (Ok tt, s, [])).
    { rewrite processData_run, Hbuf. simpl app.
      rewrite (set_buffer_same s []) by exact Hbuf.
      apply processLoop_stop, parseMessage_no_newline.
      rewrite Hbuf. apply not_elem_of_nil. }
    rewrite (feed_cons _ _ _ _ _ _ Hrun), (IH s Hbuf Hcat). reflexivity.
Qed.

(** However the bytes of a valid frame are cut into chunks, feeding them
    acknowledges once and delivers once. *)
Lemma feed_frame (line pre payload : Buffer) metadata fuel chunks s :
  InlineFrame line pre payload metadata ->
  checksum_ok metadata payload = true ->
  table_ok s ->
  buffer s ++ concat chunks = frame_bytes line pre payload ->
  concat chunks <> [] ->
  exists s',
    feed (S (S fuel)) chunks s
    = (Ok tt, s',
       [Stdout (Ack (prop metadata "sequenceNumber") "processed");
        OnSnapshot metadata payload])
    /\ buffer s' = [] /\ table_ok s'
    /\ handshakeComplete s' = handshakeComplete s.
Proof.
  intros Hframe Hsum. revert s.
  induction chunks as [| chunk chunks IH]; intros s Htable Hsplit Hmore.
  - simpl in Hmore. congruence.
  - simpl in Hsplit, Hmore. rewrite app_assoc in Hsplit.
    destruct (concat chunks) as [| b tail] eqn:Hcat.
    + (* this chunk completes the frame *)
      rewrite app_nil_r in Hsplit.
      destruct (parseMessage_inline_valid line pre payload [] metadata
                  (set_buffer (buffer s ++ chunk) s) Hframe Hsum Htable)
        as (s1 & Hparse & Hbuf1 & Htable1 & Hready1).
      { simpl. rewrite app_nil_r. exact Hsplit. }
      assert (Hrun : processData (S (S fuel)) chunk s
                     = (Ok tt, s1,
                        [Stdout (Ack (prop metadata "sequenceNumber") "processed");
                         OnSnapshot metadata payload])).
      { rewrite processData_run, (processLoop_again _ _ _ _ Hparse).
        rewrite (processLoop_stop fuel s1 s1).
        - reflexivity.
        - apply parseMessage_no_newline. rewrite Hbuf1. apply not_elem_of_nil. }
      rewrite (feed_cons _ _ _ _ _ _ Hrun).
      rewrite (feed_nothing _ chunks s1 Hbuf1 Hcat).
      exists s1. simpl. auto.
    + (* the frame is still incomplete after this chunk *)
      destruct (parseMessage_incomplete line pre payload (buffer s ++ chunk)
                  (b :: tail) metadata (set_buffer (buffer s ++ chunk) s) Hframe)
        as (s1 & Hparse & Hsame); [exact Hsplit | discriminate | reflexivity |].
      assert (Hrun : processData (S (S fuel)) chunk s = (Ok tt, s1, [])).
      { rewrite processData_run. apply processLoop_stop. exact Hparse. }
      assert (Hbuf1 : buffer s1 = buffer s ++ chunk).
      { apply (f_equal buffer) in Hsame. exact Hsame. }
      assert (Htable1 : table_ok s1).
      { apply (f_equal crc32Table) in Hsame. unfold table_ok in *.
        simpl in Hsame. rewrite Hsame. exact Htable. }
      assert (Hready1 : handshakeComplete s1 = handshakeComplete s).
      { apply (f_equal handshakeComplete) in Hsame. exact Hsame. }
      destruct (IH s1 Htable1) as (s' & Hfeed & Hbuf' & Htable' & Hready').
      { rewrite Hbuf1. exact Hsplit. }
      { discriminate. }
      rewrite (feed_cons _ _ _ _ _ _ Hrun), Hfeed.
      exists s'. simpl. rewrite Hready', Hready1. auto.
Qed.


Lemma step_run a s :
  step a s
  = parseMessage (match a with
                  | AppendAndParse chunk => set_buffer (buffer s ++ chunk) s
                  | ParseAgain => s
                  end).
Proof.
  destruct a as [chunk |]; [| reflexivity].
  unfold step. eff_unfold.
  destruct (parseMessage _) as [[r s'] t]. reflexivity.
Qed.

Lemma steps_cons a acts s b s1 t1 :
  step a s = (Ok b, s1, t1) ->
  steps (a :: acts) s
  = ((steps acts s1).1.1, (steps acts s1).1.2, t1 ++ (steps acts s1).2).
Proof.
  intros Hstep. cbn [steps].
  rewrite (run_bind_ok _ _ _ _ _ _ Hstep). reflexivity.
Qed.

(** Attempts on an empty buffer to which nothing is appended do nothing. *)
Lemma steps_nothing acts s :
  buffer s = [] -> appended acts = [] -> steps acts s = (Ok tt, s, []).
Proof.
  revert s. induction acts as [| a acts IH]; intros s Hbuf Hnone.
  - reflexivity.
  - assert (Hstep : step a s = (Ok false, s, [])).
    { rewrite step_run. destruct a as [chunk |].
      - simpl in Hnone. apply app_eq_nil in Hnone as [-> _].
        rewrite app_nil_r, (set_buffer_same s (buffer s)) by reflexivity.
        apply parseMessage_no_newline. rewrite Hbuf. apply not_elem_of_nil.
      - apply parseMessage_no_newline. rewrite Hbuf. apply not_elem_of_nil. }
    assert (Hrest : appended acts = []).
    { destruct a as [chunk |]; simpl in Hnone; [| exact Hnone].
      apply app_eq_nil in Hnone as [_ Hnone]. exact Hnone. }
    rewrite (steps_cons _ _ _ _ _ _ Hstep), (IH s Hbuf Hrest). reflexivity.
Qed.

(** The bytes of a valid frame, appended by any number of calls whose
    parse attempts interleave in any way: one acknowledgement and one
    delivery. *)
Lemma steps_frame (line pre payload : Buffer) metadata acts s :
  InlineFrame line pre payload metadata ->
  checksum_ok metadata payload = true ->
  table_ok s ->
  buffer s ++ appended acts = frame_bytes line pre payload ->
  appended acts <> [] ->
  exists s',
    steps acts s
    = (Ok tt, s',
       [Stdout (Ack (prop metadata "sequenceNumber") "processed");
        OnSnapshot metadata payload])
    /\ buffer s' = [].
Proof.
  intros Hframe Hsum. revert s.
  induction acts as [| a acts IH]; intros s Htable Hsplit Hmore.
  - simpl in Hmore. congruence.
  - destruct a as [chunk |].
    + (* a call appends its chunk and tries *)
      cbn [appended] in Hsplit, Hmore. rewrite app_assoc in Hsplit.
      destruct (appended acts) as [| b tail] eqn:Hrest.
      * rewrite app_nil_r in Hsplit.
        destruct (parseMessage_inline_valid line pre payload [] metadata
                    (set_buffer (buffer s ++ chunk) s) Hframe Hsum Htable)
          as (s1 & Hparse & Hbuf1 & _ & _).
        { simpl. rewrite app_nil_r. exact Hsplit. }
        assert (Hstep : step (AppendAndParse chunk) s
                        = (Ok true, s1,
                           [Stdout (Ack (prop metadata "sequenceNumber") "processed");
                            OnSnapshot metadata payload])).
        { rewrite step_run. exact Hparse. }
        rewrite (steps_cons _ _ _ _ _ _ Hstep).
        rewrite (steps_nothing acts s1 Hbuf1 Hrest).
        exists s1. split; [reflexivity | exact Hbuf1].
      * destruct (parseMessage_incomplete line pre payload (buffer s ++ chunk)
                    (b :: tail) metadata (set_buffer (buffer s ++ chunk) s) Hframe)
          as (s1 & Hparse & Hsame); [exact Hsplit | discriminate | reflexivity |].
        assert (Hstep : step (AppendAndParse chunk) s = (Ok false, s1, [])).
        { rewrite step_run. exact Hparse. }
        assert (Hbuf1 : buffer s1 = buffer s ++ chunk).
        { apply (f_equal buffer) in Hsame. exact Hsame. }
        assert (Htable1 : table_ok s1).
        { apply (f_equal crc32Table) in Hsame. unfold table_ok in *.
          simpl in Hsame. rewrite Hsame. exact Htable. }
        destruct (IH s1 Htable1) as (s' & Hsteps & Hbuf').
        { rewrite Hbuf1. exact Hsplit. }
        { discriminate. }
        rewrite (steps_cons _ _ _ _ _ _ Hstep), Hsteps.
        exists s'. split; [reflexivity | exact Hbuf'].
    + (* a pending call tries again: the frame is still incomplete *)
      cbn [appended] in Hsplit, Hmore.
      destruct (parseMessage_incomplete line pre payload (buffer s)
                  (appended acts) metadata s Hframe)
        as (s1 & Hparse & Hsame); [exact Hsplit | exact Hmore | reflexivity |].
      assert (Hstep : step ParseAgain s = (Ok false, s1, [])).
      { rewrite step_run. exact Hparse. }
      assert (Hbuf1 : buffer s1 = buffer s).
      { apply (f_equal buffer) in Hsame. exact Hsame. }
      assert (Htable1 : table_ok s1).
      { apply (f_equal crc32Table) in Hsame. unfold table_ok in *.
        simpl in Hsame. rewrite Hsame. exact Htable. }
      destruct (IH s1 Htable1) as (s' & Hsteps & Hbuf').
      { rewrite Hbuf1. exact Hsplit. }
      { exact Hmore. }
      rewrite (steps_cons _ _ _ _ _ _ Hstep), Hsteps.
      exists s'. split; [reflexivity | exact Hbuf'].
Qed.

End ParserFacts.

(** ** Snapshots by file and by shared memory *)

Section TransportFacts.

Context {E : Env}.

Import BufferFacts.












End TransportFacts.

(** ** Lines that are whole messages *)

Section LineFacts.

Context {E : Env}.

Import BufferFacts.

Lemma dispatch_initialized metadata i s :
  is_str (prop metadata "type") "initialized" = true ->
  dispatch metadata i s
  = ((consume_line i;;
      modify (set_handshakeComplete true);;
      log "parser" Info "Handshake complete";;
      emit OnInitialized;;
      mret true) : Eff bool) s.
Proof.
  intros Htype. apply is_str_inv in Htype. unfold dispatch.
  rewrite Htype. reflexivity.
Qed.

(** An [initialized] line: the flag is set and the callback invoked, in
    whatever state the handshake is. *)
Lemma parseMessage_initialized (line rest : Buffer) metadata s :
  buffer s = line ++ newline :: rest ->
  newline ∉ line ->
  decodeJSON line = inr metadata ->
  is_str (prop metadata "type") "initialized" = true ->
  parseMessage s
  = (Ok true,
     add_log handshake_log
       (set_handshakeComplete true
          (set_buffer rest (add_log (received_log metadata) s))),
     [OnInitialized]).
Proof.
  intros Hbuf Hnl Hdec Htype.
  rewrite (parseMessage_head line rest) by assumption.
  rewrite Hdec, (is_str_not_nullish _ _ _ Htype).
  rewrite run_to_string_ok by exact (is_str_stringable _ _ Htype).
  unfold log at 1.
  unfold mbind at 1, Eff_bind at 1, eff_bind at 1, modify at 1. cbv beta iota.
  rewrite dispatch_initialized by exact Htype.
  assert (Hconsume : consume_line (Z.of_nat (length line))
                       (add_log (received_log metadata) s)
                     = (Ok tt, set_buffer rest (add_log (received_log metadata) s), [])).
  { apply consume_line_app. exact Hbuf. }
  fold (received_log metadata).
  rewrite (run_bind_ok _ _ _ _ _ _ Hconsume). reflexivity.
Qed.

Lemma stream_cons line lines : stream (line :: lines) = line ++ newline :: stream lines.
Proof. unfold stream. simpl. rewrite <- app_assoc. reflexivity. Qed.


Lemma dispatch_command metadata i s :
  is_str (prop metadata "type") "command" = true ->
  dispatch metadata i s
  = ((consume_line i;; handleCommand metadata;; mret true) : Eff bool) s.
Proof.
  intros Htype. apply is_str_inv in Htype. unfold dispatch.
  rewrite Htype. reflexivity.
Qed.

(** A command without an id, or with a falsy one: a warning and no
    response. *)
Lemma handleCommand_dropped metadata s :
  truthy (prop metadata "commandId") = false ->
  handleCommand metadata s
  = (Ok tt, add_log (mkLog "command" Warn "Received command without commandId") s, []).
Proof.
  intros Hid. unfold handleCommand. cbv zeta. rewrite Hid. reflexivity.
Qed.

(** A command with a truthy id and a type other than [get_version]: one
    response, a failure that names the type. *)
Lemma handleCommand_unknown metadata s :
  truthy (prop metadata "commandId") = true ->
  is_str (prop metadata "commandType") "get_version" = false ->
  stringable (prop metadata "commandType") = true ->
  stringable (prop metadata "commandId") = true ->
  exists s',
    handleCommand metadata s
    = (Ok tt, s',
       [Stdout (CommandResult (prop metadata "commandId") false None
                  (Some (JStr ("Unknown command type: "
                               +:+ ToString (prop metadata "commandType")))))])
    /\ In (mkLog "command" Warn
             ("Unknown command type: " +:+ ToString (prop metadata "commandType")))
          (logged s').
Proof.
  intros Hid Htype Htext Hidtext. unfold handleCommand, sendCommandResult, to_string.
  cbv zeta. rewrite Hid, Htype, Htext, Hidtext.
  eexists. split; [reflexivity |].
  simpl. rewrite !in_app_iff. simpl. tauto.
Qed.

(** A command with a truthy id, when the id or the type has no text: the
    handler throws before it looks at the type, and writes nothing. *)
Lemma handleCommand_throws metadata s :
  truthy (prop metadata "commandId") = true ->
  stringable (prop metadata "commandType")
  && stringable (prop metadata "commandId") = false ->
  handleCommand metadata s
  = (Throw "Cannot convert object to primitive value", s, []).
Proof.
  intros Hid Htext. unfold handleCommand, to_string. cbv zeta. rewrite Hid.
  destruct (stringable (prop metadata "commandType")); [| reflexivity].
  simpl in Htext. rewrite Htext. reflexivity.
Qed.

(** A recognized command. *)
Lemma handleCommand_get_version metadata s :
  truthy (prop metadata "commandId") = true ->
  is_str (prop metadata "commandType") "get_version" = true ->
  stringable (prop metadata "commandId") = true ->
  exists s',
    handleCommand metadata s
    = (Ok tt, s',
       [Stdout (CommandResult (prop metadata "commandId") true
                  (Some (JObj [("version", packageVersion)])) None)]).
Proof.
  intros Hid Htype Hidtext. unfold handleCommand, sendCommandResult, to_string.
  cbv zeta.
  rewrite Hid, Htype, Hidtext, (is_str_stringable _ _ Htype).
  eexists. reflexivity.
Qed.

(** The handler returns when the texts it writes are there. *)
Lemma handleCommand_returns metadata s :
  negb (truthy (prop metadata "commandId"))
  || (stringable (prop metadata "commandType")
      && stringable (prop metadata "commandId")) = true ->
  (handleCommand metadata s).1.1 = Ok tt.
Proof.
  intros Htexts.
  destruct (truthy (prop metadata "commandId")) eqn:Hid.
  - simpl in Htexts. apply andb_true_iff in Htexts as [Htype Hidtext].
    destruct (is_str (prop metadata "commandType") "get_version") eqn:Hversion.
    + destruct (handleCommand_get_version metadata s Hid Hversion Hidtext)
        as (s' & ->). reflexivity.
    + destruct (handleCommand_unknown metadata s Hid Hversion Htype Hidtext)
        as (s' & -> & _). reflexivity.
  - rewrite handleCommand_dropped by exact Hid. reflexivity.
Qed.

(** A command line: the line is consumed and the handler runs. *)
Lemma parseMessage_command (line rest : Buffer) metadata s :
  buffer s = line ++ newline :: rest ->
  newline ∉ line ->
  decodeJSON line = inr metadata ->
  is_str (prop metadata "type") "command" = true ->
  negb (truthy (prop metadata "commandId"))
  || (stringable (prop metadata "commandType")
      && stringable (prop metadata "commandId")) = true ->
  parseMessage s
  = (Ok true,
     (handleCommand metadata
        (set_buffer rest (add_log (received_log metadata) s))).1.2,
     (handleCommand metadata
        (set_buffer rest (add_log (received_log metadata) s))).2).
Proof.
  intros Hbuf Hnl Hdec Htype Htexts.
  rewrite (parseMessage_head line rest) by assumption.
  rewrite Hdec, (is_str_not_nullish _ _ _ Htype).
  rewrite run_to_string_ok by exact (is_str_stringable _ _ Htype).
  unfold log at 1.
  unfold mbind at 1, Eff_bind at 1, eff_bind at 1, modify at 1. cbv beta iota.
  rewrite dispatch_command by exact Htype.
  assert (Hconsume : consume_line (Z.of_nat (length line))
                       (add_log (received_log metadata) s)
                     = (Ok tt, set_buffer rest (add_log (received_log metadata) s), [])).
  { apply consume_line_app. exact Hbuf. }
  fold (received_log metadata).
  rewrite (run_bind_ok _ _ _ _ _ _ Hconsume). cbn [fst snd app].
  set (s0 := set_buffer rest (add_log (received_log metadata) s)).
  pose proof (handleCommand_returns metadata s0 Htexts) as Hok.
  eff_unfold.
  destruct (handleCommand metadata s0) as [[r s1] t1]. simpl in Hok. subst r.
  simpl. rewrite app_nil_r. reflexivity.
Qed.

End LineFacts.

(** ** Properties of the state that every operation keeps *)

Create HintDb preserve.

Section Preservation.

Context {E : Env}.

Variable P : State -> Prop.

Hypothesis P_set_buffer : forall b s, P s -> P (set_buffer b s).
Hypothesis P_set_started : forall v s, P s -> P (set_started v s).
Hypothesis P_set_handshakeComplete : forall s, P s -> P (set_handshakeComplete true s).
Hypothesis P_set_crc32Table : forall s, P s -> P (set_crc32Table (Some CRC.generate) s).
Hypothesis P_set_packageInfo : forall p s, P s -> P (set_packageInfo p s).
Hypothesis P_set_windowsInit : forall e s, P s -> P (set_windowsInit e s).
Hypothesis P_add_log : forall l s, P s -> P (add_log l s).

Lemma preserves_ret {A} (a : A) : preserves P (mret a).
Proof. intros s Hs. exact Hs. Qed.

Lemma preserves_throw {A} e : preserves P (throw e : Eff A).
Proof. intros s Hs. exact Hs. Qed.

Lemma preserves_out_of_fuel {A} : preserves P (out_of_fuel : Eff A).
Proof. intros s Hs. exact Hs. Qed.

Lemma preserves_emit e : preserves P (emit e).
Proof. intros s Hs. exact Hs. Qed.

Lemma preserves_get_state : preserves P get_state.
Proof. intros s Hs. exact Hs. Qed.

Lemma preserves_modify f : (forall s, P s -> P (f s)) -> preserves P (modify f).
Proof. intros Hf s Hs. apply Hf, Hs. Qed.

Lemma preserves_log scope level text : preserves P (log scope level text).
Proof. apply preserves_modify. intros s. apply P_add_log. Qed.

Lemma preserves_bind {A B} (m : Eff A) (f : A -> Eff B) :
  preserves P m -> (forall a, preserves P (f a)) -> preserves P (m ≫= f).
Proof.
  intros Hm Hf s Hs. specialize (Hm s Hs).
  unfold mbind, Eff_bind, eff_bind.
  destruct (m s) as [[[a | e |] s1] t1]; simpl in *; try exact Hm.
  specialize (Hf a s1 Hm).
  destruct (f a s1) as [[r s2] t2]. exact Hf.
Qed.

Lemma preserves_try_catch {A} (m : Eff A) handler :
  preserves P m -> (forall e, preserves P (handler e)) ->
  preserves P (try_catch m handler).
Proof.
  intros Hm Hh s Hs. specialize (Hm s Hs). unfold try_catch.
  destruct (m s) as [[[a | e |] s1] t1]; simpl in *; try exact Hm.
  specialize (Hh e s1 Hm).
  destruct (handler e s1) as [[r s2] t2]. exact Hh.
Qed.

Lemma preserves_to_string v : preserves P (to_string v).
Proof.
  unfold to_string. destruct (stringable v);
    [apply preserves_ret | apply preserves_throw].
Qed.

Ltac preserve_step :=
  first
    [ solve [auto with preserve]
    | apply preserves_to_string
    | progress cbv zeta
    | apply preserves_ret
    | apply preserves_throw
    | apply preserves_out_of_fuel
    | apply preserves_emit
    | apply preserves_get_state
    | apply preserves_log
    | apply preserves_modify; intros ? ?; solve [auto]
    | match goal with
      | |- preserves _ (if ?c then _ else _) => destruct c
      | |- preserves _ (match ?x with _ => _ end) => destruct x
      | |- preserves _ (mbind _ _) => apply preserves_bind; [| intros ?]
      | |- preserves _ (try_catch _ _) => apply preserves_try_catch; [| intros ?]
      end ].

Ltac preserve := repeat preserve_step.

Lemma preserves_getPackageInfo : preserves P getPackageInfo.
Proof. unfold getPackageInfo. preserve. Qed.
#[local] Hint Resolve preserves_getPackageInfo : preserve.

Lemma preserves_sendInitializeResponse : preserves P sendInitializeResponse.
Proof. unfold sendInitializeResponse. preserve. Qed.
#[local] Hint Resolve preserves_sendInitializeResponse : preserve.

Lemma preserves_sendAck v : preserves P (sendAck v).
Proof. unfold sendAck. preserve. Qed.
#[local] Hint Resolve preserves_sendAck : preserve.

Lemma preserves_sendPong : preserves P sendPong.
Proof. unfold sendPong. preserve. Qed.
#[local] Hint Resolve preserves_sendPong : preserve.

Lemma preserves_sendCommandResult id ok result error :
  preserves P (sendCommandResult id ok result error).
Proof. unfold sendCommandResult. preserve. Qed.
#[local] Hint Resolve preserves_sendCommandResult : preserve.

Lemma preserves_handleCommand metadata : preserves P (handleCommand metadata).
Proof. unfold handleCommand. preserve. Qed.
#[local] Hint Resolve preserves_handleCommand : preserve.

Lemma preserves_readFromFile path : preserves P (readFromFile path).
Proof. unfold readFromFile. preserve. Qed.
#[local] Hint Resolve preserves_readFromFile : preserve.

Lemma preserves_initializeWindowsAsync : preserves P initializeWindowsAsync.
Proof. unfold initializeWindowsAsync. preserve. Qed.
#[local] Hint Resolve preserves_initializeWindowsAsync : preserve.

Lemma preserves_readFromWindowsMmap name size :
  preserves P (readFromWindowsMmap name size).
Proof. unfold readFromWindowsMmap. preserve. Qed.
#[local] Hint Resolve preserves_readFromWindowsMmap : preserve.

Lemma preserves_warn_size_mismatch data size :
  preserves P (warn_size_mismatch data size).
Proof. unfold warn_size_mismatch. preserve. Qed.
#[local] Hint Resolve preserves_warn_size_mismatch : preserve.

Lemma preserves_readFromLinuxMmap name size :
  preserves P (readFromLinuxMmap name size).
Proof. unfold readFromLinuxMmap. preserve. Qed.
#[local] Hint Resolve preserves_readFromLinuxMmap : preserve.

Lemma preserves_readFromMacOSMmap path size :
  preserves P (readFromMacOSMmap path size).
Proof. unfold readFromMacOSMmap. preserve. Qed.
#[local] Hint Resolve preserves_readFromMacOSMmap : preserve.

Lemma preserves_readFromMmap name size path :
  preserves P (readFromMmap name size path).
Proof. unfold readFromMmap. preserve. Qed.
#[local] Hint Resolve preserves_readFromMmap : preserve.

Lemma preserves_getCRC32Table : preserves P getCRC32Table.
Proof. unfold getCRC32Table. preserve. Qed.
#[local] Hint Resolve preserves_getCRC32Table : preserve.

Lemma preserves_calculateCRC32 data : preserves P (calculateCRC32 data).
Proof. unfold calculateCRC32. preserve. Qed.
#[local] Hint Resolve preserves_calculateCRC32 : preserve.

Lemma preserves_consume_line i : preserves P (consume_line i).
Proof. unfold consume_line. preserve. Qed.
#[local] Hint Resolve preserves_consume_line : preserve.

Lemma preserves_onError message : preserves P (onError message).
Proof. unfold onError. preserve. Qed.
#[local] Hint Resolve preserves_onError : preserve.

Lemma preserves_session_callback e id : preserves P (session_callback e id).
Proof. unfold session_callback. preserve. Qed.
#[local] Hint Resolve preserves_session_callback : preserve.

Lemma preserves_acknowledge_and_deliver metadata data :
  preserves P (acknowledge_and_deliver metadata data).
Proof. unfold acknowledge_and_deliver. preserve. Qed.
#[local] Hint Resolve preserves_acknowledge_and_deliver : preserve.

Lemma preserves_parseInline metadata i : preserves P (parseInline metadata i).
Proof. unfold parseInline. preserve. Qed.
#[local] Hint Resolve preserves_parseInline : preserve.

Lemma preserves_parseSnapshot metadata i : preserves P (parseSnapshot metadata i).
Proof. unfold parseSnapshot. preserve. Qed.
#[local] Hint Resolve preserves_parseSnapshot : preserve.

Lemma preserves_dispatch metadata i : preserves P (dispatch metadata i).
Proof. unfold dispatch. preserve. Qed.
#[local] Hint Resolve preserves_dispatch : preserve.

Lemma preserves_parseMessage : preserves P parseMessage.
Proof. unfold parseMessage. preserve. Qed.
#[local] Hint Resolve preserves_parseMessage : preserve.

Lemma preserves_processLoop fuel : preserves P (processLoop fuel).
Proof.
  induction fuel as [| fuel IH]; cbn [processLoop]; preserve.
Qed.
#[local] Hint Resolve preserves_processLoop : preserve.

Lemma preserves_processData fuel data : preserves P (processData fuel data).
Proof. unfold processData. preserve. Qed.
#[local] Hint Resolve preserves_processData : preserve.

Lemma preserves_onData fuel chunk : preserves P (onData fuel chunk).
Proof. unfold onData. preserve. Qed.
#[local] Hint Resolve preserves_onData : preserve.

Lemma preserves_start : preserves P start.
Proof. unfold start. preserve. Qed.
#[local] Hint Resolve preserves_start : preserve.

Lemma preserves_stop : preserves P stop.
Proof. unfold stop. preserve. Qed.
#[local] Hint Resolve preserves_stop : preserve.

Lemma preserves_isReady : preserves P isReady.
Proof. unfold isReady. preserve. Qed.
#[local] Hint Resolve preserves_isReady : preserve.

Lemma preserves_feed fuel chunks : preserves P (feed fuel chunks).
Proof.
  induction chunks as [| chunk chunks IH]; cbn [feed]; preserve.
Qed.

Lemma preserves_call c : preserves P (call c).
Proof. destruct c; cbn [call]; preserve. Qed.

Lemma preserves_calls cs s : P s -> P (calls cs s).
Proof.
  revert s. induction cs as [| c cs IH]; intros s Hs; simpl.
  - exact Hs.
  - apply IH. apply preserves_call. exact Hs.
Qed.

End Preservation.

Section Invariants.

Context {E : Env}.

(** Once set, [handshakeComplete] stays set. *)
Lemma ready_calls cs s :
  handshakeComplete s = true -> handshakeComplete (calls cs s) = true.
Proof.
  apply (preserves_calls (fun s => handshakeComplete s = true)); auto.
Qed.

Lemma ready_call c s :
  handshakeComplete s = true -> handshakeComplete (call c s).1.2 = true.
Proof.
  apply (preserves_call (fun s => handshakeComplete s = true)); auto.
Qed.

Lemma ready_feed fuel chunks s :
  handshakeComplete s = true -> handshakeComplete (feed fuel chunks s).1.2 = true.
Proof.
  apply (preserves_feed (fun s => handshakeComplete s = true)); auto.
Qed.

(** The table variable never holds anything but the generated table. *)
Lemma table_ok_calls cs s : table_ok s -> table_ok (calls cs s).
Proof.
  apply (preserves_calls table_ok); auto; intros; right; reflexivity.
Qed.

(** Once generated, the table stays. *)
Lemma table_kept_calls cs s :
  crc32Table s = Some CRC.generate -> crc32Table (calls cs s) = Some CRC.generate.
Proof.
  apply (preserves_calls (fun s => crc32Table s = Some CRC.generate)); auto.
Qed.

End Invariants.

(** ** The store and the callbacks *)

Section HostFacts.

Context {E : Env}.

Lemma count_app {A} (p : A -> bool) (l k : list A) :
  count p (l ++ k) = (count p l + count p k)%nat.
Proof. unfold count. rewrite List.filter_app, length_app. reflexivity. Qed.



(** Under a key that is a string the store is the map of strings; another
    key leaves this map alone. *)
Lemma store_sessions metadata d h :
  sessions (Main.store metadata d h)
  = match prop metadata "sessionId" with
    | JStr id => (SessionStore.updateSnapshot id metadata d (sessions h)).1
    | _ => sessions h
    end.
Proof. unfold Main.store. destruct (prop metadata "sessionId"); reflexivity. Qed.

Lemma remove_sessions id h :
  sessions (Main.remove id h)
  = match id with
    | JStr id => (SessionStore.removeSession id (sessions h)).1
    | _ => sessions h
    end.
Proof. unfold Main.remove. destruct id; reflexivity. Qed.

(** A snapshot whose session id is a string is stored under it, whether
    or not the callback then throws. *)
Lemma onSnapshot_sessions id metadata d h :
  prop metadata "sessionId" = JStr id ->
  sessions (Main.onSnapshot metadata d h).1
  = (SessionStore.updateSnapshot id metadata d (sessions h)).1.
Proof.
  intros Hid. unfold Main.onSnapshot. rewrite Hid. cbn [stringable negb].
  destruct (_ && _); cbn [fst]; rewrite store_sessions, Hid; reflexivity.
Qed.




(** Two updates of one session: what the second stores is all there is. *)
Lemma updateSnapshot_twice id m1 d1 m2 d2 (store : gmap string Session) :
  (SessionStore.updateSnapshot id m2 d2
     (SessionStore.updateSnapshot id m1 d1 store).1).1
  = (SessionStore.updateSnapshot id m2 d2 store).1.
Proof. unfold SessionStore.updateSnapshot. simpl. apply insert_insert_eq. Qed.

Lemma updateSnapshot_lookup id metadata d (store : gmap string Session) :
  (SessionStore.updateSnapshot id metadata d store).1 !! id
  = Some (SessionStore.snapshot_of id metadata d).
Proof. unfold SessionStore.updateSnapshot. simpl. apply lookup_insert_eq. Qed.

Lemma updateSnapshot_other id id' metadata d (store : gmap string Session) :
  id <> id' ->
  (SessionStore.updateSnapshot id metadata d store).1 !! id' = store !! id'.
Proof.
  intros Hne. unfold SessionStore.updateSnapshot. simpl.
  apply lookup_insert_ne. exact Hne.
Qed.

Lemma updateSnapshot_size_existing id metadata d (store : gmap string Session) :
  is_Some (store !! id) ->
  size (SessionStore.updateSnapshot id metadata d store).1 = size store.
Proof.
  intros [old Hold]. unfold SessionStore.updateSnapshot. simpl.
  rewrite <- (insert_delete_eq store id (SessionStore.snapshot_of id metadata d)).
  rewrite map_size_insert_None by apply lookup_delete_eq.
  rewrite <- (insert_delete_id store id old Hold) at 2.
  rewrite map_size_insert_None by apply lookup_delete_eq. reflexivity.
Qed.

(** The properties of a stored session are the nine of the object
    literal. *)
Lemma session_prop_absent r k :
  k ∉ ["sessionId"; "documentType"; "originalPath"; "outputFormat"; "mimeType";
       "timestamp"; "sequenceNumber"; "data"; "hasUpdate"] ->
  session_prop r k = None.
Proof.
  intros Hk. unfold session_prop.
  repeat match goal with
  | |- context [String.eqb k ?name] =>
      destruct (String.eqb_spec k name) as [-> | _];
        [exfalso; apply Hk; set_solver |]
  end.
  reflexivity.
Qed.

End HostFacts.

(** * The claims *)

Section Claims.

Context {E : Env}.

Import BufferFacts.

Lemma frame_bytes_not_nil (line pre payload : Buffer) :
  frame_bytes line pre payload <> [].
Proof. unfold frame_bytes. destruct line; discriminate. Qed.

Lemma processData_frame (line pre payload : Buffer) metadata fuel s :
  InlineFrame line pre payload metadata ->
  checksum_ok metadata payload = true ->
  table_ok s ->
  buffer s = [] ->
  exists s',
    processData (S (S fuel)) (frame_bytes line pre payload) s
    = (Ok tt, s', delivery metadata payload)
    /\ buffer s' = [].
Proof.
  intros Hframe Hsum Htable Hbuf.
  destruct (parseMessage_inline_valid line pre payload [] metadata
              (set_buffer (buffer s ++ frame_bytes line pre payload) s)
              Hframe Hsum Htable)
    as (s1 & Hparse & Hbuf1 & _ & _).
  { simpl. rewrite Hbuf, app_nil_r. reflexivity. }
  exists s1. split; [| exact Hbuf1].
  rewrite processData_run, (processLoop_again _ _ _ _ Hparse).
  rewrite (processLoop_stop fuel s1 s1).
  - reflexivity.
  - apply parseMessage_no_newline. rewrite Hbuf1. apply not_elem_of_nil.
Qed.

(** C1.  A valid inline snapshot frame (its sequence number and its
    session id have texts, as a number and a string have), cut into chunks
    in any way and fed by successive calls of [processData] (each with room
    for at least two iterations of its loop), gives one acknowledgement and
    then one delivery of the metadata and the payload; feeding the frame in
    one call gives the same, and so does any interleaving of the parse
    attempts of calls that are pending together.  On every proper prefix
    of the frame [parseMessage] answers "need more data" with no effect,
    and leaves the state as it was but for a debug line. *)
Theorem inline_frame_chunking
        (line pre payload : Buffer) metadata (chunks : list Buffer) fuel s :
  InlineFrame line pre payload metadata ->
  checksum_ok metadata payload = true ->
  table_ok s ->
  buffer s = [] ->
  concat chunks = frame_bytes line pre payload ->
  (exists s',
      feed (S (S fuel)) chunks s = (Ok tt, s', delivery metadata payload)
      /\ buffer s' = [])
  /\ (exists s',
         processData (S (S fuel)) (frame_bytes line pre payload) s
         = (Ok tt, s', delivery metadata payload)
         /\ buffer s' = [])
  /\ (forall acts,
         appended acts = frame_bytes line pre payload ->
         exists s',
           steps acts s = (Ok tt, s', delivery metadata payload)
           /\ buffer s' = [])
  /\ count is_ack (delivery metadata payload) = 1%nat
  /\ count is_snapshot_delivery (delivery metadata payload) = 1%nat
  /\ (forall (part more : Buffer) s0,
         part ++ more = frame_bytes line pre payload ->
         more <> [] ->
         buffer s0 = part ->
         exists s1,
           parseMessage s0 = (Ok false, s1, [])
           /\ forget_log s1 = forget_log s0).
Proof.
  intros Hframe Hsum Htable Hbuf Hchunks.
  split; [| split; [| split; [| split; [| split]]]].
  - destruct (feed_frame line pre payload metadata fuel chunks s Hframe Hsum Htable)
      as (s' & Hfeed & Hbuf' & _ & _).
    + rewrite Hbuf. exact Hchunks.
    + rewrite Hchunks. apply frame_bytes_not_nil.
    + exists s'. split; assumption.
  - apply processData_frame; assumption.
  - intros acts Hacts.
    apply (steps_frame line pre payload metadata acts s Hframe Hsum Htable).
    + rewrite Hbuf. exact Hacts.
    + rewrite Hacts. apply frame_bytes_not_nil.
  - reflexivity.
  - reflexivity.
  - intros part more s0 Hsplit Hmore Hpart.
    apply (parseMessage_incomplete line pre payload part more metadata);
      assumption.
Qed.



(** C4.  After two successive updates with one session id the store
    holds, under that id, the record built from the second call alone:
    its payload is the second payload and its flag is set; it is the only
    record with that id; the store is what the second call alone would
    have made of it, and no larger than after the first call. *)
Theorem update_twice_replaces id m1 d1 m2 d2 (store : gmap string Session) :
  updated_twice id m1 d1 m2 d2 store !! id
  = Some (SessionStore.snapshot_of id m2 d2)
  /\ data (SessionStore.snapshot_of id m2 d2) = d2
  /\ hasUpdate (SessionStore.snapshot_of id m2 d2) = true
  /\ (forall r, (id, r) ∈ map_to_list (updated_twice id m1 d1 m2 d2 store)
                <-> r = SessionStore.snapshot_of id m2 d2)
  /\ NoDup (map_to_list (updated_twice id m1 d1 m2 d2 store)).*1
  /\ updated_twice id m1 d1 m2 d2 store
     = (SessionStore.updateSnapshot id m2 d2 store).1
  /\ size (updated_twice id m1 d1 m2 d2 store)
     = size (SessionStore.updateSnapshot id m1 d1 store).1.
Proof.
  unfold updated_twice.
  split; [apply updateSnapshot_lookup |].
  split; [reflexivity |]. split; [reflexivity |].
  split.
  { intros r. rewrite elem_of_map_to_list, updateSnapshot_lookup.
    split; [intros [= <-]; reflexivity | intros ->; reflexivity]. }
  split; [apply NoDup_fst_map_to_list |].
  split; [apply updateSnapshot_twice |].
  apply updateSnapshot_size_existing.
  rewrite updateSnapshot_lookup. eexists. reflexivity.
Qed.



Lemma calculateCRC32_cached data s table :
  crc32Table s = Some table ->
  calculateCRC32 data s = (Ok (CRC.checksum_with table data), s, []).
Proof.
  intros Hsome. unfold calculateCRC32.
  rewrite (run_bind_ok _ _ _ _ _ _ (getCRC32Table_cached s _ Hsome)).
  reflexivity.
Qed.

(** C6.  [calculateCRC32] returns the reference CRC-32 (reflected,
    polynomial 0xEDB88320, initial value and final XOR 0xFFFFFFFF) of
    every byte sequence.  Its table has 256 entries.  It is generated by
    a call that finds none stored, and stored; a call that finds a table
    stored, whatever this table holds, uses it as it is and leaves the
    state as it was, so that the table is generated once.  After the first
    call, and whatever calls are then made on the parser, the table stored
    is the generated one, and every further checksum is computed with it
    and changes nothing. *)
Theorem calculateCRC32_is_crc32 (bytes : Buffer) s :
  table_ok s ->
  calculateCRC32 bytes s
  = (Ok (CRC.reference bytes), set_crc32Table (Some CRC.generate) s, [])
  /\ 0 <= CRC.reference bytes < 2 ^ 32
  /\ length CRC.generate = 256%nat
  /\ (crc32Table s = None ->
      getCRC32Table s
      = (Ok CRC.generate, set_crc32Table (Some CRC.generate) s, []))
  /\ (forall s0 table,
        crc32Table s0 = Some table ->
        getCRC32Table s0 = (Ok table, s0, [])
        /\ forall data,
             calculateCRC32 data s0
             = (Ok (CRC.checksum_with table data), s0, []))
  /\ (forall cs data,
        crc32Table (calls cs (calculateCRC32 bytes s).1.2) = Some CRC.generate
        /\ calculateCRC32 data (calls cs (calculateCRC32 bytes s).1.2)
           = (Ok (CRC.reference data), calls cs (calculateCRC32 bytes s).1.2, [])).
Proof.
  intros Htable.
  split; [apply calculateCRC32_run; exact Htable |].
  split; [apply CRCFacts.reference_uint32 |].
  split; [apply CRCFacts.generate_length |].
  split; [apply getCRC32Table_first |].
  split.
  { intros s0 table Hsome. split; [apply getCRC32Table_cached; exact Hsome |].
    intros data. apply calculateCRC32_cached. exact Hsome. }
  intros cs data.
  assert (Hkept : crc32Table (calls cs (calculateCRC32 bytes s).1.2)
                  = Some CRC.generate).
  { apply table_kept_calls.
    rewrite calculateCRC32_run by exact Htable. reflexivity. }
  split; [exact Hkept |].
  rewrite (calculateCRC32_cached data _ _ Hkept).
  rewrite CRCFacts.checksum_with_generate. reflexivity.
Qed.

(** C7, as the code has it.  A line whose text, decoded as UTF-8 with
    replacement characters for the bytes that are not valid, is not JSON:
    [parseMessage] reports one error, takes exactly that line and its line
    feed off the buffer and asks to go on; the loop then goes on with the
    bytes that follow, so that its outcome is the error followed by the
    outcome on the rest.  (A line that is not valid UTF-8 and whose
    decoded text is JSON is handled as the message it decodes to.) *)
Theorem undecodable_line_is_skipped (line rest : Buffer) message fuel s :
  buffer s = line ++ newline :: rest ->
  indexOf line newline = -1 ->
  decodeJSON line = inl message ->
  parseMessage s
  = (Ok true, set_buffer rest s,
     [OnError ("Failed to parse JSON metadata: " +:+ message)])
  /\ processLoop (S fuel) s
     = ((processLoop fuel (set_buffer rest s)).1.1,
        (processLoop fuel (set_buffer rest s)).1.2,
        OnError ("Failed to parse JSON metadata: " +:+ message)
          :: (processLoop fuel (set_buffer rest s)).2).
Proof.
  intros Hbuf Hnl Hdec.
  apply index_from_absent_inv in Hnl; [| lia].
  pose proof (parseMessage_decode_error line rest message s Hbuf Hnl Hdec)
    as Hparse.
  split; [exact Hparse |].
  rewrite (processLoop_again _ _ _ _ Hparse). reflexivity.
Qed.

(** C8, as the code has it.  The record stored for a snapshot holds the
    session id, the six descriptive fields and the sequence number of the
    message, the payload and the flag, set; it has no property for the
    transport fields of the message. *)
Theorem stored_session_fields id metadata (bytes : Buffer) (h : Host) :
  prop metadata "sessionId" = JStr id ->
  exists r,
    sessions (Main.handle (OnSnapshot metadata bytes) h).1 !! id = Some r
    /\ session_prop r "sessionId" = Some (PVal (JStr id))
    /\ (forall k,
           k ∈ ["documentType"; "originalPath"; "outputFormat"; "mimeType";
                "timestamp"; "sequenceNumber"] ->
           session_prop r k = Some (PVal (prop metadata k)))
    /\ session_prop r "data" = Some (PData bytes)
    /\ session_prop r "hasUpdate" = Some (PFlag true)
    /\ (forall k,
           k ∈ ["transportMode"; "filePath"; "mmapName"; "dataSize"; "checksum"] ->
           session_prop r k = None).
Proof.
  intros Hid. exists (SessionStore.snapshot_of id metadata bytes).
  split.
  { cbn [Main.handle]. rewrite (onSnapshot_sessions id) by exact Hid.
    apply updateSnapshot_lookup. }
  split; [reflexivity |].
  split.
  { intros k Hk.
    repeat (apply elem_of_cons in Hk as [-> | Hk]; [reflexivity |]).
    apply elem_of_nil in Hk. contradiction. }
  split; [reflexivity |]. split; [reflexivity |].
  intros k Hk.
  repeat (apply elem_of_cons in Hk as [-> | Hk]; [reflexivity |]).
  apply elem_of_nil in Hk. contradiction.
Qed.

(** C9.  Once [handshakeComplete] is set it stays set: after any
    sequence of calls on the parser (data that holds any messages, errors
    of stdin, [start], [stop], [isReady]), also calls that throw or do not
    return, [isReady] answers [true]. *)
Theorem handshake_never_reverts (cs : list Call) s :
  handshakeComplete s = true ->
  handshakeComplete (calls cs s) = true
  /\ isReady (calls cs s) = (Ok true, calls cs s, []).
Proof.
  intros Hready.
  pose proof (ready_calls cs s Hready) as Hafter.
  split; [exact Hafter |].
  unfold isReady. rewrite run_get_state, Hafter. reflexivity.
Qed.

(** C10, as the code has it.  A command whose [commandId] is missing, or
    there but falsy, is dropped with a warning and no response; a command
    with a truthy [commandId] and a type other than [get_version], both
    with texts, gets one [command_result] with [success] false and an error
    that names the type; a command with a truthy [commandId], when the id
    or the type has no text, makes the handler throw before it writes
    anything. *)
Theorem command_responses metadata s :
  (prop metadata "commandId" = JUndefined ->
   handleCommand metadata s
   = (Ok tt, add_log (mkLog "command" Warn "Received command without commandId") s,
      []))
  /\ (truthy (prop metadata "commandId") = false ->
      handleCommand metadata s
      = (Ok tt, add_log (mkLog "command" Warn "Received command without commandId") s,
         []))
  /\ (truthy (prop metadata "commandId") = true ->
      is_str (prop metadata "commandType") "get_version" = false ->
      stringable (prop metadata "commandType") = true ->
      stringable (prop metadata "commandId") = true ->
      exists s',
        handleCommand metadata s
        = (Ok tt, s',
           [Stdout (CommandResult (prop metadata "commandId") false None
                      (Some (JStr ("Unknown command type: "
                                   +:+ ToString (prop metadata "commandType")))))])
        /\ In (mkLog "command" Warn
                 ("Unknown command type: "
                  +:+ ToString (prop metadata "commandType")))
              (logged s'))
  /\ (truthy (prop metadata "commandId") = true ->
      stringable (prop metadata "commandType")
      && stringable (prop metadata "commandId") = false ->
      handleCommand metadata s
      = (Throw "Cannot convert object to primitive value", s, [])).
Proof.
  split; [| split; [| split]].
  - intros Hid. apply handleCommand_dropped. rewrite Hid. reflexivity.
  - apply handleCommand_dropped.
  - apply handleCommand_unknown.
  - apply handleCommand_throws.
Qed.

End Claims.

(** * The claims on concrete inputs *)

Module Instances.

(** The check value of CRC-32: the ASCII digits 1 to 9. *)
Example crc_check_value :
  CRC.checksum_with CRC.generate [x31; x32; x33; x34; x35; x36; x37; x38; x39]
  = 0xCBF43926.
Proof. vm_compute. reflexivity. Qed.

(** The scenario of the specification: a snapshot line for session s1
    with sequence number 1, the length 5 and the bytes ABCDE. *)
Example scenario_snapshot :
  (processData (E := Demo.env) 2 Demo.snapshot_frame initial_state).2
  = [Stdout (Ack (JNum (Integral 1)) "processed");
     OnSnapshot Demo.snapshot_metadata Demo.payload5].
Proof. vm_compute. reflexivity. Qed.

(** The scenario with a wrong checksum: an error, no acknowledgement, and
    no session s1. *)
Example scenario_bad_checksum :
  (processData (E := Demo.env) 2 Demo.bad_checksum_frame initial_state).2
  = [OnError "Checksum mismatch: expected 1, got 1926437589"]
  /\ sessions (Main.run (E := Demo.env)
                 (processData (E := Demo.env) 2 Demo.bad_checksum_frame
                              initial_state).2 initial_host).1 !! "s1"
     = None.
Proof. split; vm_compute; reflexivity. Qed.

(** A platform without shared memory: the mmap snapshot is reported and
    not acknowledged. *)
Example scenario_mmap_unsupported :
  (processData (E := Demo.env_unsupported) 2 (Demo.mmap_line ++ [newline])
               initial_state).2
  = [OnError ("Failed to read mmap: Memory-mapped transport is not supported "
              +:+ "on platform: freebsd. Please use stdin or file transport "
              +:+ "mode instead.")].
Proof. vm_compute. reflexivity. Qed.

(** A snapshot whose sequence number has no text: the acknowledgement is
    written, [sendAck] throws at its log line, the listener reports the
    error and the snapshot is not delivered. *)
Example scenario_untyped_sequence :
  (onData (E := Demo.env) 2 Demo.untyped_sequence_frame initial_state).2
  = [Stdout (Ack (JObj [("toString", JNum (Integral 0))]) "processed");
     OnError "Cannot convert object to primitive value"].
Proof. vm_compute. reflexivity. Qed.

(** C1 on the scenario, cut in three chunks (in the line, in the length
    prefix). *)
Lemma inline_frame_chunking_witness :
  InlineFrame (E := Demo.env) Demo.snapshot_line Demo.prefix5 Demo.payload5
              Demo.snapshot_metadata
  /\ exists s',
       feed (E := Demo.env) 2
            [take 20 Demo.snapshot_line;
             drop 20 Demo.snapshot_line ++ [newline] ++ take 3 Demo.prefix5;
             drop 3 Demo.prefix5 ++ Demo.payload5]
            initial_state
       = (Ok tt, s', delivery Demo.snapshot_metadata Demo.payload5)
       /\ buffer s' = [].
Proof.
  assert (Hframe : InlineFrame (E := Demo.env) Demo.snapshot_line Demo.prefix5
                               Demo.payload5 Demo.snapshot_metadata).
  { constructor; vm_compute; (reflexivity || congruence). }
  split; [exact Hframe |].
  apply (inline_frame_chunking (E := Demo.env) Demo.snapshot_line Demo.prefix5
           Demo.payload5 Demo.snapshot_metadata
           [take 20 Demo.snapshot_line;
            drop 20 Demo.snapshot_line ++ [newline] ++ take 3 Demo.prefix5;
            drop 3 Demo.prefix5 ++ Demo.payload5]
           0 initial_state).
  - exact Hframe.
  - vm_compute. reflexivity.
  - left. reflexivity.
  - reflexivity.
  - vm_compute. reflexivity.
Defined.





(** C6 on the digits 1 to 9, from the state of a fresh process: the
    first call stores the table, and a second call, after a heartbeat,
    finds it and leaves the state as it is. *)
Lemma calculateCRC32_is_crc32_witness :
  table_ok initial_state
  /\ (calculateCRC32
        [x31; x32; x33; x34; x35; x36; x37; x38; x39] initial_state).1.1
     = Ok (CRC.reference [x31; x32; x33; x34; x35; x36; x37; x38; x39])
  /\ CRC.reference [x31; x32; x33; x34; x35; x36; x37; x38; x39] = 0xCBF43926
  /\ (let s1 := calls (E := Demo.env)
                      [CallOnData 3 (Demo.heartbeat_line ++ [newline])]
                      (calculateCRC32
                         [x31; x32; x33; x34; x35; x36; x37; x38; x39]
                         initial_state).1.2 in
      calculateCRC32 [x41] s1 = (Ok (CRC.reference [x41]), s1, [])).
Proof.
  pose proof (calculateCRC32_is_crc32 (E := Demo.env)
                [x31; x32; x33; x34; x35; x36; x37; x38; x39] initial_state
                (or_introl eq_refl)) as (Hfirst & _ & _ & _ & _ & Hlater).
  split; [left; reflexivity |]. split; [| split].
  - rewrite Hfirst. reflexivity.
  - vm_compute. reflexivity.
  - apply (Hlater [CallOnData 3 (Demo.heartbeat_line ++ [newline])] [x41]).
Defined.

(** C7 as claimed fails: a line that is not valid UTF-8 is decoded with a
    replacement character; this one is then a heartbeat, which is answered
    as any heartbeat, and no error is reported. *)
Lemma invalid_utf8_line_is_not_reported :
  valid_utf8 Demo.invalid_utf8_line = false
  /\ indexOf Demo.invalid_utf8_line newline = -1
  /\ (processData (E := Demo.env) 2 (Demo.invalid_utf8_line ++ [newline])
                  initial_state).2
     = [Stdout Pong; OnHeartbeat]
  /\ count is_error
           (processData (E := Demo.env) 2 (Demo.invalid_utf8_line ++ [newline])
                        initial_state).2
     = 0%nat.
Proof. repeat split; vm_compute; reflexivity. Qed.

(** C7 as the code has it, on a truncated line followed by a
    heartbeat. *)
Lemma undecodable_line_is_skipped_witness :
  parseMessage (E := Demo.env)
    (set_buffer (Demo.garbage_line ++ newline :: Demo.heartbeat_line ++ [newline])
                initial_state)
  = (Ok true,
     set_buffer (Demo.heartbeat_line ++ [newline])
       (set_buffer (Demo.garbage_line ++ newline :: Demo.heartbeat_line ++ [newline])
                   initial_state),
     [OnError "Failed to parse JSON metadata: Unexpected end of JSON input"]).
Proof.
  apply (proj1 (undecodable_line_is_skipped (E := Demo.env) Demo.garbage_line
                  (Demo.heartbeat_line ++ [newline])
                  "Unexpected end of JSON input" 0
                  (set_buffer (Demo.garbage_line ++ newline :: Demo.heartbeat_line
                               ++ [newline]) initial_state)
                  eq_refl eq_refl eq_refl)).
Defined.

(** C8 as claimed fails: a file snapshot is stored without its
    [transportMode] and [filePath]. *)
Lemma stored_session_lacks_transport_fields :
  sessions (Main.handle (E := Demo.env)
              (OnSnapshot Demo.file_metadata [x41; x42]) initial_host).1 !! "s2"
  = Some (SessionStore.snapshot_of "s2" Demo.file_metadata [x41; x42])
  /\ prop Demo.file_metadata "transportMode" = JStr "file"
  /\ session_prop (SessionStore.snapshot_of "s2" Demo.file_metadata [x41; x42])
                  "transportMode" = None
  /\ prop Demo.file_metadata "filePath" = JStr "/tmp/a.png"
  /\ session_prop (SessionStore.snapshot_of "s2" Demo.file_metadata [x41; x42])
                  "filePath" = None.
Proof.
  split; [| repeat split; reflexivity].
  cbn [Main.handle]. unfold Main.onSnapshot. cbn [fst sessions].
  apply (updateSnapshot_lookup (E := Demo.env)).
Qed.

(** C8 as the code has it, on the same snapshot. *)
Lemma stored_session_fields_witness :
  exists r,
    sessions (Main.handle (E := Demo.env)
                (OnSnapshot Demo.file_metadata [x41; x42]) initial_host).1 !! "s2"
    = Some r
    /\ session_prop r "sequenceNumber" = Some (PVal (JNum (Integral 2)))
    /\ session_prop r "data" = Some (PData [x41; x42])
    /\ session_prop r "transportMode" = None.
Proof.
  destruct (stored_session_fields (E := Demo.env) "s2" Demo.file_metadata
              [x41; x42] initial_host eq_refl)
    as (r & Hstored & _ & Hfields & Hdata & _ & Habsent).
  exists r. split; [exact Hstored |].
  split; [apply (Hfields "sequenceNumber"); set_solver |].
  split; [exact Hdata |].
  apply Habsent. set_solver.
Defined.

(** C9 after a handshake: data that does not decode, a stop and a start
    leave the parser ready. *)
Lemma handshake_never_reverts_witness :
  handshakeComplete
    (calls (E := Demo.env)
       [CallOnData 3 (Demo.garbage_line ++ [newline]); CallStop; CallStart;
        CallOnStdinError "EPIPE"; CallIsReady]
       (processData (E := Demo.env) 2 (Demo.initialized_line ++ [newline])
                    initial_state).1.2)
  = true.
Proof.
  apply (proj1 (handshake_never_reverts (E := Demo.env)
                  [CallOnData 3 (Demo.garbage_line ++ [newline]); CallStop;
                   CallStart; CallOnStdinError "EPIPE"; CallIsReady]
                  (processData (E := Demo.env) 2
                     (Demo.initialized_line ++ [newline]) initial_state).1.2
                  eq_refl)).
Defined.

(** C10 as claimed fails: a command whose [commandId] is the empty
    string has a [commandId] and an unknown type, and gets no response. *)
Lemma empty_commandId_gets_no_result :
  prop Demo.empty_id_command_metadata "commandId" = JStr EmptyString
  /\ is_defined (prop Demo.empty_id_command_metadata "commandId") = true
  /\ is_str (prop Demo.empty_id_command_metadata "commandType") "get_version" = false
  /\ (handleCommand (E := Demo.env) Demo.empty_id_command_metadata initial_state).2
     = []
  /\ count is_command_result
           (processData (E := Demo.env) 2 (Demo.empty_id_command_line ++ [newline])
                        initial_state).2
     = 0%nat.
Proof. repeat split; vm_compute; reflexivity. Qed.

(** C10 as the code has it, on a command of an unknown type, and on a
    command whose type has no text. *)
Lemma command_responses_witness :
  (exists s',
      handleCommand (E := Demo.env) Demo.command_metadata initial_state
      = (Ok tt, s',
         [Stdout (CommandResult (JStr "c1") false None
                    (Some (JStr "Unknown command type: reload")))])
      /\ In (mkLog "command" Warn "Unknown command type: reload") (logged s'))
  /\ handleCommand (E := Demo.env) Demo.untyped_command_metadata initial_state
     = (Throw "Cannot convert object to primitive value", initial_state, []).
Proof.
  destruct (command_responses (E := Demo.env) Demo.command_metadata initial_state)
    as (_ & _ & Hunknown & _).
  destruct (command_responses (E := Demo.env) Demo.untyped_command_metadata
              initial_state)
    as (_ & _ & _ & Hthrows).
  split.
  - apply Hunknown; reflexivity.
  - apply Hthrows; reflexivity.
Defined.

End Instances.

(** * More of the code *)

(** ** What "need more data" means *)

Section NeedMoreData.

Context {E : Env}.

Import BufferFacts.

Lemma consumes_ret_true : consumes (mret true).
Proof. intros s. discriminate. Qed.

Lemma consumes_bind {A} (m : Eff A) (f : A -> Eff bool) :
  (forall a, consumes (f a)) -> consumes (m ≫= f).
Proof.
  intros Hf s. unfold mbind, Eff_bind, eff_bind.
  destruct (m s) as [[[a | e |] s1] t1]; simpl; try discriminate.
  specialize (Hf a s1). destruct (f a s1) as [[r s2] t2]. exact Hf.
Qed.

Lemma consumes_acknowledge_and_deliver metadata bytes :
  consumes (acknowledge_and_deliver metadata bytes;; mret true).
Proof. apply consumes_bind. intros _. apply consumes_ret_true. Qed.

Lemma consumes_contradiction (m : Eff bool) s s' t :
  consumes m -> m s = (Ok false, s', t) -> False.
Proof. intros Hm Hrun. apply (Hm s). rewrite Hrun. reflexivity. Qed.

(** The first line feed cuts the buffer in a line and a rest. *)
Lemma index_from_split (b : Buffer) c i k :
  index_from b c i = k -> k <> -1 -> 0 <= i ->
  exists line rest,
    b = line ++ c :: rest /\ (c ∉ line) /\ k = i + Z.of_nat (length line).
Proof.
  revert i. induction b as [| x b IH]; intros i Hidx Hfound Hi; simpl in Hidx.
  - congruence.
  - destruct (Byte.eqb x c) eqn:Heq.
    + apply Byte.byte_dec_bl in Heq. subst x.
      exists [], b. split; [reflexivity |].
      split; [apply not_elem_of_nil | simpl; lia].
    + destruct (IH (i + 1) Hidx Hfound) as (line & rest & -> & Hline & Hk); [lia |].
      exists (x :: line), rest. split; [reflexivity |]. split.
      * apply not_elem_of_cons. split; [| exact Hline].
        intros ->. rewrite byte_eqb_refl in Heq. discriminate.
      * simpl length. lia.
Qed.

Lemma buffer_cases (b : Buffer) :
  newline ∉ b
  \/ exists line rest, b = line ++ newline :: rest /\ newline ∉ line.
Proof.
  destruct (Z.eq_dec (indexOf b newline) (-1)) as [Hnone | Hsome].
  - left. apply (index_from_absent_inv b newline 0); [lia | exact Hnone].
  - right.
    destruct (index_from_split b newline 0 _ eq_refl Hsome) as (line & rest & Hcut & Hline & _);
      [lia |].
    exists line, rest. split; assumption.
Qed.

Lemma run_log_then {A} scope level text (m : Eff A) s :
  (log scope level text;; m) s = m (add_log (mkLog scope level text) s).
Proof.
  unfold log. eff_unfold.
  destruct (m _) as [[r s'] t]. reflexivity.
Qed.

Lemma run_modify_then {A} g (f : unit -> Eff A) s :
  (modify g ≫= f) s = f tt (g s).
Proof.
  eff_unfold. destruct (f tt (g s)) as [[r s'] t]. reflexivity.
Qed.

Lemma run_emit_then {A} e (m : Eff A) s :
  ((emit e;; m) s).1 = (m s).1.
Proof.
  eff_unfold. destruct (m s) as [[r s'] t]. reflexivity.
Qed.

Lemma parseInline_false metadata i s s' t :
  parseInline metadata i s = (Ok false, s', t) -> s' = s /\ t = [].
Proof.
  unfold parseInline. rewrite run_get_state. cbv zeta.
  destruct (_ <? _).
  { intros [= <- <-]. split; reflexivity. }
  destruct (readBigInt64LE _ _) as [size |]; [| discriminate].
  destruct (_ <? _).
  { intros [= <- <-]. split; reflexivity. }
  intros Hrun. exfalso. revert Hrun. apply consumes_contradiction.
  apply consumes_bind. intros _.
  destruct (is_defined _); [| apply consumes_acknowledge_and_deliver].
  apply consumes_bind. intros sum.
  destruct (negb _); [| apply consumes_acknowledge_and_deliver].
  do 2 (apply consumes_bind; intros ?). apply consumes_ret_true.
Qed.

Lemma parseSnapshot_false metadata i s s' t :
  parseSnapshot metadata i s = (Ok false, s', t) -> s' = s /\ t = [].
Proof.
  unfold parseSnapshot. cbv zeta.
  destruct (is_str _ "file").
  { intros Hrun. exfalso. revert Hrun. apply consumes_contradiction.
    do 2 (apply consumes_bind; intros ?). apply consumes_ret_true. }
  destruct (is_str _ "mmap").
  { intros Hrun. exfalso. revert Hrun. apply consumes_contradiction.
    do 2 (apply consumes_bind; intros ?). apply consumes_ret_true. }
  apply parseInline_false.
Qed.

Lemma dispatch_false metadata i s s' t :
  dispatch metadata i s = (Ok false, s', t) -> s' = s /\ t = [].
Proof.
  unfold dispatch. cbv zeta.
  repeat match goal with
  | |- (if is_str _ "snapshot" then _ else _) _ = _ -> _ =>
      destruct (is_str _ "snapshot"); [apply parseSnapshot_false |]
  | |- (if ?c then _ else _) _ = _ -> _ =>
      destruct c;
        [intros Hrun; exfalso; revert Hrun; apply consumes_contradiction;
         repeat (apply consumes_bind; intros ?); apply consumes_ret_true |]
  end.
  intros Hrun. exfalso. revert Hrun. apply consumes_contradiction.
  repeat (apply consumes_bind; intros ?). apply consumes_ret_true.
Qed.

(** X1.  Whenever [parseMessage] answers "need more data" it has done
    nothing: no effect, and the state is as before but for a debug line.
    This holds for every buffer, well formed or not. *)
Theorem need_more_data_is_silent s s' t :
  parseMessage s = (Ok false, s', t) ->
  t = [] /\ forget_log s' = forget_log s /\ buffer s' = buffer s.
Proof.
  unfold parseMessage. rewrite run_get_state. cbv zeta.
  destruct (_ =? _).
  { intros [= <- <-]. repeat split. }
  destruct (decodeJSON _) as [message | metadata].
  { intros Hrun. exfalso. revert Hrun. apply consumes_contradiction.
    do 2 (apply consumes_bind; intros _). apply consumes_ret_true. }
  destruct (nullish metadata); [discriminate |].
  destruct (stringable (prop metadata "type")) eqn:Htext;
    [rewrite run_to_string_ok by exact Htext
    | rewrite run_to_string_throw by exact Htext; discriminate].
  rewrite run_log_then. intros Hrun.
  apply dispatch_false in Hrun as [-> ->]. repeat split.
Qed.

End NeedMoreData.

(** ** Bytes leave the buffer from the front only *)

Create HintDb front.

Section FrontConsumption.

Context {E : Env}.

Variable P : State -> Prop.

Hypothesis P_suffix :
  forall b s, b `suffix_of` buffer s -> P s -> P (set_buffer b s).
Hypothesis P_set_handshakeComplete : forall s, P s -> P (set_handshakeComplete true s).
Hypothesis P_set_crc32Table : forall s, P s -> P (set_crc32Table (Some CRC.generate) s).
Hypothesis P_set_packageInfo : forall p s, P s -> P (set_packageInfo p s).
Hypothesis P_set_windowsInit : forall e s, P s -> P (set_windowsInit e s).
Hypothesis P_add_log : forall l s, P s -> P (add_log l s).

Lemma subarray_from_is_suffix (b : Buffer) k : subarray_from b k `suffix_of` b.
Proof.
  unfold subarray_from, subarray.
  set (len := Z.of_nat (length b)).
  set (start := clamp_index len k).
  assert (Hlen : 0 <= len) by (unfold len; lia).
  assert (Hstart : 0 <= start <= len).
  { unfold start, clamp_index. destruct (Z.ltb_spec k 0); lia. }
  assert (Hstop : clamp_index len len = len).
  { unfold clamp_index. destruct (Z.ltb_spec len 0); lia. }
  rewrite Hstop, take_ge.
  - apply suffix_drop.
  - rewrite length_drop. unfold len in *. lia.
Qed.

Ltac front_step :=
  first
    [ progress cbv zeta
    | apply preserves_to_string
    | apply preserves_session_callback
    | apply preserves_ret
    | apply preserves_throw
    | apply preserves_out_of_fuel
    | apply preserves_emit
    | apply preserves_get_state
    | apply preserves_log; solve [auto]
    | apply preserves_modify; intros ? ?; solve [auto]
    | solve [auto with front]
    | match goal with
      | |- preserves _ (if ?c then _ else _) => destruct c
      | |- preserves _ (match ?x with _ => _ end) => destruct x
      | |- preserves _ (mbind _ _) => apply preserves_bind; [| intros ?]
      | |- preserves _ (try_catch _ _) => apply preserves_try_catch; [| intros ?]
      end ].

Ltac front := repeat front_step.

Lemma front_consume_line i : preserves P (consume_line i).
Proof.
  unfold consume_line. apply preserves_modify. intros s Hs.
  apply P_suffix; [apply subarray_from_is_suffix | exact Hs].
Qed.

Lemma front_sendAck v : preserves P (sendAck v).
Proof. apply preserves_sendAck. exact P_add_log. Qed.

Lemma front_sendPong : preserves P sendPong.
Proof. apply preserves_sendPong. exact P_add_log. Qed.

Lemma front_sendInitializeResponse : preserves P sendInitializeResponse.
Proof. apply preserves_sendInitializeResponse; assumption. Qed.

Lemma front_handleCommand metadata : preserves P (handleCommand metadata).
Proof. apply preserves_handleCommand. exact P_add_log. Qed.

Lemma front_readFromFile path : preserves P (readFromFile path).
Proof. apply preserves_readFromFile. exact P_add_log. Qed.

Lemma front_readFromMmap name size path : preserves P (readFromMmap name size path).
Proof. apply preserves_readFromMmap; assumption. Qed.

Lemma front_calculateCRC32 bytes : preserves P (calculateCRC32 bytes).
Proof. apply preserves_calculateCRC32. exact P_set_crc32Table. Qed.

Lemma front_acknowledge_and_deliver metadata bytes :
  preserves P (acknowledge_and_deliver metadata bytes).
Proof. apply preserves_acknowledge_and_deliver. exact P_add_log. Qed.

#[local] Hint Resolve front_consume_line front_sendAck front_sendPong
  front_sendInitializeResponse front_handleCommand front_readFromFile
  front_readFromMmap front_calculateCRC32 front_acknowledge_and_deliver : front.

Lemma front_onError message : preserves P (onError message).
Proof. unfold onError. front. Qed.
#[local] Hint Resolve front_onError : front.

Lemma front_parseInline metadata i : preserves P (parseInline metadata i).
Proof.
  intros s Hs. unfold parseInline. rewrite run_get_state. cbv zeta.
  destruct (_ <? _); [exact Hs |].
  destruct (readBigInt64LE _ _) as [size |]; [| exact Hs].
  destruct (_ <? _); [exact Hs |].
  match goal with
  | |- P ((modify (set_buffer ?b) ≫= ?f) s).1.2 =>
      assert (Hrest : forall a, preserves P (f a)) by (intros a; front);
      assert (Hcut : P (set_buffer b s))
        by (apply P_suffix; [apply subarray_from_is_suffix | exact Hs]);
      specialize (Hrest tt _ Hcut);
      rewrite run_modify_then; exact Hrest
  end.
Qed.
#[local] Hint Resolve front_parseInline : front.

Lemma front_parseSnapshot metadata i : preserves P (parseSnapshot metadata i).
Proof. unfold parseSnapshot. front. Qed.
#[local] Hint Resolve front_parseSnapshot : front.

Lemma front_dispatch metadata i : preserves P (dispatch metadata i).
Proof. unfold dispatch. front. Qed.
#[local] Hint Resolve front_dispatch : front.

Lemma front_parseMessage : preserves P parseMessage.
Proof. unfold parseMessage. front. Qed.
#[local] Hint Resolve front_parseMessage : front.

Lemma front_processLoop fuel : preserves P (processLoop fuel).
Proof. induction fuel as [| fuel IH]; cbn [processLoop]; front. Qed.

(** A line is consumed first, and what follows keeps the property. *)
Lemma front_consumed_then {A} (post : Eff A) i s :
  P (set_buffer (subarray_from (buffer s) (i + 1)) s) ->
  preserves P post ->
  P ((consume_line i;; post) s).1.2.
Proof.
  intros Hcut Hpost. unfold consume_line. rewrite run_modify_then.
  apply Hpost, Hcut.
Qed.

Lemma front_parseInline_cut metadata i s :
  (forall size,
      readBigInt64LE (buffer s) (i + 1) = Some size ->
      (Z.of_nat (length (buffer s))
       <? js_add (i + 1 + 8) (Number_of_BigInt size)) = false ->
      P (set_buffer
           (subarray_from (buffer s) (js_add (i + 1 + 8) (Number_of_BigInt size)))
           s)) ->
  (parseInline metadata i s).1.1 = Ok true ->
  P (parseInline metadata i s).1.2.
Proof.
  intros Hcut. unfold parseInline. rewrite run_get_state. cbv zeta.
  destruct (_ <? _); [discriminate |].
  destruct (readBigInt64LE _ _) as [size |] eqn:Hread; [| discriminate].
  destruct (_ <? _) eqn:Hfits; [discriminate |]. intros _.
  specialize (Hcut size eq_refl Hfits).
  match goal with
  | |- P ((modify (set_buffer ?b) ≫= ?f) s).1.2 =>
      assert (Hrest : forall a, preserves P (f a)) by (intros a; front);
      specialize (Hrest tt _ Hcut);
      rewrite run_modify_then; exact Hrest
  end.
Qed.

Lemma front_dispatch_consumed metadata i s :
  P (set_buffer (subarray_from (buffer s) (i + 1)) s) ->
  (is_str (prop metadata "type") "snapshot" = true ->
   is_str (resolved_transport metadata) "file" = false ->
   is_str (resolved_transport metadata) "mmap" = false ->
   (parseInline metadata i s).1.1 = Ok true ->
   P (parseInline metadata i s).1.2) ->
  (dispatch metadata i s).1.1 = Ok true ->
  P (dispatch metadata i s).1.2.
Proof.
  intros Hcut Hinline. unfold dispatch. cbv zeta.
  repeat match goal with
  | |- ((if is_str _ "snapshot" then _ else _) _).1.1 = _ -> _ =>
      destruct (is_str _ "snapshot") eqn:Hsnapshot;
        [unfold parseSnapshot; cbv zeta;
         destruct (is_str _ "file") eqn:Hfile;
           [intros _; apply front_consumed_then; [exact Hcut | front] |];
         destruct (is_str _ "mmap") eqn:Hmmap;
           [intros _; apply front_consumed_then; [exact Hcut | front] |];
         apply Hinline; reflexivity |]
  | |- ((if ?c then _ else _) _).1.1 = _ -> _ =>
      destruct c; [intros _; apply front_consumed_then; [exact Hcut | front] |]
  end.
  destruct (stringable (prop metadata "messageType")) eqn:Htext;
    [rewrite run_to_string_ok by exact Htext
    | rewrite run_to_string_throw by exact Htext; discriminate].
  intros _. rewrite run_log_then.
  apply front_consumed_then; [| front].
  exact (P_add_log _ _ Hcut).
Qed.

End FrontConsumption.

Section FrontConsumptionOfBytes.

Context {E : Env}.

Lemma buffer_within_loop b0 fuel s :
  buffer_within b0 s -> buffer_within b0 (processLoop fuel s).1.2.
Proof.
  apply (front_processLoop (buffer_within b0)); unfold buffer_within; simpl; auto.
  intros b s' Hb Hs'. etrans; eassumption.
Qed.

(** X2.  Whatever the bytes, and however a call of [processData] ends
    (with the buffer exhausted, with a thrown error, or without end), the
    buffer after it holds the last bytes of the buffer before it followed
    by the new data: bytes leave the buffer from the front only, and those
    that stay keep their order. *)
Theorem buffer_is_consumed_from_the_front fuel (bytes : Buffer) s :
  buffer (processData fuel bytes s).1.2 `suffix_of` buffer s ++ bytes
  /\ buffer (onData fuel bytes s).1.2 `suffix_of` buffer s ++ bytes.
Proof.
  assert (Hloop : buffer (processData fuel bytes s).1.2 `suffix_of` buffer s ++ bytes).
  { rewrite processData_run.
    apply (buffer_within_loop (buffer s ++ bytes)).
    unfold buffer_within. reflexivity. }
  split; [exact Hloop |].
  unfold onData, try_catch, onError, emit.
  destruct (processData fuel bytes s) as [[[[] | e |] s1] t1]; exact Hloop.
Qed.

End FrontConsumptionOfBytes.

(** ** Messages one after the other *)

Section Sequences.

Context {E : Env}.

Import BufferFacts.

Lemma wire_cons f frames :
  wire (f :: frames)
  = frame_bytes (f_line f) (f_prefix f) (f_payload f) ++ wire frames.
Proof. reflexivity. Qed.

Lemma deliveries_cons f frames :
  deliveries (f :: frames)
  = delivery (f_metadata f) (f_payload f) ++ deliveries frames.
Proof. reflexivity. Qed.

Lemma processLoop_frames frames (tail : Buffer) fuel s :
  Forall valid_frame frames ->
  newline ∉ tail ->
  table_ok s ->
  buffer s = wire frames ++ tail ->
  exists s',
    processLoop (S (length frames + fuel)) s = (Ok tt, s', deliveries frames)
    /\ buffer s' = tail.
Proof.
  intros Hframes Htail. revert s.
  induction Hframes as [| f frames [Hframe Hsum] _ IH]; intros s Htable Hbuf.
  - exists s. split; [| exact Hbuf].
    apply processLoop_stop, parseMessage_no_newline.
    rewrite Hbuf. exact Htail.
  - rewrite wire_cons, <- app_assoc in Hbuf.
    destruct (parseMessage_inline_valid _ _ _ _ _ s Hframe Hsum Htable Hbuf)
      as (s1 & Hparse & Hbuf1 & Htable1 & _).
    destruct (IH s1 Htable1 Hbuf1) as (s' & Hloop & Hbuf').
    exists s'. split; [| exact Hbuf'].
    cbn [length Nat.add].
    rewrite (processLoop_again _ _ _ _ Hparse), Hloop. reflexivity.
Qed.

(** X3.  Valid inline frames (each with a sequence number and a session
    id that have texts, and with a right checksum, if any) that arrive
    together, followed by the beginning of a next line, are handled in
    their order of arrival: the acknowledgement and the delivery of each
    frame precede those of the next, and the bytes of the unfinished line
    stay in the buffer. *)
Theorem frames_are_handled_in_order frames (tail : Buffer) fuel s :
  Forall valid_frame frames ->
  indexOf tail newline = -1 ->
  table_ok s ->
  buffer s = [] ->
  exists s',
    processData (S (length frames + fuel)) (wire frames ++ tail) s
    = (Ok tt, s', deliveries frames)
    /\ buffer s' = tail
    /\ count is_ack (deliveries frames) = length frames
    /\ count is_snapshot_delivery (deliveries frames) = length frames.
Proof.
  intros Hframes Htail Htable Hbuf.
  apply index_from_absent_inv in Htail; [| lia].
  destruct (processLoop_frames frames tail fuel
              (set_buffer (buffer s ++ wire frames ++ tail) s) Hframes Htail Htable)
    as (s' & Hloop & Hbuf').
  { simpl. rewrite Hbuf. reflexivity. }
  exists s'. rewrite processData_run.
  split; [exact Hloop |]. split; [exact Hbuf' |].
  clear. induction frames as [| f frames [IHa IHs]]; [split; reflexivity |].
  rewrite deliveries_cons, !count_app, IHa, IHs. split; reflexivity.
Qed.

Lemma handleCommand_effects metadata s :
  negb (truthy (prop metadata "commandId"))
  || (stringable (prop metadata "commandType")
      && stringable (prop metadata "commandId")) = true ->
  exists s', handleCommand metadata s = (Ok tt, s', command_effects metadata)
             /\ buffer s' = buffer s.
Proof.
  intros Htexts. unfold command_effects.
  destruct (truthy (prop metadata "commandId")) eqn:Hid; cbn [negb].
  - simpl in Htexts. apply andb_true_iff in Htexts as [Htype Hidtext].
    unfold handleCommand, sendCommandResult, to_string. cbv zeta.
    rewrite Hid, Htype, Hidtext.
    destruct (is_str (prop metadata "commandType") "get_version");
      eexists; split; reflexivity.
  - rewrite handleCommand_dropped by exact Hid. eexists. split; reflexivity.
Qed.

Lemma parseMessage_line (line rest : Buffer) s :
  buffer s = line ++ newline :: rest ->
  line_message line ->
  exists s',
    parseMessage s = (Ok true, s', line_effects line)
    /\ buffer s' = rest.
Proof.
  intros Hbuf [Hnl Hline].
  apply index_from_absent_inv in Hnl; [| lia].
  unfold line_effects.
  destruct (decodeJSON line) as [message | metadata] eqn:Hdec.
  { eexists. split.
    - apply (parseMessage_decode_error line rest); assumption.
    - reflexivity. }
  destruct Hline as (Hnull & Hsnapshot & Hinitialize & Hshutdown & Htexts).
  unfold has_texts in Htexts. cbv zeta in Htexts.
  apply andb_true_iff in Htexts as [Htype Htexts].
  rewrite (parseMessage_head line rest) by assumption.
  rewrite Hdec, Hnull.
  rewrite run_to_string_ok by exact Htype. rewrite run_log_then.
  set (s0 := add_log _ s).
  assert (Hconsume : consume_line (Z.of_nat (length line)) s0
                     = (Ok tt, set_buffer rest s0, [])).
  { apply consume_line_app. exact Hbuf. }
  unfold dispatch. cbv zeta. rewrite Hsnapshot, Hinitialize, Hshutdown.
  destruct (is_str (prop metadata "type") "initialized") eqn:Hinitialized.
  { rewrite (run_bind_ok _ _ _ _ _ _ Hconsume). eexists; split; reflexivity. }
  destruct (is_str (prop metadata "type") "heartbeat") eqn:Hheartbeat.
  { rewrite (run_bind_ok _ _ _ _ _ _ Hconsume). eexists; split; reflexivity. }
  destruct (is_str (prop metadata "type") "session_closed") eqn:Hclosed.
  { apply is_str_inv in Hclosed. rewrite Hclosed in Htexts. simpl in Htexts.
    rewrite (run_bind_ok _ _ _ _ _ _ Hconsume).
    rewrite (run_bind_ok _ _ _ _ _ _
               (session_callback_run _ _ (set_buffer rest s0) Htexts)).
    eexists; split; reflexivity. }
  destruct (is_str (prop metadata "type") "session_unbound") eqn:Hunbound.
  { apply is_str_inv in Hunbound. rewrite Hunbound in Htexts. simpl in Htexts.
    rewrite (run_bind_ok _ _ _ _ _ _ Hconsume).
    rewrite (run_bind_ok _ _ _ _ _ _
               (session_callback_run _ _ (set_buffer rest s0) Htexts)).
    eexists; split; reflexivity. }
  cbn [orb] in Htexts.
  destruct (is_str (prop metadata "type") "command") eqn:Hcommand.
  - (* command *)
    rewrite (run_bind_ok _ _ _ _ _ _ Hconsume).
    destruct (handleCommand_effects metadata (set_buffer rest s0) Htexts)
      as (s1 & Hrun & Hbuf1).
    rewrite (run_bind_ok _ _ _ _ _ _ Hrun). cbn [fst snd app].
    rewrite app_nil_r.
    eexists. split; [reflexivity | exact Hbuf1].
  - (* a type the switch does not know *)
    rewrite run_to_string_ok by exact Htexts.
    rewrite run_log_then.
    assert (Hconsume' :
              consume_line (Z.of_nat (length line))
                (add_log (mkLog "parser" Warn
                            ("Unknown message type: "
                             +:+ ToString (prop metadata "messageType"))) s0)
              = (Ok tt,
                 set_buffer rest
                   (add_log (mkLog "parser" Warn
                               ("Unknown message type: "
                                +:+ ToString (prop metadata "messageType"))) s0),
                 [])).
    { apply consume_line_app. exact Hbuf. }
    rewrite (run_bind_ok _ _ _ _ _ _ Hconsume').
    eexists. split; reflexivity.
Qed.

Lemma processLoop_lines lines (tail : Buffer) fuel s :
  Forall line_message lines ->
  newline ∉ tail ->
  buffer s = stream lines ++ tail ->
  exists s',
    processLoop (S (length lines + fuel)) s
    = (Ok tt, s', mjoin (line_effects <$> lines))
    /\ buffer s' = tail.
Proof.
  intros Hlines Htail. revert s.
  induction Hlines as [| line lines Hline _ IH]; intros s Hbuf.
  - exists s. split; [| exact Hbuf].
    apply processLoop_stop, parseMessage_no_newline.
    rewrite Hbuf. exact Htail.
  - rewrite stream_cons in Hbuf.
    rewrite <- app_assoc in Hbuf. cbn [app] in Hbuf.
    destruct (parseMessage_line line (stream lines ++ tail) s Hbuf Hline)
      as (s1 & Hparse & Hbuf1).
    destruct (IH s1 Hbuf1) as (s' & Hloop & Hbuf').
    exists s'. split; [| exact Hbuf'].
    cbn [length Nat.add].
    rewrite (processLoop_again _ _ _ _ Hparse), Hloop. reflexivity.
Qed.

(** X4.  Lines that are whole messages (handshake completion,
    heartbeats, session ends, commands, types the parser does not know)
    whose fields have the texts that the parser and the callbacks write
    in their log lines, and lines that do not decode, arriving together in
    any mix and followed by the beginning of a next line: each line is
    consumed and has its own effects, in the order of arrival (a pong and
    the heartbeat callback for a heartbeat, nothing for an unknown type, an
    error for a line that does not decode), and the unfinished line stays
    in the buffer. *)
Theorem line_messages_are_handled_in_order lines (tail : Buffer) fuel s :
  Forall line_message lines ->
  indexOf tail newline = -1 ->
  buffer s = [] ->
  exists s',
    processData (S (length lines + fuel)) (stream lines ++ tail) s
    = (Ok tt, s', mjoin (line_effects <$> lines))
    /\ buffer s' = tail.
Proof.
  intros Hlines Htail Hbuf.
  apply index_from_absent_inv in Htail; [| lia].
  destruct (processLoop_lines lines tail fuel
              (set_buffer (buffer s ++ stream lines ++ tail) s) Hlines Htail)
    as (s' & Hloop & Hbuf').
  { simpl. rewrite Hbuf. reflexivity. }
  exists s'. rewrite processData_run. split; assumption.
Qed.

End Sequences.

(** ** A length below zero, and a line that is [null] *)

Section Pathologies.

Context {E : Env}.

Import BufferFacts.



Lemma listen_cons fuel chunk chunks s s1 t1 :
  onData fuel chunk s = (Ok tt, s1, t1) ->
  listen fuel (chunk :: chunks) s
  = ((listen fuel chunks s1).1.1, (listen fuel chunks s1).1.2,
     t1 ++ (listen fuel chunks s1).2).
Proof.
  intros Hrun. cbn [listen].
  rewrite (run_bind_ok _ _ _ _ _ _ Hrun). reflexivity.
Qed.

Lemma onData_null (line rest chunk : Buffer) metadata fuel s :
  buffer s = line ++ newline :: rest ->
  newline ∉ line ->
  decodeJSON line = inr metadata ->
  nullish metadata = true ->
  onData (S fuel) chunk s
  = (Ok tt, set_buffer (buffer s ++ chunk) s,
     [OnError "Cannot read properties of null (reading 'type')"]).
Proof.
  intros Hbuf Hnl Hdec Hnull.
  assert (Hparse :
            parseMessage (set_buffer (buffer s ++ chunk) s)
            = (Throw "Cannot read properties of null (reading 'type')",
               set_buffer (buffer s ++ chunk) s, [])).
  { rewrite (parseMessage_head line (rest ++ chunk)).
    - rewrite Hdec, Hnull. reflexivity.
    - simpl. rewrite Hbuf, <- app_assoc. reflexivity.
    - exact Hnl. }
  unfold onData, try_catch.
  rewrite processData_run, (processLoop_throw _ _ _ _ _ Hparse).
  reflexivity.
Qed.

(** X6.  A line that decodes to [null] is valid JSON, so it is not
    skipped as an undecodable line is: reading its type throws, before the
    line is consumed.  From then on the parser is stuck: every chunk that
    arrives is appended and raises the same error, and nothing that follows
    the line is ever handled. *)
Theorem null_line_blocks_the_stream
        (line rest : Buffer) metadata (chunks : list Buffer) fuel s :
  buffer s = line ++ newline :: rest ->
  indexOf line newline = -1 ->
  decodeJSON line = inr metadata ->
  nullish metadata = true ->
  exists s',
    listen (S fuel) chunks s
    = (Ok tt, s',
       replicate (length chunks)
         (OnError "Cannot read properties of null (reading 'type')"))
    /\ buffer s' = buffer s ++ mjoin chunks.
Proof.
  intros Hbuf Hnl Hdec Hnull.
  apply index_from_absent_inv in Hnl; [| lia].
  revert s rest Hbuf.
  induction chunks as [| chunk chunks IH]; intros s rest Hbuf.
  - exists s. split; [reflexivity |]. simpl. rewrite app_nil_r. reflexivity.
  - pose proof (onData_null line rest chunk metadata fuel s Hbuf Hnl Hdec Hnull)
      as Hrun.
    destruct (IH (set_buffer (buffer s ++ chunk) s) (rest ++ chunk))
      as (s' & Hlisten & Hbuf').
    { simpl. rewrite Hbuf, <- app_assoc. reflexivity. }
    exists s'. split.
    + rewrite (listen_cons _ _ _ _ _ _ Hrun), Hlisten. reflexivity.
    + rewrite Hbuf'. simpl. rewrite app_assoc. reflexivity.
Qed.

End Pathologies.

(** ** The handshake *)

Section Handshake.

Context {E : Env}.

Import BufferFacts.

Lemma dispatch_keeps_unready metadata i :
  is_str (prop metadata "type") "initialized" = false ->
  preserves (fun s => handshakeComplete s = false) (dispatch metadata i).
Proof.
  intros Hother. unfold dispatch. cbv zeta. rewrite Hother.
  repeat match goal with
  | |- preserves _ (if ?c then _ else _) => destruct c
  end;
    repeat first
      [ apply preserves_ret
      | apply preserves_emit
      | apply preserves_to_string
      | apply preserves_session_callback
      | apply preserves_log; solve [auto]
      | apply preserves_consume_line; solve [auto]
      | apply preserves_sendInitializeResponse; solve [auto]
      | apply preserves_sendPong; solve [auto]
      | apply preserves_parseSnapshot; solve [auto]
      | apply preserves_handleCommand; solve [auto]
      | apply preserves_bind; [| intros ?] ].
Qed.

(** X7.  The parser becomes ready by an [initialized] line and by nothing
    else: a parse attempt that starts with [handshakeComplete] unset ends
    with it set exactly when the line at the head of the buffer decodes to
    a message of type [initialized].  An [initialize] line, in particular,
    does not change the state of the handshake. *)
Theorem ready_only_by_initialized s :
  handshakeComplete s = false ->
  handshakeComplete (parseMessage s).1.2 = true
  <-> exists line rest metadata,
        buffer s = line ++ newline :: rest
        /\ (newline ∉ line)
        /\ decodeJSON line = inr metadata
        /\ is_str (prop metadata "type") "initialized" = true.
Proof.
  intros Hunready. split.
  - intros Hready.
    destruct (buffer_cases (buffer s)) as [Hnone | (line & rest & Hbuf & Hnl)].
    { rewrite parseMessage_no_newline in Hready by exact Hnone.
      simpl in Hready. congruence. }
    exists line, rest.
    rewrite (parseMessage_head line rest) in Hready by assumption.
    destruct (decodeJSON line) as [message | metadata] eqn:Hdec.
    { unfold onError in Hready. eff_unfold.
      rewrite (consume_line_app line rest) in Hready by exact Hbuf.
      simpl in Hready. congruence. }
    exists metadata.
    destruct (nullish metadata); [simpl in Hready; congruence |].
    destruct (stringable (prop metadata "type")) eqn:Htext;
      [rewrite run_to_string_ok in Hready by exact Htext
      | rewrite run_to_string_throw in Hready by exact Htext;
        simpl in Hready; congruence].
    rewrite run_log_then in Hready.
    destruct (is_str (prop metadata "type") "initialized") eqn:Htype.
    { repeat split; assumption. }
    exfalso.
    pose proof (dispatch_keeps_unready metadata (Z.of_nat (length line)) Htype
                  (add_log (mkLog "parser" Debug
                              ("Received message type: "
                               +:+ ToString (prop metadata "type"))) s)
                  Hunready) as Hstill.
    simpl in Hstill. congruence.
  - intros (line & rest & metadata & Hbuf & Hnl & Hdec & Htype).
    rewrite (parseMessage_initialized line rest metadata) by assumption.
    reflexivity.
Qed.

Lemma getPackageInfo_run s :
  getPackageInfo s
  = if truthy (packageInfo s) then (Ok (packageInfo s), s, [])
    else match readPackageJson with
         | inl message => (Throw message, s, [])
         | inr pkg => (Ok pkg, set_packageInfo pkg s, [])
         end.
Proof.
  unfold getPackageInfo. rewrite run_get_state.
  destruct (truthy (packageInfo s)); [reflexivity |].
  destruct readPackageJson; reflexivity.
Qed.

Lemma sendInitializeResponse_run s :
  match (if truthy (packageInfo s) then inr (packageInfo s)
         else readPackageJson) with
  | inl message => sendInitializeResponse s = (Throw message, s, [])
  | inr pkg =>
      exists s',
        sendInitializeResponse s
        = (if nullish pkg then
             (Throw "Cannot read properties of null (reading 'name')", s', [])
           else
             match websiteUrl_of pkg with
             | inl message => (Throw message, s', [])
             | inr websiteUrl =>
                 ((if stringable (prop pkg "name")
                      && stringable (prop pkg "version")
                   then Ok tt
                   else Throw "Cannot convert object to primitive value"),
                  s',
                  [Stdout (InitializeResponse
                             (prop pkg "name") (prop pkg "version")
                             "Aspose MCP Preview" (prop pkg "description")
                             (author_of pkg) websiteUrl)])
             end)
        /\ buffer s' = buffer s
        /\ handshakeComplete s' = handshakeComplete s
        /\ (nullish pkg = false -> packageInfo s' = pkg)
  end.
Proof.
  assert (Hafter : forall pkg s0,
             exists s',
               (if nullish pkg then
                  throw "Cannot read properties of null (reading 'name')"
                else
                  match websiteUrl_of pkg with
                  | inl message => throw message
                  | inr websiteUrl =>
                      emit (Stdout (InitializeResponse
                                      (prop pkg "name") (prop pkg "version")
                                      "Aspose MCP Preview" (prop pkg "description")
                                      (author_of pkg) websiteUrl));;
                      name ← to_string (prop pkg "name");
                      version ← to_string (prop pkg "version");
                      log "ack" Info ("Sent initialize_response: " +:+ name
                                      +:+ "@" +:+ version)
                  end) s0
               = (if nullish pkg then
                    (Throw "Cannot read properties of null (reading 'name')", s', [])
                  else
                    match websiteUrl_of pkg with
                    | inl message => (Throw message, s', [])
                    | inr websiteUrl =>
                        ((if stringable (prop pkg "name")
                             && stringable (prop pkg "version")
                          then Ok tt
                          else Throw "Cannot convert object to primitive value"),
                         s',
                         [Stdout (InitializeResponse
                                    (prop pkg "name") (prop pkg "version")
                                    "Aspose MCP Preview" (prop pkg "description")
                                    (author_of pkg) websiteUrl)])
                    end)
               /\ buffer s' = buffer s0
               /\ handshakeComplete s' = handshakeComplete s0
               /\ packageInfo s' = packageInfo s0).
  { intros pkg s0.
    destruct (nullish pkg); [eexists; repeat split; reflexivity |].
    destruct (websiteUrl_of pkg) as [message | websiteUrl];
      [eexists; repeat split; reflexivity |].
    unfold to_string.
    destruct (stringable (prop pkg "name")), (stringable (prop pkg "version"));
      eexists; repeat split; reflexivity. }
  unfold sendInitializeResponse.
  pose proof (getPackageInfo_run s) as Hget.
  destruct (truthy (packageInfo s)) eqn:Hkept.
  - rewrite (run_bind_ok _ _ _ _ _ _ Hget).
    destruct (Hafter (packageInfo s) s) as (s' & Hrun & Hbuf & Hready & Hpkg).
    rewrite Hrun. exists s'. split.
    + destruct (nullish (packageInfo s)); [reflexivity |].
      destruct (websiteUrl_of (packageInfo s)); reflexivity.
    + split; [exact Hbuf |]. split; [exact Hready |]. intros _. exact Hpkg.
  - destruct readPackageJson as [message | pkg].
    + rewrite (run_bind_throw _ _ _ _ _ _ Hget). reflexivity.
    + rewrite (run_bind_ok _ _ _ _ _ _ Hget).
      destruct (Hafter pkg (set_packageInfo pkg s))
        as (s' & Hrun & Hbuf & Hready & Hpkg).
      rewrite Hrun. exists s'. split.
      * destruct (nullish pkg); [reflexivity |].
        destruct (websiteUrl_of pkg); reflexivity.
      * split; [exact Hbuf |]. split; [exact Hready |]. intros _. exact Hpkg.
Qed.

Lemma dispatch_initialize metadata i s :
  is_str (prop metadata "type") "initialize" = true ->
  dispatch metadata i s
  = ((consume_line i;;
      version ← to_string (prop metadata "protocolVersion");
      log "parser" Info ("Received initialize, protocolVersion: " +:+ version);;
      sendInitializeResponse;;
      mret true) : Eff bool) s.
Proof.
  intros Htype. apply is_str_inv in Htype. unfold dispatch.
  rewrite Htype. reflexivity.
Qed.

Lemma length_append (a b : string) :
  String.length (a +:+ b) = (String.length a + String.length b)%nat.
Proof.
  induction a as [| c a IH]; [reflexivity |].
  change (String c a +:+ b) with (String c (a +:+ b)).
  cbn [String.length]. rewrite IH. reflexivity.
Qed.

Lemma strip_git_suffix url : strip_git (url +:+ ".git") = url.
Proof.
  induction url as [| c url IH]; [reflexivity |].
  change (String c url +:+ ".git") with (String c (url +:+ ".git")).
  cbn [strip_git].
  destruct (String.eqb_spec (String c (url +:+ ".git")) ".git") as [Heq | _].
  - apply (f_equal String.length) in Heq. cbn [String.length] in Heq.
    rewrite length_append in Heq. cbn [String.length] in Heq. lia.
  - rewrite IH. reflexivity.
Qed.

(** X8.  An [initialize] line whose protocol version has a text is
    consumed and answered with a response made from the package
    description, which is read when none is kept yet and kept from then
    on: the name, the version and the description as they are, the author
    (a string, or the name of an author object, or the empty string) and
    the address of the repository without its final [.git].  When
    package.json cannot be read, or holds [null], or has a repository
    address that is neither absent nor a string, the call throws with the
    line already consumed and nothing written.  The response is written
    before the log line is made, so that a name or a version without a
    text makes the call throw after it.  When the protocol version has no
    text the call throws with the line consumed and nothing written.  In
    every case the state of the handshake is left as it was. *)
Theorem initialize_is_answered (line rest : Buffer) metadata s :
  buffer s = line ++ newline :: rest ->
  indexOf line newline = -1 ->
  decodeJSON line = inr metadata ->
  is_str (prop metadata "type") "initialize" = true ->
  (stringable (prop metadata "protocolVersion") = true ->
   exists s',
     buffer s' = rest
     /\ handshakeComplete s' = handshakeComplete s
     /\ match (if truthy (packageInfo s) then inr (packageInfo s)
               else readPackageJson) with
        | inl message => parseMessage s = (Throw message, s', [])
        | inr pkg =>
            if nullish pkg then
              parseMessage s
              = (Throw "Cannot read properties of null (reading 'name')", s', [])
            else
              match websiteUrl_of pkg with
              | inl message => parseMessage s = (Throw message, s', [])
              | inr websiteUrl =>
                  parseMessage s
                  = ((if stringable (prop pkg "name")
                         && stringable (prop pkg "version")
                      then Ok true
                      else Throw "Cannot convert object to primitive value"),
                     s',
                     [Stdout (InitializeResponse
                                (prop pkg "name") (prop pkg "version")
                                "Aspose MCP Preview" (prop pkg "description")
                                (author_of pkg) websiteUrl)])
                  /\ packageInfo s' = pkg
              end
        end)
  /\ (stringable (prop metadata "protocolVersion") = false ->
      exists s',
        parseMessage s
        = (Throw "Cannot convert object to primitive value", s', [])
        /\ buffer s' = rest
        /\ handshakeComplete s' = handshakeComplete s)
  /\ (forall url, strip_git (url +:+ ".git") = url).
Proof.
  intros Hbuf Hnl Hdec Htype.
  apply index_from_absent_inv in Hnl; [| lia].
  rewrite (parseMessage_head line rest) by assumption.
  rewrite Hdec, (is_str_not_nullish _ _ _ Htype).
  rewrite run_to_string_ok by exact (is_str_stringable _ _ Htype).
  rewrite run_log_then.
  rewrite dispatch_initialize by exact Htype.
  set (s0 := add_log _ s).
  assert (Hconsume : consume_line (Z.of_nat (length line)) s0
                     = (Ok tt, set_buffer rest s0, [])).
  { apply consume_line_app. exact Hbuf. }
  rewrite (run_bind_ok _ _ _ _ _ _ Hconsume). cbn [fst snd app].
  split; [| split; [| exact strip_git_suffix]].
  - intros Hversion.
    rewrite run_to_string_ok by exact Hversion.
    rewrite run_log_then.
    set (s1 := add_log _ (set_buffer rest s0)).
    pose proof (sendInitializeResponse_run s1) as Hsend.
    change (packageInfo s1) with (packageInfo s) in Hsend.
    destruct (if truthy (packageInfo s) then inr (packageInfo s) else readPackageJson)
      as [message | pkg].
    + rewrite (run_bind_throw _ _ _ _ _ _ Hsend).
      exists s1. split; [| split]; reflexivity.
    + destruct Hsend as (s' & Hsend & Hbuf' & Hready' & Hkept).
      exists s'. split; [exact Hbuf' |]. split; [exact Hready' |].
      destruct (nullish pkg).
      * rewrite (run_bind_throw _ _ _ _ _ _ Hsend). reflexivity.
      * destruct (websiteUrl_of pkg) as [message | websiteUrl].
        -- rewrite (run_bind_throw _ _ _ _ _ _ Hsend). reflexivity.
        -- split; [| apply Hkept; reflexivity].
           destruct (stringable (prop pkg "name") && stringable (prop pkg "version")).
           ++ rewrite (run_bind_ok _ _ _ _ _ _ Hsend). reflexivity.
           ++ rewrite (run_bind_throw _ _ _ _ _ _ Hsend). reflexivity.
  - intros Hversion.
    rewrite run_to_string_throw by exact Hversion.
    eexists. split; [reflexivity |]. split; reflexivity.
Qed.

End Handshake.

(** ** Acknowledgements and deliveries *)

Create HintDb pairs.

Section Pairs.

Context {E : Env}.

Lemma paired_app t1 t2 : paired t1 -> paired t2 -> paired (t1 ++ t2).
Proof.
  intros H1 H2.
  induction H1 as [| e t Hack Hsnap _ IH | metadata bytes t Hseq _ IH
                   | sequenceNumber t Hseq _ IH].
  - exact H2.
  - simpl. apply paired_other; assumption.
  - rewrite <- app_assoc. apply paired_delivery; assumption.
  - simpl. apply paired_lone_ack; assumption.
Qed.

Lemma lone_ack_is_ack e : is_ack e = false -> is_lone_ack e = false.
Proof. destruct e as [[] | | | | | | |]; simpl; congruence. Qed.

(** The acknowledgements are those of the deliveries and the lone ones. *)
Lemma paired_counts t :
  paired t ->
  count is_ack t = (count is_snapshot_delivery t + count is_lone_ack t)%nat.
Proof.
  induction 1 as [| e t Hack Hsnap _ IH | metadata bytes t Hseq _ IH
                  | sequenceNumber t Hseq _ IH].
  - reflexivity.
  - change (e :: t) with ([e] ++ t). rewrite !count_app, IH.
    unfold count. simpl. rewrite Hack, Hsnap, (lone_ack_is_ack e Hack).
    reflexivity.
  - rewrite !count_app, IH.
    unfold delivery, count. simpl. rewrite Hseq. simpl. lia.
  - change (Stdout (Ack sequenceNumber "processed") :: t)
      with ([Stdout (Ack sequenceNumber "processed")] ++ t).
    rewrite !count_app, IH.
    unfold count. simpl. rewrite Hseq. simpl. lia.
Qed.

Lemma pairs_ret {A} (a : A) : emits_paired (mret a).
Proof. intros s. constructor. Qed.

Lemma pairs_throw {A} e : emits_paired (throw e : Eff A).
Proof. intros s. constructor. Qed.

Lemma pairs_out_of_fuel {A} : emits_paired (out_of_fuel : Eff A).
Proof. intros s. constructor. Qed.

Lemma pairs_get_state : emits_paired get_state.
Proof. intros s. constructor. Qed.

Lemma pairs_modify f : emits_paired (modify f).
Proof. intros s. constructor. Qed.

Lemma pairs_log scope level text : emits_paired (log scope level text).
Proof. intros s. constructor. Qed.

Lemma pairs_emit e :
  is_ack e = false -> is_snapshot_delivery e = false -> emits_paired (emit e).
Proof. intros Hack Hsnap s. simpl. apply paired_other; [assumption .. | constructor]. Qed.

Lemma pairs_to_string v : emits_paired (to_string v).
Proof. intros s. unfold to_string. destruct (stringable v); constructor. Qed.

Lemma pairs_bind {A B} (m : Eff A) (f : A -> Eff B) :
  emits_paired m -> (forall a, emits_paired (f a)) -> emits_paired (m ≫= f).
Proof.
  intros Hm Hf s. specialize (Hm s).
  unfold mbind, Eff_bind, eff_bind.
  destruct (m s) as [[[a | e |] s1] t1]; simpl in *; try exact Hm.
  specialize (Hf a s1). destruct (f a s1) as [[r s2] t2].
  apply paired_app; assumption.
Qed.

Lemma pairs_try_catch {A} (m : Eff A) handler :
  emits_paired m -> (forall e, emits_paired (handler e)) ->
  emits_paired (try_catch m handler).
Proof.
  intros Hm Hh s. specialize (Hm s). unfold try_catch.
  destruct (m s) as [[[a | e |] s1] t1]; simpl in *; try exact Hm.
  specialize (Hh e s1). destruct (handler e s1) as [[r s2] t2].
  apply paired_app; assumption.
Qed.

Lemma pairs_session_callback e id :
  is_ack e = false -> is_snapshot_delivery e = false ->
  emits_paired (session_callback e id).
Proof.
  intros Hack Hsnap s. unfold session_callback, to_string.
  destruct (stringable id); simpl; (apply paired_other; [assumption .. | constructor]).
Qed.

Ltac pairs_step :=
  first
    [ solve [auto with pairs]
    | progress cbv zeta
    | apply pairs_to_string
    | apply pairs_session_callback; reflexivity
    | apply pairs_ret
    | apply pairs_throw
    | apply pairs_out_of_fuel
    | apply pairs_get_state
    | apply pairs_modify
    | apply pairs_log
    | apply pairs_emit; reflexivity
    | match goal with
      | |- emits_paired (if ?c then _ else _) => destruct c
      | |- emits_paired (match ?x with _ => _ end) => destruct x
      | |- emits_paired (mbind _ _) => apply pairs_bind; [| intros ?]
      | |- emits_paired (try_catch _ _) => apply pairs_try_catch; [| intros ?]
      end ].

Ltac pairs := repeat pairs_step.

Lemma pairs_sendInitializeResponse : emits_paired sendInitializeResponse.
Proof. unfold sendInitializeResponse, getPackageInfo. pairs. Qed.

Lemma pairs_sendPong : emits_paired sendPong.
Proof. unfold sendPong. pairs. Qed.

Lemma pairs_handleCommand metadata : emits_paired (handleCommand metadata).
Proof. unfold handleCommand, sendCommandResult. pairs. Qed.

Lemma pairs_readFromFile path : emits_paired (readFromFile path).
Proof. unfold readFromFile. pairs. Qed.

Lemma pairs_readFromMmap name size path : emits_paired (readFromMmap name size path).
Proof.
  unfold readFromMmap, initializeWindowsAsync, readFromWindowsMmap,
    readFromLinuxMmap, readFromMacOSMmap, warn_size_mismatch.
  pairs.
Qed.

Lemma pairs_calculateCRC32 bytes : emits_paired (calculateCRC32 bytes).
Proof. unfold calculateCRC32, getCRC32Table. pairs. Qed.

Lemma pairs_consume_line i : emits_paired (consume_line i).
Proof. unfold consume_line. pairs. Qed.

Lemma pairs_onError message : emits_paired (onError message).
Proof. unfold onError. pairs. Qed.

(** The acknowledgement and the delivery are written together, unless
    [sendAck] throws after it has written the acknowledgement. *)
Lemma pairs_acknowledge_and_deliver metadata bytes :
  emits_paired (acknowledge_and_deliver metadata bytes).
Proof.
  intros s. unfold acknowledge_and_deliver.
  destruct (stringable (prop metadata "sequenceNumber")) eqn:Hseq.
  - rewrite (run_bind_ok _ _ _ _ _ _ (sendAck_run _ s Hseq)).
    assert (Hsnap : (session_callback (OnSnapshot metadata bytes)
                       (prop metadata "sessionId")
                       (add_log (ack_log (prop metadata "sequenceNumber")) s)).2
                    = [OnSnapshot metadata bytes]).
    { unfold session_callback, to_string.
      destruct (stringable (prop metadata "sessionId")); reflexivity. }
    cbn [snd]. rewrite Hsnap.
    change (paired (delivery metadata bytes ++ [])).
    apply paired_delivery; [exact Hseq | constructor].
  - rewrite (run_bind_throw _ _ _ _ _ _ (sendAck_throw _ s Hseq)).
    apply paired_lone_ack; [exact Hseq | constructor].
Qed.

#[local] Hint Resolve pairs_sendInitializeResponse pairs_sendPong
  pairs_handleCommand pairs_readFromFile pairs_readFromMmap pairs_calculateCRC32
  pairs_consume_line pairs_onError pairs_acknowledge_and_deliver : pairs.

Lemma pairs_parseInline metadata i : emits_paired (parseInline metadata i).
Proof. unfold parseInline. pairs. Qed.
#[local] Hint Resolve pairs_parseInline : pairs.

Lemma pairs_parseSnapshot metadata i : emits_paired (parseSnapshot metadata i).
Proof. unfold parseSnapshot. pairs. Qed.
#[local] Hint Resolve pairs_parseSnapshot : pairs.

Lemma pairs_dispatch metadata i : emits_paired (dispatch metadata i).
Proof. unfold dispatch. pairs. Qed.
#[local] Hint Resolve pairs_dispatch : pairs.

Lemma pairs_parseMessage : emits_paired parseMessage.
Proof. unfold parseMessage. pairs. Qed.
#[local] Hint Resolve pairs_parseMessage : pairs.

Lemma pairs_processLoop fuel : emits_paired (processLoop fuel).
Proof. induction fuel as [| fuel IH]; cbn [processLoop]; pairs. Qed.
#[local] Hint Resolve pairs_processLoop : pairs.

Lemma pairs_onData fuel chunk : emits_paired (onData fuel chunk).
Proof. unfold onData, processData. pairs. Qed.
#[local] Hint Resolve pairs_onData : pairs.

Lemma pairs_listen fuel chunks : emits_paired (listen fuel chunks).
Proof. induction chunks as [| chunk chunks IH]; cbn [listen]; pairs. Qed.

Lemma pairs_step a : emits_paired (step a).
Proof. destruct a; cbn [step]; pairs. Qed.
#[local] Hint Resolve pairs_step : pairs.

Lemma pairs_steps acts : emits_paired (steps acts).
Proof. induction acts as [| a acts IH]; cbn [steps]; pairs. Qed.

(** X9.  Whatever bytes arrive, in whatever chunks, and whatever the
    reads of the file and mmap transports give, the parser delivers what
    it has acknowledged and nothing else: in the trace of its effects
    every delivery follows at once the acknowledgement of its sequence
    number, and every acknowledgement is followed at once by the delivery
    of the snapshot whose sequence number it carries, unless this sequence
    number has no text, in which case [sendAck] has thrown after writing
    it and nothing is delivered.  So there are as many acknowledgements as
    there are deliveries and such lone acknowledgements together.  This
    holds when the listener handles each chunk to its end before the next,
    and also when the parse attempts of calls that are pending together
    interleave (a read of the file or mmap transport giving its result
    within the attempt that asks for it). *)
Theorem acknowledgements_pair_with_deliveries
        fuel (chunks : list Buffer) (acts : list Step) s :
  paired (listen fuel chunks s).2
  /\ count is_ack (listen fuel chunks s).2
     = (count is_snapshot_delivery (listen fuel chunks s).2
        + count is_lone_ack (listen fuel chunks s).2)%nat
  /\ paired (steps acts s).2
  /\ count is_ack (steps acts s).2
     = (count is_snapshot_delivery (steps acts s).2
        + count is_lone_ack (steps acts s).2)%nat.
Proof.
  pose proof (pairs_listen fuel chunks s) as Hlisten.
  pose proof (pairs_steps acts s) as Hsteps.
  split; [exact Hlisten |]. split; [apply paired_counts; exact Hlisten |].
  split; [exact Hsteps | apply paired_counts; exact Hsteps].
Qed.

End Pairs.

(** ** What the checksum detects *)

Section Bursts.

Import JSFacts CRCFacts.

Lemma lxor_below a b k :
  0 <= k -> 0 <= a < 2 ^ k -> 0 <= b < 2 ^ k -> 0 <= Z.lxor a b < 2 ^ k.
Proof.
  intros Hk Ha Hb.
  assert (Heq : Z.lxor a b = Z.lxor a b mod 2 ^ k).
  { apply Z.bits_inj'. intros i Hi.
    rewrite Z.testbit_mod_pow2 by lia.
    destruct (Z.ltb_spec i k) as [Hlt | Hge]; [reflexivity |].
    rewrite Z.lxor_spec.
    rewrite <- (Z.mod_small a (2 ^ k)), <- (Z.mod_small b (2 ^ k)) by lia.
    rewrite !Z.mod_pow2_bits_high by lia. reflexivity. }
  rewrite Heq. apply Z.mod_pos_bound. lia.
Qed.

Lemma lxor_cancel_r a b c : Z.lxor a c = Z.lxor b c -> a = b.
Proof.
  intros H. apply (f_equal (fun x => Z.lxor x c)) in H.
  rewrite !Z.lxor_assoc, Z.lxor_nilpotent, !Z.lxor_0_r in H. exact H.
Qed.

Lemma byte_to_Z_inj b b' : byte_to_Z b = byte_to_Z b' -> b = b'.
Proof.
  unfold byte_to_Z. intros H. apply N2Z.inj in H.
  pose proof (Byte.of_to_N b) as Hb. rewrite H, Byte.of_to_N in Hb.
  congruence.
Qed.

(** Only zero is sent to zero by a step of the reference. *)
Lemma reference_bit_zero x : uint32 x -> CRC.reference_bit x = 0 -> x = 0.
Proof.
  intros Hx. unfold CRC.reference_bit. destruct (Z.testbit x 0) eqn:Hlow; intros H.
  - exfalso.
    assert (Hbit : Z.testbit (Z.lxor (Z.shiftr x 1) 3988292384) 31 = true).
    { rewrite Z.lxor_spec, Z.shiftr_spec by lia.
      rewrite <- (Z.mod_small x (2 ^ 32)) by exact Hx.
      rewrite Z.mod_pow2_bits_high by lia. reflexivity. }
    rewrite H in Hbit. discriminate Hbit.
  - rewrite Z.shiftr_div_pow2 in H by lia. change (2 ^ 1) with 2 in H.
    pose proof (Z.bit0_mod x) as Hmod. rewrite Hlow in Hmod. simpl in Hmod.
    pose proof (Z.div_mod x 2 ltac:(lia)) as Hdiv. lia.
Qed.

Lemma reference_bit_inj a b :
  uint32 a -> uint32 b -> CRC.reference_bit a = CRC.reference_bit b -> a = b.
Proof.
  intros Ha Hb H. apply Z.lxor_eq.
  apply reference_bit_zero; [apply uint32_lxor; assumption |].
  rewrite reference_bit_lxor, H. apply Z.lxor_nilpotent.
Qed.

Lemma iter_reference_bit_inj n a b :
  uint32 a -> uint32 b ->
  Nat.iter n CRC.reference_bit a = Nat.iter n CRC.reference_bit b -> a = b.
Proof.
  induction n as [| n IH]; simpl; intros Ha Hb H.
  - exact H.
  - apply IH; [assumption .. |].
    apply reference_bit_inj; [apply iter_reference_bit_uint32; assumption .. | exact H].
Qed.

Lemma byte_uint32 b : uint32 (byte_to_Z b).
Proof. pose proof (byte_to_Z_range b). unfold uint32. lia. Qed.

(** The bytes that follow keep two registers apart. *)
Lemma fold_reference_byte_inj (q : Buffer) c c' :
  uint32 c -> uint32 c' ->
  fold_left CRC.reference_byte q c = fold_left CRC.reference_byte q c' -> c = c'.
Proof.
  revert c c'. induction q as [| b q IH]; simpl; intros c c' Hc Hc' H.
  - exact H.
  - apply IH in H; [| apply reference_byte_uint32; assumption ..].
    unfold CRC.reference_byte in H.
    apply iter_reference_bit_inj in H;
      [| apply uint32_lxor; [assumption | apply byte_uint32] ..].
    exact (lxor_cancel_r _ _ _ H).
Qed.

(** The top byte of a table entry tells its index. *)
Lemma top_byte_zero lo :
  0 <= lo < 256 ->
  Z.shiftr (Nat.iter 8 CRC.reference_bit lo) 24 = 0 -> lo = 0.
Proof.
  intros Hlo Htop.
  assert (Hall :
    forallb (fun i : nat =>
               implb (Z.shiftr (Nat.iter 8 CRC.reference_bit (Z.of_nat i)) 24 =? 0)
                     (Z.of_nat i =? 0))
            (seq 0 256) = true) by (vm_compute; reflexivity).
  rewrite forallb_forall in Hall.
  specialize (Hall (Z.to_nat lo)).
  rewrite Z2Nat.id in Hall by lia.
  assert (Hin : In (Z.to_nat lo) (seq 0 256)) by (apply in_seq; lia).
  specialize (Hall Hin). rewrite Htop in Hall. simpl in Hall.
  apply Z.eqb_eq in Hall. exact Hall.
Qed.

(** Eight steps of the reference lower a register below [2^(8m)] only if
    it was below [2^(8(m+1))] with a zero low byte. *)
Lemma iter_reference_bit_small x m :
  uint32 x -> (m <= 3)%nat ->
  Nat.iter 8 CRC.reference_bit x < 2 ^ (8 * Z.of_nat m) ->
  x < 2 ^ (8 * Z.of_nat (S m)) /\ Z.land x 255 = 0.
Proof.
  intros Hx Hm Hsmall.
  assert (Hpow : 2 ^ (8 * Z.of_nat m) <= 2 ^ 24)
    by (apply Z.pow_le_mono_r; lia).
  assert (Hreg : uint32 (Nat.iter 8 CRC.reference_bit x))
    by (apply iter_reference_bit_uint32; exact Hx).
  assert (Hhi : 0 <= Z.shiftr x 8 < 2 ^ 24).
  { rewrite Z.shiftr_div_pow2 by lia. unfold uint32 in Hx.
    split; [apply Z.div_pos; lia | apply Z.div_lt_upper_bound; lia]. }
  pose proof (land_255_range x) as Hlo.
  assert (Htop : Z.shiftr (Nat.iter 8 CRC.reference_bit (Z.land x 255)) 24 = 0).
  { assert (H0 : Z.shiftr (Nat.iter 8 CRC.reference_bit x) 24 = 0).
    { rewrite Z.shiftr_div_pow2 by lia. apply Z.div_small.
      unfold uint32 in Hreg. lia. }
    rewrite reference_byte_table, Z.shiftr_lxor in H0.
    rewrite (Z.shiftr_div_pow2 (Z.shiftr x 8)), Z.div_small, Z.lxor_0_l in H0 by lia.
    exact H0. }
  apply top_byte_zero in Htop; [| exact Hlo].
  split; [| exact Htop].
  rewrite reference_byte_table, Htop in Hsmall.
  change (Nat.iter 8 CRC.reference_bit 0) with 0 in Hsmall.
  rewrite Z.lxor_0_r in Hsmall.
  change 255 with (Z.ones 8) in Htop. rewrite Z.land_ones in Htop by lia.
  rewrite Z.shiftr_div_pow2 in Hsmall by lia.
  replace (8 * Z.of_nat (S m)) with (8 * Z.of_nat m + 8) by lia.
  rewrite Z.pow_add_r by lia.
  pose proof (Z.div_mod x (2 ^ 8) ltac:(lia)) as Hdiv.
  rewrite Htop in Hdiv. nia.
Qed.

(** Two registers that equally long runs of bytes bring together were
    close: their difference fits in as many bytes as the runs have. *)
Lemma fold_reference_byte_close (w w' : Buffer) c c' :
  length w = length w' -> uint32 c -> uint32 c' ->
  fold_left CRC.reference_byte w c = fold_left CRC.reference_byte w' c' ->
  Z.lxor c c' < 2 ^ (8 * Z.of_nat (length w)).
Proof.
  revert w' c c'. induction w as [| b w IH]; intros [| b' w'] c c' Hlen Hc Hc' H;
    try discriminate Hlen.
  - simpl in H. subst c'. rewrite Z.lxor_nilpotent. simpl. lia.
  - injection Hlen as Hlen. cbn [fold_left] in H.
    apply IH in H; [| assumption | apply reference_byte_uint32; assumption ..].
    unfold CRC.reference_byte in H. rewrite <- iter_reference_bit_lxor in H.
    set (x := Z.lxor (Z.lxor c (byte_to_Z b)) (Z.lxor c' (byte_to_Z b'))) in H.
    assert (Hx : uint32 x)
      by (repeat apply uint32_lxor; auto using byte_uint32).
    assert (Hcc : uint32 (Z.lxor c c')) by (apply uint32_lxor; assumption).
    destruct (Nat.le_gt_cases (length w) 3) as [Hle | Hgt].
    + apply iter_reference_bit_small in H; [| assumption ..].
      destruct H as [Hbound _].
      assert (Heq : Z.lxor c c' = Z.lxor x (Z.lxor (byte_to_Z b) (byte_to_Z b'))).
      { unfold x. apply Z.bits_inj'. intros i _. rewrite !Z.lxor_spec.
        destruct (Z.testbit c i), (Z.testbit c' i), (Z.testbit (byte_to_Z b) i),
          (Z.testbit (byte_to_Z b') i); reflexivity. }
      rewrite Heq. cbn [length].
      assert (H8 : 2 ^ 8 <= 2 ^ (8 * Z.of_nat (S (length w))))
        by (apply Z.pow_le_mono_r; lia).
      pose proof (byte_to_Z_range b) as Hb. pose proof (byte_to_Z_range b') as Hb'.
      apply lxor_below; [lia | unfold uint32 in Hx; lia |].
      pose proof (lxor_below (byte_to_Z b) (byte_to_Z b') 8) as Hbb. lia.
    + cbn [length].
      assert (H32 : 2 ^ 32 <= 2 ^ (8 * Z.of_nat (S (length w))))
        by (apply Z.pow_le_mono_r; lia).
      unfold uint32 in Hcc. lia.
Qed.

(** From one register, two different runs of at most four bytes lead to
    different registers. *)
Lemma fold_reference_byte_window (w w' : Buffer) c :
  length w = length w' -> (length w <= 4)%nat -> uint32 c ->
  fold_left CRC.reference_byte w c = fold_left CRC.reference_byte w' c ->
  w = w'.
Proof.
  revert w' c. induction w as [| b w IH]; intros [| b' w'] c Hlen Hshort Hc H;
    try discriminate Hlen.
  - reflexivity.
  - injection Hlen as Hlen. cbn [length] in Hshort. cbn [fold_left] in H.
    assert (Hb : b = b').
    { pose proof H as Hclose.
      apply fold_reference_byte_close in Hclose;
        [| assumption | apply reference_byte_uint32; assumption ..].
      unfold CRC.reference_byte in Hclose.
      rewrite <- iter_reference_bit_lxor in Hclose.
      assert (Heq : Z.lxor (Z.lxor c (byte_to_Z b)) (Z.lxor c (byte_to_Z b'))
                    = Z.lxor (byte_to_Z b) (byte_to_Z b')).
      { apply Z.bits_inj'. intros i _. rewrite !Z.lxor_spec.
        destruct (Z.testbit c i), (Z.testbit (byte_to_Z b) i),
          (Z.testbit (byte_to_Z b') i); reflexivity. }
      rewrite Heq in Hclose.
      pose proof (byte_to_Z_range b) as Hrb. pose proof (byte_to_Z_range b') as Hrb'.
      pose proof (lxor_below (byte_to_Z b) (byte_to_Z b') 8 ltac:(lia)
                    ltac:(lia) ltac:(lia)) as Hbb.
      apply iter_reference_bit_small in Hclose;
        [| unfold uint32; lia | lia].
      destruct Hclose as [_ Hlow].
      change 255 with (Z.ones 8) in Hlow. rewrite Z.land_ones in Hlow by lia.
      rewrite Z.mod_small in Hlow by lia.
      apply byte_to_Z_inj, Z.lxor_eq, Hlow. }
    subst b'. f_equal.
    apply (IH w' (CRC.reference_byte c b)); [assumption | lia | | exact H].
    apply reference_byte_uint32, Hc.
Qed.

Lemma fold_reference_byte_uint32 (p : Buffer) c :
  uint32 c -> uint32 (fold_left CRC.reference_byte p c).
Proof.
  revert c. induction p as [| b p IH]; simpl; intros c Hc.
  - exact Hc.
  - apply IH, reference_byte_uint32, Hc.
Qed.

Lemma reference_window (p w w' q : Buffer) :
  length w = length w' -> (length w <= 4)%nat ->
  CRC.reference (p ++ w ++ q) = CRC.reference (p ++ w' ++ q) -> w = w'.
Proof.
  intros Hlen Hshort H. unfold CRC.reference in H.
  apply lxor_cancel_r in H. rewrite !fold_left_app in H.
  assert (Hp : uint32 (fold_left CRC.reference_byte p 4294967295))
    by (apply fold_reference_byte_uint32; unfold uint32; lia).
  apply fold_reference_byte_inj in H;
    [| apply fold_reference_byte_uint32; exact Hp ..].
  exact (fold_reference_byte_window w w' _ Hlen Hshort Hp H).
Qed.

Context {E : Env}.

(** X10.  [calculateCRC32] tells apart any two buffers of one length that
    differ only inside a window of at most four consecutive bytes (so, in
    particular, in a single byte): in all states the program reaches,
    where the table variable is unset or holds the generated table, the
    two checksums it returns are different. *)
Theorem calculateCRC32_detects_bursts (p w w' q : Buffer) s1 s2 :
  table_ok s1 -> table_ok s2 ->
  length w = length w' -> (length w <= 4)%nat -> w <> w' ->
  (calculateCRC32 (p ++ w ++ q) s1).1.1 <> (calculateCRC32 (p ++ w' ++ q) s2).1.1.
Proof.
  intros H1 H2 Hlen Hshort Hdiff.
  rewrite (calculateCRC32_run _ s1 H1), (calculateCRC32_run _ s2 H2).
  cbn [fst]. intros Heq. injection Heq as Heq.
  exact (Hdiff (reference_window p w w' q Hlen Hshort Heq)).
Qed.

End Bursts.

(** ** The helpers of transport/stdin.js *)

Section StdinFacts.

Import BufferFacts.

Context {E : Env}.

Lemma le_unsigned_inj (a b : list byte) :
  length a = length b -> le_unsigned a = le_unsigned b -> a = b.
Proof.
  revert b. induction a as [| x a IH]; intros [| y b] Hlen H; try discriminate Hlen.
  - reflexivity.
  - injection Hlen as Hlen.
    cbn [le_unsigned fold_right] in H. fold (le_unsigned a) in H. fold (le_unsigned b) in H.
    pose proof (CRCFacts.byte_to_Z_range x) as Hx.
    pose proof (CRCFacts.byte_to_Z_range y) as Hy.
    assert (Hxy : byte_to_Z x = byte_to_Z y) by lia.
    assert (Hab : le_unsigned a = le_unsigned b) by lia.
    f_equal; [apply byte_to_Z_inj, Hxy | apply IH; assumption].
Qed.

(** X11.  For an offset that is not negative, [parseLengthPrefix] throws
    its own error when fewer than eight bytes follow the offset, and
    otherwise returns the eight bytes at the offset read as a
    little-endian two's complement number: a value of the signed 64-bit
    range that is congruent modulo 2^64 to the unsigned little-endian
    value of these bytes.  It never fails with the range error of
    [readBigInt64LE]. *)
Theorem parseLengthPrefix_reads_eight_bytes (b : Buffer) offset :
  0 <= offset -> offset + 8 <= 2 ^ 53 ->
  if Z.of_nat (length b) <? offset + 8 then
    parseLengthPrefix b offset = inl "Not enough data for length prefix"
  else
    exists value,
      parseLengthPrefix b offset = inr value
      /\ - 2 ^ 63 <= value < 2 ^ 63
      /\ length (take 8 (drop (Z.to_nat offset) b)) = 8%nat
      /\ value mod 2 ^ 64 = le_unsigned (take 8 (drop (Z.to_nat offset) b)).
Proof.
  intros Hoff Hsize. unfold parseLengthPrefix.
  rewrite js_add_exact by lia.
  destruct (Z.ltb_spec (Z.of_nat (length b)) (offset + 8)) as [Hshort | Hlong];
    [reflexivity |].
  unfold readBigInt64LE.
  destruct (Z.ltb_spec offset 0); [lia |].
  destruct (Z.ltb_spec (Z.of_nat (length b) - 8) offset); [lia |].
  cbn [orb].
  set (bytes := take 8 (drop (Z.to_nat offset) b)).
  assert (Hlen : length bytes = 8%nat).
  { unfold bytes. rewrite length_take, length_drop. lia. }
  pose proof (le_unsigned_range bytes) as Hrange. rewrite Hlen in Hrange.
  change (256 ^ Z.of_nat 8) with (2 ^ 64) in Hrange.
  eexists. split; [reflexivity |].
  destruct (Z.ltb_spec (le_unsigned bytes) (2 ^ 63)) as [Hpos | Hneg].
  - split; [lia |]. split; [exact Hlen |]. apply Z.mod_small. lia.
  - split; [lia |]. split; [exact Hlen |].
    replace (le_unsigned bytes - 2 ^ 64)
      with (le_unsigned bytes + (-1) * 2 ^ 64) by lia.
    rewrite Z.mod_add by lia. apply Z.mod_small. lia.
Qed.

(** X12.  For an offset and a length that are not negative,
    [readFromStdin] throws when the buffer ends before [offset + length],
    and otherwise returns exactly [length] bytes, the ones that stand at
    [offset]: the buffer is the bytes before the offset, the result, and
    the bytes after it. *)
Theorem readFromStdin_returns_the_slice (b : Buffer) offset len :
  0 <= offset -> 0 <= len -> offset + len <= 2 ^ 53 ->
  if Z.of_nat (length b) <? offset + len then
    exists message, readFromStdin b offset len = inl message
  else
    exists before data after,
      readFromStdin b offset len = inr data
      /\ b = before ++ data ++ after
      /\ Z.of_nat (length before) = offset
      /\ Z.of_nat (length data) = len.
Proof.
  intros Hoff Hlen Hsize. unfold readFromStdin.
  rewrite js_add_exact by lia.
  destruct (Z.ltb_spec (Z.of_nat (length b)) (offset + len)) as [Hshort | Hlong].
  - eexists. reflexivity.
  - set (i := Z.to_nat offset). set (n := Z.to_nat len).
    replace offset with (Z.of_nat i) by lia.
    replace (Z.of_nat i + len) with (Z.of_nat (i + n)) by lia.
    rewrite subarray_within by lia.
    replace (i + n - i)%nat with n by lia.
    exists (take i b), (take n (drop i b)), (drop n (drop i b)).
    split; [reflexivity |].
    split; [rewrite take_drop, take_drop; reflexivity |].
    rewrite !length_take, length_drop. lia.
Qed.

(** X13.  The helpers of stdin.js read a frame as the parser does.  On
    a buffer that starts with a well-formed inline frame (its sequence
    number and its session id have texts) whose checksum, if any, is
    right, [parseLengthPrefix] at the byte after the line feed
    gives the length of the payload, [readFromStdin] eight bytes further
    with this length gives the payload, and [parseMessage] delivers this
    same payload. *)
Theorem stdin_helpers_agree_with_parser (line pre payload rest : Buffer) metadata s :
  InlineFrame line pre payload metadata ->
  checksum_ok metadata payload = true ->
  table_ok s ->
  buffer s = frame_bytes line pre payload ++ rest ->
  exists size data s',
    parseLengthPrefix (buffer s) (indexOf (buffer s) newline + 1) = inr size
    /\ readFromStdin (buffer s) (indexOf (buffer s) newline + 1 + 8)
                     (Number_of_BigInt size) = inr data
    /\ parseMessage s = (Ok true, s', delivery metadata data)
    /\ buffer s' = rest.
Proof.
  intros Hframe Hsum Htable Hbuf.
  destruct (parseMessage_inline_valid line pre payload rest metadata s
              Hframe Hsum Htable Hbuf) as (s' & Hrun & Hrest & _).
  destruct Hframe as [Hnl _ _ _ _ Hpre Hlen Hsize].
  apply index_from_absent_inv in Hnl; [| lia].
  exists (Z.of_nat (length payload)), payload, s'.
  assert (Hidx : indexOf (buffer s) newline = Z.of_nat (length line)).
  { rewrite Hbuf. unfold frame_bytes. rewrite <- app_assoc. cbn [app].
    apply indexOf_first, Hnl. }
  rewrite Hidx.
  assert (Hshape : buffer s = (line ++ [newline]) ++ pre ++ payload ++ rest).
  { rewrite Hbuf. unfold frame_bytes. rewrite <- !app_assoc. reflexivity. }
  assert (Hline : Z.of_nat (length line) + 1 = Z.of_nat (length (line ++ [newline])))
    by (rewrite length_app; simpl; lia).
  split; [| split; [| split; [exact Hrun | exact Hrest]]].
  - unfold parseLengthPrefix. rewrite js_add_exact by lia.
    rewrite Hshape at 1. rewrite !length_app, Hpre. cbn [length].
    destruct (Z.ltb_spec
                (Z.of_nat (length line + 1 + (8 + (length payload + length rest))))
                (Z.of_nat (length line) + 1 + 8)); [lia |].
    rewrite Hshape, Hline, readBigInt64LE_at, Hlen by exact Hpre. reflexivity.
  - unfold readFromStdin, Number_of_BigInt.
    rewrite (round_double_exact (Z.of_nat (length payload))) by lia.
    rewrite js_add_exact by lia.
    rewrite Hshape at 1. rewrite !length_app, Hpre. cbn [length].
    destruct (Z.ltb_spec
                (Z.of_nat (length line + 1 + (8 + (length payload + length rest))))
                (Z.of_nat (length line) + 1 + 8 + Z.of_nat (length payload))); [lia |].
    replace (buffer s) with (((line ++ [newline]) ++ pre) ++ payload ++ rest)
      by (rewrite Hshape, <- !app_assoc; reflexivity).
    replace (Z.of_nat (length line) + 1 + 8)
      with (Z.of_nat (length ((line ++ [newline]) ++ pre)))
      by (rewrite !length_app, Hpre; simpl; lia).
    rewrite subarray_middle. reflexivity.
Qed.

End StdinFacts.

(** ** The session store and the routes *)

Section StoreFacts.

Context {E : Env}.

Lemma store_calls_snoc cs c (sessions : gmap string Session) :
  store_calls (cs ++ [c]) sessions = store_call c (store_calls cs sessions).
Proof. unfold store_calls. rewrite fold_left_app. reflexivity. Qed.

(** X14.  Whatever calls are made on the store, from the empty store,
    it invents nothing: every session it holds is stored under its own id
    and is, but for the flag [hasUpdate], the object that one of the calls
    of [updateSnapshot] with this id built from its metadata and data. *)
Theorem stored_sessions_come_from_updates (cs : list StoreCall) id session :
  store_calls cs SessionStore.empty !! id = Some session ->
  sessionId session = id
  /\ exists metadata bytes,
       UpdateSnapshot id metadata bytes ∈ cs
       /\ SessionStore.mark_viewed session
          = SessionStore.mark_viewed (SessionStore.snapshot_of id metadata bytes).
Proof.
  revert id session. induction cs as [| c cs IH] using rev_ind; intros id session.
  - unfold store_calls, SessionStore.empty. simpl. rewrite lookup_empty. discriminate.
  - rewrite store_calls_snoc.
    assert (Hold : store_calls cs SessionStore.empty !! id = Some session ->
                   sessionId session = id
                   /\ exists metadata bytes,
                        UpdateSnapshot id metadata bytes ∈ cs ++ [c]
                        /\ SessionStore.mark_viewed session
                           = SessionStore.mark_viewed
                               (SessionStore.snapshot_of id metadata bytes)).
    { intros Hin. destruct (IH id session Hin) as (Hid & metadata & bytes & Hcall & Heq).
      split; [exact Hid |]. exists metadata, bytes.
      split; [apply elem_of_app; left; exact Hcall | exact Heq]. }
    destruct c as [id' metadata bytes | id' | id' |]; cbn [store_call fst].
    + unfold SessionStore.updateSnapshot. cbn [fst].
      destruct (decide (id' = id)) as [-> | Hne].
      * rewrite lookup_insert_eq. intros [= <-].
        split; [reflexivity |]. exists metadata, bytes.
        split; [apply elem_of_app; right; apply list_elem_of_singleton; reflexivity
               | reflexivity].
      * rewrite lookup_insert_ne by exact Hne. exact Hold.
    + unfold SessionStore.markAsViewed.
      destruct (decide (id' = id)) as [-> | Hne].
      * rewrite lookup_alter_eq.
        destruct (store_calls cs SessionStore.empty !! id) as [old |] eqn:Hlook;
          [| discriminate].
        cbn [fmap option_fmap option_map]. intros [= <-].
        destruct (IH id old Hlook) as (Hid & metadata & bytes & Hcall & Heq).
        split; [exact Hid |]. exists metadata, bytes.
        split; [apply elem_of_app; left; exact Hcall |].
        destruct old; cbn in *. exact Heq.
      * rewrite lookup_alter_ne by exact Hne. exact Hold.
    + unfold SessionStore.removeSession. cbn [fst].
      destruct (decide (id' = id)) as [-> | Hne].
      * rewrite lookup_delete_eq. discriminate.
      * rewrite lookup_delete_ne by exact Hne. exact Hold.
    + unfold SessionStore.clear. cbn [fst]. rewrite lookup_empty. discriminate.
Qed.

(** X15.  [getAllSessions] lists each stored session once: no two
    entries have the same id, there are as many entries as [size] says,
    and the entries are exactly the summaries of the stored sessions, each
    under the key it is stored at, with the timestamp as [lastUpdate] and
    the current flag. *)
Theorem getAllSessions_lists_each_session_once (sessions : gmap string Session) :
  NoDup (sum_sessionId <$> SessionStore.getAllSessions sessions)
  /\ length (SessionStore.getAllSessions sessions) = SessionStore.size sessions
  /\ forall entry,
       entry ∈ SessionStore.getAllSessions sessions
       <-> exists session,
             sessions !! sum_sessionId entry = Some session
             /\ entry = mkSummary (sum_sessionId entry) (documentType session)
                                  (originalPath session) (outputFormat session)
                                  (timestamp session) (hasUpdate session).
Proof.
  unfold SessionStore.getAllSessions, SessionStore.size.
  split; [| split].
  - rewrite <- list_fmap_compose.
    apply (NoDup_fst_map_to_list sessions).
  - rewrite length_fmap. apply length_map_to_list.
  - intros entry. rewrite list_elem_of_fmap. split.
    + intros ([id session] & -> & Hin). apply elem_of_map_to_list in Hin.
      exists session. split; [exact Hin | reflexivity].
    + intros (session & Hlook & Heq).
      exists (sum_sessionId entry, session).
      split; [exact Heq | apply elem_of_map_to_list; exact Hlook].
Qed.

Lemma stored_under_own_id (cs : list StoreCall) id session :
  store_calls cs SessionStore.empty !! id = Some session -> sessionId session = id.
Proof.
  revert id session. induction cs as [| c cs IH] using rev_ind; intros id session.
  - unfold store_calls, SessionStore.empty. simpl. rewrite lookup_empty. discriminate.
  - rewrite store_calls_snoc.
    destruct c as [id' metadata bytes | id' | id' |]; cbn [store_call fst].
    + unfold SessionStore.updateSnapshot. cbn [fst].
      destruct (decide (id' = id)) as [-> | Hne].
      * rewrite lookup_insert_eq. intros [= <-]. reflexivity.
      * rewrite lookup_insert_ne by exact Hne. apply IH.
    + unfold SessionStore.markAsViewed.
      destruct (decide (id' = id)) as [-> | Hne].
      * rewrite lookup_alter_eq.
        destruct (store_calls cs SessionStore.empty !! id) as [old |] eqn:Hlook;
          [| discriminate].
        cbn [fmap option_fmap option_map]. intros [= <-].
        exact (IH id old Hlook).
      * rewrite lookup_alter_ne by exact Hne. apply IH.
    + unfold SessionStore.removeSession. cbn [fst].
      destruct (decide (id' = id)) as [-> | Hne].
      * rewrite lookup_delete_eq. discriminate.
      * rewrite lookup_delete_ne by exact Hne. apply IH.
    + unfold SessionStore.clear. cbn [fst]. rewrite lookup_empty. discriminate.
Qed.

(** A snapshot under a key that is not a string goes to the other
    entries of the Map, and leaves those under strings alone. *)
Lemma store_stray metadata bytes (h : Host) :
  (forall id, prop metadata "sessionId" <> JStr id) ->
  mkStray (prop metadata "sessionId") metadata bytes
    ∈ others (Main.store metadata bytes h)
  /\ sessions (Main.store metadata bytes h) = sessions h.
Proof.
  intros Hkey. unfold Main.store.
  destruct (prop metadata "sessionId") as [| | b | n | id | items | fields] eqn:Hprop;
    try (exfalso; apply (Hkey id); reflexivity);
    (split; [| reflexivity]); cbn [others set_others];
    (match goal with
     | |- context [Main.known ?key h] => destruct (Main.known key h) eqn:Hknown
     end;
     [ unfold Main.known in Hknown;
       apply existsb_exists in Hknown as (e & Hin & Hsame);
       apply list_elem_of_fmap; exists e;
       split; [rewrite Hsame; reflexivity | apply list_elem_of_In; exact Hin]
     | apply elem_of_app; right; apply list_elem_of_singleton; reflexivity ]).
Qed.

(** X25.  The list of sessions and the info route agree on the sessions
    whose id is a string.  In every store reached from the empty one by
    calls whose session ids are strings, each entry of [getAllSessions]
    names a session for which the info request is answered with 200 and
    with the same id, document type, path, format, timestamp and flag as
    the entry shows; and an info request is answered with 200 only for an
    id that the list has.  A snapshot whose session id is not a string,
    but has a text (the number 5, say), is kept in the Map under this id
    all the same, where the routes, which look up strings, do not find it:
    the entries under strings, and with them every answer of the info
    route, are as they were before it. *)
Theorem listed_sessions_have_info (cs : list StoreCall) :
  (forall entry,
      entry ∈ SessionStore.getAllSessions (store_calls cs SessionStore.empty) ->
      exists fields,
        Routes.getInfo (sum_sessionId entry) (store_calls cs SessionStore.empty)
        = mkReply 200 [] (JsonBody (JObj fields))
        /\ assoc "sessionId" fields = JStr (sum_sessionId entry)
        /\ assoc "documentType" fields = sum_documentType entry
        /\ assoc "originalPath" fields = sum_originalPath entry
        /\ assoc "outputFormat" fields = sum_outputFormat entry
        /\ assoc "timestamp" fields = sum_lastUpdate entry
        /\ assoc "hasUpdate" fields = JBool (sum_hasUpdate entry))
  /\ (forall id,
        reply_code (Routes.getInfo id (store_calls cs SessionStore.empty)) = 200 ->
        exists entry,
          entry ∈ SessionStore.getAllSessions (store_calls cs SessionStore.empty)
          /\ sum_sessionId entry = id)
  /\ (forall metadata bytes (h : Host),
        stringable (prop metadata "sessionId") = true ->
        (forall id, prop metadata "sessionId" <> JStr id) ->
        mkStray (prop metadata "sessionId") metadata bytes
          ∈ others (Main.handle (OnSnapshot metadata bytes) h).1
        /\ sessions (Main.handle (OnSnapshot metadata bytes) h).1 = sessions h
        /\ forall id,
             Routes.getInfo id (sessions (Main.handle (OnSnapshot metadata bytes) h).1)
             = Routes.getInfo id (sessions h)).
Proof.
  split; [| split].
  - intros entry Hin. unfold SessionStore.getAllSessions in Hin.
    apply list_elem_of_fmap in Hin as ([id session] & -> & Hin).
    apply elem_of_map_to_list in Hin. cbn [sum_sessionId fst snd].
    pose proof (stored_under_own_id cs id session Hin) as Hid.
    unfold Routes.getInfo, SessionStore.getSession. rewrite Hin.
    eexists. split; [reflexivity |]. rewrite Hid. repeat split.
  - intros id Hcode. unfold Routes.getInfo, SessionStore.getSession in Hcode.
    destruct (store_calls cs SessionStore.empty !! id) as [session |] eqn:Hlook;
      [| discriminate Hcode].
    exists (mkSummary id (documentType session) (originalPath session)
                      (outputFormat session) (timestamp session)
                      (hasUpdate session)).
    split; [| reflexivity].
    unfold SessionStore.getAllSessions. apply list_elem_of_fmap.
    exists (id, session). split; [reflexivity |].
    apply elem_of_map_to_list. exact Hlook.
  - intros metadata bytes h Htext Hkey.
    destruct (store_stray metadata bytes h Hkey) as [Hstray Hsame].
    cbn [Main.handle]. unfold Main.onSnapshot. rewrite Htext. cbn [negb].
    destruct (_ && _); cbn [fst];
      (split; [exact Hstray |]; split; [exact Hsame |];
       intros id; rewrite Hsame; reflexivity).
Qed.

End StoreFacts.

Section RouteFacts.

Context {E : Env}.

Variable encodeURIComponent : JsVal -> string + string.
Variable now : string.

Lemma markAsViewed_other id id' (sessions : gmap string Session) :
  id' <> id -> SessionStore.markAsViewed id sessions !! id' = sessions !! id'.
Proof. intros Hne. unfold SessionStore.markAsViewed. apply lookup_alter_ne. congruence. Qed.

Lemma markAsViewed_same id (sessions : gmap string Session) :
  SessionStore.markAsViewed id sessions !! id
  = SessionStore.mark_viewed <$> sessions !! id.
Proof. unfold SessionStore.markAsViewed. apply lookup_alter_eq. Qed.

Lemma length_zero_nil (b : Buffer) : (length b =? 0)%nat = false <-> b <> [].
Proof.
  destruct b as [| x b]; simpl; split; intros H; try congruence; try discriminate.
Qed.

(** X16.  The snapshot request changes nothing in the store but the flag
    [hasUpdate] of the session it names: every other session is as it
    was, and the session itself keeps all its other properties.  The reply
    is 404 exactly when the store has no such session; a reply of 200
    carries the stored bytes, which are not empty.  The flag is cleared
    whenever the session has data, also when the reply is then an error
    because the original path cannot be encoded. *)
Theorem getSnapshot_only_clears_the_flag id (sessions : gmap string Session) :
  let reply := (Routes.getSnapshot encodeURIComponent now id sessions).1.1 in
  let sessions' := (Routes.getSnapshot encodeURIComponent now id sessions).1.2 in
  (forall id', id' <> id -> sessions' !! id' = sessions !! id')
  /\ (SessionStore.mark_viewed <$> sessions' !! id)
     = (SessionStore.mark_viewed <$> sessions !! id)
  /\ (reply_code reply = 404 <-> sessions !! id = None)
  /\ (reply_code reply = 200 ->
      exists session,
        sessions !! id = Some session
        /\ data session <> []
        /\ reply_body reply = BytesBody (data session))
  /\ (forall session,
        sessions !! id = Some session -> data session <> [] ->
        sessions' !! id = Some (SessionStore.mark_viewed session))
  /\ (reply_code reply = 200 \/ reply_code reply = 404 \/ reply_code reply = 500).
Proof.
  unfold Routes.getSnapshot, SessionStore.getSession. cbv zeta.
  destruct (sessions !! id) as [session |] eqn:Hlook.
  - destruct (length (data session) =? 0)%nat eqn:Hdata.
    + cbn [fst snd reply_code reply_body]. rewrite Hlook.
      repeat split; try discriminate; try (intros; reflexivity); try tauto.
      * intros session' [= <-] Hne. apply length_zero_nil in Hne. congruence.
    + apply length_zero_nil in Hdata.
      assert (Hcommon :
        (forall id', id' <> id ->
                     SessionStore.markAsViewed id sessions !! id' = sessions !! id')
        /\ (SessionStore.mark_viewed <$> SessionStore.markAsViewed id sessions !! id)
           = (SessionStore.mark_viewed <$> Some session)
        /\ SessionStore.markAsViewed id sessions !! id
           = Some (SessionStore.mark_viewed session)).
      { split; [intros id' Hne; apply markAsViewed_other, Hne |].
        rewrite markAsViewed_same, Hlook. split; reflexivity. }
      destruct Hcommon as (Hother & Hsame & Hflag).
      unfold Routes.internal_error.
      destruct (encodeURIComponent _) as [message | path];
        [| destruct (Routes.call_toString _) as [message | sequence];
           [| destruct (stringable (mimeType session))]];
        cbn [fst snd reply_code reply_body];
        (split; [exact Hother |]; split; [exact Hsame |];
         split; [split; discriminate |];
         split; [first [discriminate
                       | intros _; exists session; repeat split; assumption] |];
         split; [intros session' [= <-] _; exact Hflag | tauto]).
  - cbn [fst snd reply_code reply_body]. rewrite Hlook.
    repeat split; try discriminate; try (intros; reflexivity); try tauto.
Qed.

Lemma run_app trace1 trace2 (h : Host) :
  Main.run (trace1 ++ trace2) h
  = ((Main.run trace2 (Main.run trace1 h).1).1,
     (Main.run trace1 h).2 ++ (Main.run trace2 (Main.run trace1 h).1).2).
Proof.
  revert h. induction trace1 as [| e trace1 IH]; intros h.
  - simpl. destruct (Main.run trace2 h). reflexivity.
  - cbn [app Main.run]. destruct (Main.handle e h) as [h1 a1].
    rewrite IH. destruct (Main.run trace1 h1) as [h2 a2]. cbn [fst snd].
    destruct (Main.run trace2 h2) as [h3 a3]. cbn [fst snd].
    rewrite app_assoc. reflexivity.
Qed.





End RouteFacts.

(** ** Sessions and the events of the parser *)

Section SessionEvents.

Context {E : Env}.

Lemma is_str_false_ne id id' : is_str (JStr id') id = false -> id' <> id.
Proof. simpl. intros H. apply String.eqb_neq, H. Qed.

Lemma handle_unconcerned id e (h : Host) :
  concerns id e = false ->
  sessions (Main.handle e h).1 !! id = sessions h !! id.
Proof.
  destruct e as [r | metadata d | | v | v | | | message];
    cbn [concerns Main.handle]; intros Hc; try reflexivity.
  - assert (Hstore : sessions (Main.store metadata d h) !! id = sessions h !! id).
    { rewrite store_sessions.
      destruct (prop metadata "sessionId") as [| | | | id' | |] eqn:Hprop;
        try reflexivity.
      unfold SessionStore.updateSnapshot. cbn [fst].
      apply lookup_insert_ne, is_str_false_ne, Hc. }
    unfold Main.onSnapshot.
    destruct (negb (stringable _)); [reflexivity |].
    destruct (_ && _); exact Hstore.
  - unfold Main.onSessionClosed.
    destruct (negb (stringable v)); [reflexivity |]. cbn [fst].
    rewrite remove_sessions.
    destruct v as [| | | | id' | |]; try reflexivity.
    unfold SessionStore.removeSession. cbn [fst].
    apply lookup_delete_ne, is_str_false_ne, Hc.
  - unfold Main.onSessionUnbound.
    destruct (negb (stringable v)); [reflexivity |]. cbn [fst].
    rewrite remove_sessions.
    destruct v as [| | | | id' | |]; try reflexivity.
    unfold SessionStore.removeSession. cbn [fst].
    apply lookup_delete_ne, is_str_false_ne, Hc.
  - unfold Main.onInitialized. destruct (negb (serverStarted h)); reflexivity.
Qed.

Lemma handle_concerned id e (h : Host) :
  concerns id e = true ->
  sessions (Main.handle e h).1 !! id
  = match e with
    | OnSnapshot metadata bytes => Some (SessionStore.snapshot_of id metadata bytes)
    | _ => None
    end.
Proof.
  destruct e as [r | metadata d | | v | v | | | message];
    cbn [concerns Main.handle]; intros Hc; try discriminate Hc.
  - apply is_str_inv in Hc. rewrite (onSnapshot_sessions id) by exact Hc.
    unfold SessionStore.updateSnapshot. cbn [fst]. apply lookup_insert_eq.
  - apply is_str_inv in Hc. subst v.
    cbn [Main.onSessionClosed stringable negb Main.remove fst sessions set_sessions].
    unfold SessionStore.removeSession. cbn [fst]. apply lookup_delete_eq.
  - apply is_str_inv in Hc. subst v.
    cbn [Main.onSessionUnbound stringable negb Main.remove fst sessions set_sessions].
    unfold SessionStore.removeSession. cbn [fst]. apply lookup_delete_eq.
Qed.

(** X18.  Sessions do not interfere.  After the callbacks of [main] have
    handled any trace of the parser, what the store holds under an id is
    decided by the last event of the trace about this id alone: the
    session built from the metadata and the bytes of the last snapshot for
    the id, nothing if the last event is the end of the session (closed or
    unbound), and what the store held before if no event is about the
    id.  Heartbeats, errors, the handshake and the shutdown change no
    session. *)
Theorem session_follows_its_last_event id (trace : list Effect) (h : Host) :
  sessions (Main.run trace h).1 !! id
  = match last (List.filter (concerns id) trace) with
    | None => sessions h !! id
    | Some (OnSnapshot metadata bytes) =>
        Some (SessionStore.snapshot_of id metadata bytes)
    | Some _ => None
    end.
Proof.
  revert h. induction trace as [| e trace IH]; intros h.
  - reflexivity.
  - cbn [Main.run List.filter].
    destruct (Main.handle e h) as [h1 a1] eqn:Hhandle.
    specialize (IH h1). destruct (Main.run trace h1) as [h2 a2]. cbn [fst] in *.
    rewrite IH.
    assert (Hh1 : h1 = (Main.handle e h).1) by (rewrite Hhandle; reflexivity).
    destruct (concerns id e) eqn:Hc.
    + rewrite last_cons.
      destruct (last (List.filter (concerns id) trace)) as [e' |]; [reflexivity |].
      rewrite Hh1, (handle_concerned id e h Hc).
      destruct e; try reflexivity; discriminate Hc.
    + destruct (last (List.filter (concerns id) trace)) as [e' |]; [reflexivity |].
      rewrite Hh1. apply handle_unconcerned, Hc.
Qed.

End SessionEvents.

(** ** The shared-memory transport *)

Section MmapFacts.

Context {E : Env}.

(** X19.  After [isMmapAvailable] has answered, [getMmapInfo] agrees
    with it: the answer is negative exactly when the strategy reported is
    [Unsupported] or [windowsAvailable] is false.  Before the first
    attempt to initialise, on Windows, [windowsAvailable] is reported true
    whether or not koffi can be loaded. *)
Theorem getMmapInfo_agrees_after_probe s :
  windows_coherent s ->
  exists available s1 info,
    isMmapAvailable s = (Ok available, s1, [])
    /\ getMmapInfo s1 = (Ok info, s1, [])
    /\ windows_coherent s1
    /\ (available = false
        <-> info_strategy info = "Unsupported"
            \/ info_windowsAvailable info = Some false)
    /\ (String.eqb currentPlatform "win32" = true ->
        windowsInitialized s = false ->
        exists info0, getMmapInfo s = (Ok info0, s, [])
                      /\ info_windowsAvailable info0 = Some true).
Proof.
  intros Hcoherent. unfold isMmapAvailable, getMmapInfo.
  rewrite !run_get_state.
  destruct (String.eqb currentPlatform "win32") eqn:Hwin.
  - unfold initializeWindowsAsync. rewrite run_get_state.
    destruct (windowsInitialized s) eqn:Hinit.
    + do 3 eexists. split; [reflexivity |]. rewrite run_get_state.
      split; [reflexivity |]. split; [exact Hcoherent |].
      cbn [info_strategy info_windowsAvailable].
      split; [| intros _ Hno; discriminate Hno].
      destruct (windowsInitError s); split; intros H;
        try reflexivity; try discriminate H; try (right; reflexivity);
        destruct H as [H | H]; discriminate H.
    + pose proof (Hcoherent Hinit) as Herr.
      destruct loadKoffi as [message |] eqn:Hkoffi.
      * do 3 eexists. split; [reflexivity |]. rewrite run_get_state.
        split; [reflexivity |].
        split; [intros Hno; discriminate Hno |].
        cbn [info_strategy info_windowsAvailable windowsInitError add_log
             set_windowsInit].
        split; [split; intros H; [right; reflexivity | reflexivity] |].
        intros _ _. rewrite ?run_get_state, ?Herr. eexists. split; reflexivity.
      * do 3 eexists. split; [reflexivity |]. rewrite run_get_state.
        split; [reflexivity |].
        split; [intros Hno; discriminate Hno |].
        cbn [info_strategy info_windowsAvailable windowsInitError add_log
             set_windowsInit].
        split; [split; intros H; [discriminate H | destruct H as [H | H]; discriminate H] |].
        intros _ _. rewrite ?run_get_state, ?Herr. eexists. split; reflexivity.
  - destruct (String.eqb currentPlatform "linux") eqn:Hlinux;
      [| destruct (String.eqb currentPlatform "darwin") eqn:Hdarwin];
      do 3 eexists; (split; [reflexivity |]); rewrite run_get_state;
      (split; [reflexivity |]); (split; [exact Hcoherent |]);
      cbn [info_strategy info_windowsAvailable];
      (split; [| intros Hno; discriminate Hno]);
      split; intros H; try discriminate H; try (left; reflexivity);
      try reflexivity; destruct H as [H | H]; discriminate H.
Qed.


End MmapFacts.

(** ** Progress and termination of the loop *)

Section Answers.

Context {E : Env}.

Lemma answers_ret {A} (a : A) : answers (mret a).
Proof. intros s. discriminate. Qed.

Lemma answers_throw {A} e : answers (throw e : Eff A).
Proof. intros s. discriminate. Qed.

Lemma answers_get_state : answers get_state.
Proof. intros s. discriminate. Qed.

Lemma answers_modify f : answers (modify f).
Proof. intros s. discriminate. Qed.

Lemma answers_log scope level text : answers (log scope level text).
Proof. intros s. discriminate. Qed.

Lemma answers_emit e : answers (emit e).
Proof. intros s. discriminate. Qed.

Lemma answers_bind {A B} (m : Eff A) (f : A -> Eff B) :
  answers m -> (forall a, answers (f a)) -> answers (m ≫= f).
Proof.
  intros Hm Hf s. specialize (Hm s).
  unfold mbind, Eff_bind, eff_bind.
  destruct (m s) as [[[a | e |] s1] t1]; simpl in *; try discriminate.
  - specialize (Hf a s1). destruct (f a s1) as [[r s2] t2]. exact Hf.
  - congruence.
Qed.

Lemma answers_try_catch {A} (m : Eff A) handler :
  answers m -> (forall e, answers (handler e)) -> answers (try_catch m handler).
Proof.
  intros Hm Hh s. specialize (Hm s). unfold try_catch.
  destruct (m s) as [[[a | e |] s1] t1]; simpl in *; try discriminate.
  - specialize (Hh e s1). destruct (handler e s1) as [[r s2] t2]. exact Hh.
  - congruence.
Qed.

Ltac answers_step :=
  first
    [ progress cbv zeta
    | apply answers_ret
    | apply answers_throw
    | apply answers_get_state
    | apply answers_modify
    | apply answers_log
    | apply answers_emit
    | match goal with
      | |- answers (if ?c then _ else _) => destruct c
      | |- answers (match ?x with _ => _ end) => destruct x
      | |- answers (mbind _ _) => apply answers_bind; [| intros ?]
      | |- answers (try_catch _ _) => apply answers_try_catch; [| intros ?]
      end ].

(** One parse attempt always ends: only the loop may go on for ever. *)
Lemma answers_parseMessage : answers parseMessage.
Proof.
  unfold parseMessage, dispatch, parseSnapshot, parseInline,
    acknowledge_and_deliver, calculateCRC32, getCRC32Table, consume_line, onError,
    handleCommand, sendCommandResult, sendInitializeResponse, getPackageInfo,
    sendAck, sendPong, readFromFile, readFromMmap, initializeWindowsAsync,
    readFromWindowsMmap, readFromLinuxMmap, readFromMacOSMmap, warn_size_mismatch,
    session_callback, to_string.
  repeat answers_step.
Qed.

End Answers.

Section Progress.

Import BufferFacts.

Context {E : Env}.

Lemma suffix_shorter (b b0 : Buffer) : b `suffix_of` b0 -> (length b <= length b0)%nat.
Proof. intros [k ->]. rewrite length_app. lia. Qed.

Lemma round_double_pos z : 0 < z -> 0 < round_double z.
Proof.
  intros Hz. unfold round_double.
  destruct (Z.leb_spec (Z.abs z) (2 ^ 53)) as [Hsmall | Hbig]; [exact Hz |].
  rewrite Z.abs_eq in * by lia.
  cbv zeta.
  set (e := Z.log2 z - 52).
  assert (Hlog : 53 <= Z.log2 z).
  { change 53 with (Z.log2 (2 ^ 53)). apply Z.log2_le_mono. lia. }
  assert (He : 0 < e) by (unfold e; lia).
  assert (Hpow : 0 < 2 ^ e) by (apply Z.pow_pos_nonneg; lia).
  assert (Hle : 2 ^ e <= z).
  { pose proof (Z.log2_spec z Hz) as [Hlow _].
    assert (2 ^ e <= 2 ^ Z.log2 z) by (apply Z.pow_le_mono_r; unfold e; lia).
    lia. }
  assert (Hq : 1 <= z / 2 ^ e).
  { apply Z.div_le_lower_bound; lia. }
  rewrite (Z.sgn_pos z Hz).
  destruct (_ <? _); [nia |].
  destruct (_ <? _); [nia |].
  destruct (Z.even _); nia.
Qed.

Lemma round_double_nonneg z : 0 <= z -> 0 <= round_double z.
Proof.
  intros Hz. destruct (Z.eq_dec z 0) as [-> | Hne]; [vm_compute; discriminate |].
  pose proof (round_double_pos z). lia.
Qed.

Lemma subarray_from_length (b : Buffer) k :
  0 <= k <= Z.of_nat (length b) ->
  length (subarray_from b k) = (length b - Z.to_nat k)%nat.
Proof.
  intros Hk. unfold subarray_from.
  replace k with (Z.of_nat (Z.to_nat k)) at 1 by lia.
  rewrite subarray_within by lia.
  rewrite length_take, length_drop. lia.
Qed.

Lemma negative_frame_head (line rest : Buffer) metadata :
  newline ∉ line ->
  decodeJSON line = inr metadata ->
  negative_frame (line ++ newline :: rest)
  = negb (nullish metadata)
    && is_str (prop metadata "type") "snapshot"
    && negb (is_str (resolved_transport metadata) "file")
    && negb (is_str (resolved_transport metadata) "mmap")
    && match readBigInt64LE (line ++ newline :: rest)
                            (Z.of_nat (length line) + 1) with
       | Some dataSize => dataSize <? 0
       | None => false
       end.
Proof.
  intros Hnl Hdec. unfold negative_frame. cbv zeta.
  rewrite indexOf_first by exact Hnl.
  destruct (Z.eqb_spec (Z.of_nat (length line)) (-1)); [lia |].
  rewrite subarray_prefix, Hdec. reflexivity.
Qed.

Lemma progress_of_attempt s s' t :
  parseMessage s = (Ok true, s', t) ->
  negative_frame (buffer s) = false ->
  (length (buffer s') < length (buffer s))%nat.
Proof.
  intros Hrun Hsized.
  destruct (buffer_cases (buffer s)) as [Hnone | (line & rest & Hbuf & Hnl)].
  { rewrite parseMessage_no_newline in Hrun by exact Hnone. discriminate Hrun. }
  set (P := shorter_than (length (buffer s))).
  assert (Hlog : forall l s0, P s0 -> P (add_log l s0)) by (intros l s0 H; exact H).
  assert (Hcut : P (set_buffer
                      (subarray_from (buffer s) (Z.of_nat (length line) + 1)) s)).
  { unfold P, shorter_than. cbn [buffer set_buffer].
    rewrite subarray_from_length by (rewrite Hbuf, length_app; simpl; lia).
    rewrite Hbuf, length_app. simpl. lia. }
  change (P s').
  replace s' with (parseMessage s).1.2 by (rewrite Hrun; reflexivity).
  assert (Hok : (parseMessage s).1.1 = Ok true) by (rewrite Hrun; reflexivity).
  rewrite (parseMessage_head line rest s Hbuf Hnl) in Hok |- *.
  destruct (decodeJSON line) as [message | metadata] eqn:Hdec.
  { unfold onError. rewrite run_emit_then.
    apply front_consumed_then; [exact Hcut | apply preserves_ret]. }
  destruct (nullish metadata) eqn:Hnull; [discriminate Hok |].
  destruct (stringable (prop metadata "type")) eqn:Htext;
    [rewrite run_to_string_ok in Hok |- * by exact Htext
    | rewrite run_to_string_throw in Hok by exact Htext; discriminate Hok].
  rewrite run_log_then in Hok |- *.
  rewrite Hbuf, (negative_frame_head line rest metadata Hnl Hdec), Hnull in Hsized.
  apply (front_dispatch_consumed P); try (intros; assumption).
  intros Hsnapshot Hfile Hmmap.
  rewrite Hsnapshot, Hfile, Hmmap in Hsized. cbn [negb andb] in Hsized.
  apply (front_parseInline_cut P); try (intros; assumption).
  intros size Hread Hfits.
  cbn [buffer add_log] in Hread, Hfits |- *.
  rewrite <- Hbuf, Hread in Hsized.
  apply Z.ltb_ge in Hsized, Hfits.
  assert (Htotal : 0 < js_add (Z.of_nat (length line) + 1 + 8)
                              (Number_of_BigInt size)).
  { unfold js_add, Number_of_BigInt. apply round_double_pos.
    pose proof (round_double_nonneg size Hsized). lia. }
  unfold P, shorter_than. cbn [buffer set_buffer add_log].
  rewrite subarray_from_length by lia.
  assert (0 < length (buffer s))%nat by (rewrite Hbuf, length_app; simpl; lia).
  lia.
Qed.

(** X21.  Every parse attempt that asks for another one has consumed at
    least one byte, unless the buffer starts with an inline snapshot whose
    length prefix is below zero; and what it leaves in the buffer is the
    end of what was there. *)
Theorem every_attempt_makes_progress s s' t :
  parseMessage s = (Ok true, s', t) ->
  negative_frame (buffer s) = false ->
  (length (buffer s') < length (buffer s))%nat
  /\ buffer s' `suffix_of` buffer s.
Proof.
  intros Hrun Hsized. split; [exact (progress_of_attempt s s' t Hrun Hsized) |].
  pose proof (front_parseMessage (buffer_within (buffer s))) as Hfront.
  unfold preserves, buffer_within in Hfront.
  specialize (fun H1 H2 H3 H4 H5 H6 => Hfront H1 H2 H3 H4 H5 H6 s (reflexivity _)).
  rewrite Hrun in Hfront. apply Hfront; try (intros; assumption).
  intros b s0 Hb Hs0. cbn [buffer set_buffer]. etrans; eassumption.
Qed.

Lemma well_sized_suffix (b b0 : Buffer) :
  well_sized b0 = true -> b `suffix_of` b0 -> negative_frame b = false.
Proof.
  intros Hall [k ->]. unfold well_sized in Hall. rewrite forallb_forall in Hall.
  specialize (Hall (length k)).
  rewrite drop_app_length in Hall.
  apply negb_true_iff, Hall, in_seq. rewrite length_app. lia.
Qed.

Lemma loop_ends (b0 : Buffer) fuel s :
  well_sized b0 = true ->
  buffer s `suffix_of` b0 ->
  (length (buffer s) < fuel)%nat ->
  (processLoop fuel s).1.1 <> OutOfFuel.
Proof.
  intros Hsized. revert s. induction fuel as [| fuel IH]; intros s Hsuffix Hfuel;
    [lia |].
  cbn [processLoop]. unfold mbind, Eff_bind, eff_bind.
  pose proof (answers_parseMessage s) as Hanswers.
  pose proof (buffer_within_loop b0 1 s Hsuffix) as Hwithin.
  destruct (parseMessage s) as [[[again | e |] s1] t1] eqn:Hrun;
    [| discriminate | exfalso; apply Hanswers; reflexivity].
  destruct again; [| discriminate].
  assert (Hs1 : buffer s1 `suffix_of` b0).
  { pose proof (front_parseMessage (buffer_within b0)) as Hfront.
    unfold preserves, buffer_within in Hfront.
    specialize (fun H1 H2 H3 H4 H5 H6 => Hfront H1 H2 H3 H4 H5 H6 s Hsuffix).
    rewrite Hrun in Hfront. apply Hfront; try (intros; assumption).
    intros b s0 Hb Hs0. cbn [buffer set_buffer]. etrans; eassumption. }
  assert (Hshorter : (length (buffer s1) < length (buffer s))%nat).
  { apply (progress_of_attempt s s1 t1 Hrun).
    apply (well_sized_suffix _ b0 Hsized Hsuffix). }
  specialize (IH s1 Hs1 ltac:(lia)).
  destruct (processLoop fuel s1) as [[r s2] t2]. exact IH.
Qed.

(** X22.  The loop of [processData] ends on all data in which no
    length prefix below zero can come to be read: when no suffix of the
    buffered bytes and the new data starts with such a frame, the call
    returns or throws within as many iterations as there are bytes, plus
    one. *)
Theorem processData_ends fuel (data : Buffer) s :
  well_sized (buffer s ++ data) = true ->
  (length (buffer s ++ data) < fuel)%nat ->
  (processData fuel data s).1.1 <> OutOfFuel
  /\ (onData fuel data s).1.1 = Ok tt.
Proof.
  intros Hsized Hfuel.
  assert (Hloop : (processData fuel data s).1.1 <> OutOfFuel).
  { rewrite processData_run.
    apply (loop_ends (buffer s ++ data)); [exact Hsized | reflexivity | exact Hfuel]. }
  split; [exact Hloop |].
  unfold onData, try_catch, onError, emit.
  destruct (processData fuel data s) as [[[[] | e |] s1] t1];
    [reflexivity | reflexivity | exfalso; apply Hloop; reflexivity].
Qed.

End Progress.

(** ** What a parse attempt depends on *)

Create HintDb sim.

Section Sim.

Context {E : Env}.

Variable R : State -> State -> Prop.

Hypothesis R_crc32Table : forall s s2, R s s2 -> crc32Table s = crc32Table s2.
Hypothesis R_packageInfo : forall s s2, R s s2 -> packageInfo s = packageInfo s2.
Hypothesis R_windowsInitialized :
  forall s s2, R s s2 -> windowsInitialized s = windowsInitialized s2.
Hypothesis R_windowsInitError :
  forall s s2, R s s2 -> windowsInitError s = windowsInitError s2.
Hypothesis R_add_log : forall l s s2, R s s2 -> R (add_log l s) (add_log l s2).
Hypothesis R_set_handshakeComplete :
  forall s s2, R s s2 -> R (set_handshakeComplete true s) (set_handshakeComplete true s2).
Hypothesis R_set_crc32Table :
  forall t s s2, R s s2 -> R (set_crc32Table t s) (set_crc32Table t s2).
Hypothesis R_set_packageInfo :
  forall p s s2, R s s2 -> R (set_packageInfo p s) (set_packageInfo p s2).
Hypothesis R_set_windowsInit :
  forall e s s2, R s s2 -> R (set_windowsInit e s) (set_windowsInit e s2).

Lemma sim_ret {A} (a : A) : sim R (mret a).
Proof. intros s s2 H. repeat split. exact H. Qed.

Lemma sim_throw {A} e : sim R (throw e : Eff A).
Proof. intros s s2 H. repeat split. exact H. Qed.

Lemma sim_emit e : sim R (emit e).
Proof. intros s s2 H. repeat split. exact H. Qed.

Lemma sim_modify f :
  (forall s s2, R s s2 -> R (f s) (f s2)) -> sim R (modify f).
Proof. intros Hf s s2 H. repeat split. apply Hf, H. Qed.

Lemma sim_log scope level text : sim R (log scope level text).
Proof. apply sim_modify. intros s s2. apply R_add_log. Qed.

Lemma sim_bind {A B} (m : Eff A) (f : A -> Eff B) :
  sim R m -> (forall a, sim R (f a)) -> sim R (m ≫= f).
Proof.
  intros Hm Hf s s2 H. destruct (Hm s s2 H) as (Hr & Ht & HR).
  unfold mbind, Eff_bind, eff_bind.
  destruct (m s) as [[r1 s1] t1], (m s2) as [[r2 s1'] t1'].
  cbn [fst snd] in Hr, Ht, HR. subst r2 t1'.
  destruct r1 as [a | e |]; cbn [fst snd]; try (repeat split; exact HR).
  destruct (Hf a s1 s1' HR) as (Hr2 & Ht2 & HR2).
  destruct (f a s1) as [[r3 s3] t3], (f a s1') as [[r4 s4] t4].
  cbn [fst snd] in *. subst. repeat split. exact HR2.
Qed.

Lemma sim_try_catch {A} (m : Eff A) handler :
  sim R m -> (forall e, sim R (handler e)) -> sim R (try_catch m handler).
Proof.
  intros Hm Hh s s2 H. destruct (Hm s s2 H) as (Hr & Ht & HR).
  unfold try_catch.
  destruct (m s) as [[r1 s1] t1], (m s2) as [[r2 s1'] t1'].
  cbn [fst snd] in Hr, Ht, HR. subst r2 t1'.
  destruct r1 as [a | e |]; cbn [fst snd]; try (repeat split; exact HR).
  destruct (Hh e s1 s1' HR) as (Hr2 & Ht2 & HR2).
  destruct (handler e s1) as [[r3 s3] t3], (handler e s1') as [[r4 s4] t4].
  cbn [fst snd] in *. subst. repeat split. exact HR2.
Qed.

Lemma sim_to_string v : sim R (to_string v).
Proof.
  unfold to_string. destruct (stringable v); [apply sim_ret | apply sim_throw].
Qed.

Lemma sim_session_callback e id : sim R (session_callback e id).
Proof.
  unfold session_callback.
  apply sim_bind; [apply sim_emit | intros _].
  apply sim_bind; [apply sim_to_string | intros _]. apply sim_ret.
Qed.

Ltac sim_step :=
  first
    [ solve [auto with sim]
    | progress cbv zeta
    | apply sim_to_string
    | apply sim_session_callback
    | apply sim_ret
    | apply sim_throw
    | apply sim_emit
    | apply sim_log
    | apply sim_modify; intros ? ?; solve [auto]
    | match goal with
      | |- sim _ (if ?c then _ else _) => destruct c
      | |- sim _ (match ?x with _ => _ end) => destruct x
      | |- sim _ (mbind _ _) => apply sim_bind; [| intros ?]
      | |- sim _ (try_catch _ _) => apply sim_try_catch; [| intros ?]
      end ].

Ltac simulate := repeat sim_step.

Lemma sim_getPackageInfo : sim R getPackageInfo.
Proof.
  intros s s2 H. unfold getPackageInfo. rewrite !run_get_state.
  rewrite <- (R_packageInfo s s2 H).
  assert (Hk : sim R (if truthy (packageInfo s) then mret (packageInfo s)
                      else match readPackageJson with
                           | inl message => throw message
                           | inr pkg => modify (set_packageInfo pkg);; mret pkg
                           end)) by simulate.
  exact (Hk s s2 H).
Qed.

Lemma sim_initializeWindowsAsync : sim R initializeWindowsAsync.
Proof.
  intros s s2 H. unfold initializeWindowsAsync. rewrite !run_get_state.
  rewrite <- (R_windowsInitialized s s2 H), <- (R_windowsInitError s s2 H).
  destruct (windowsInitialized s); [repeat split; exact H |].
  assert (Hk : sim R (match loadKoffi with
                      | None =>
                          modify (set_windowsInit None);;
                          log "transport:mmap" Info
                              "Windows shared memory support initialized with koffi";;
                          mret true
                      | Some message =>
                          modify (set_windowsInit (Some message));;
                          log "transport:mmap" Warn
                              ("Windows shared memory not available: " +:+ message);;
                          log "transport:mmap" Warn
                              "Install koffi package for Windows mmap support: npm install koffi";;
                          mret false
                      end)) by simulate.
  exact (Hk s s2 H).
Qed.

Lemma sim_getCRC32Table : sim R getCRC32Table.
Proof.
  intros s s2 H. unfold getCRC32Table. rewrite !run_get_state.
  rewrite <- (R_crc32Table s s2 H).
  destruct (crc32Table s); [repeat split; exact H |].
  assert (Hk : sim R (modify (set_crc32Table (Some CRC.generate));;
                      mret CRC.generate)) by simulate.
  exact (Hk s s2 H).
Qed.

#[local] Hint Resolve sim_getPackageInfo sim_initializeWindowsAsync
  sim_getCRC32Table : sim.

Lemma sim_sendInitializeResponse : sim R sendInitializeResponse.
Proof. unfold sendInitializeResponse. simulate. Qed.

Lemma sim_sendAck v : sim R (sendAck v).
Proof. unfold sendAck. simulate. Qed.

Lemma sim_sendPong : sim R sendPong.
Proof. unfold sendPong. simulate. Qed.

Lemma sim_handleCommand metadata : sim R (handleCommand metadata).
Proof. unfold handleCommand, sendCommandResult. simulate. Qed.

Lemma sim_readFromFile path : sim R (readFromFile path).
Proof. unfold readFromFile. simulate. Qed.

Lemma sim_readFromMmap name size path : sim R (readFromMmap name size path).
Proof.
  unfold readFromMmap, readFromWindowsMmap, readFromLinuxMmap, readFromMacOSMmap,
    warn_size_mismatch.
  simulate.
Qed.

Lemma sim_calculateCRC32 bytes : sim R (calculateCRC32 bytes).
Proof. unfold calculateCRC32. simulate. Qed.

Lemma sim_onError message : sim R (onError message).
Proof. unfold onError. simulate. Qed.

#[local] Hint Resolve sim_sendInitializeResponse sim_sendAck sim_sendPong
  sim_handleCommand sim_readFromFile sim_readFromMmap sim_calculateCRC32
  sim_onError : sim.

Lemma sim_acknowledge_and_deliver metadata bytes :
  sim R (acknowledge_and_deliver metadata bytes).
Proof. unfold acknowledge_and_deliver. simulate. Qed.
#[local] Hint Resolve sim_acknowledge_and_deliver : sim.

(** The line is cut off on both sides, and what follows does the same. *)
Lemma sim_consumed_then {A} (post : Eff A) i s s2 :
  R (set_buffer (subarray_from (buffer s) (i + 1)) s)
    (set_buffer (subarray_from (buffer s2) (i + 1)) s2) ->
  sim R post ->
  ((consume_line i;; post) s).1.1 = ((consume_line i;; post) s2).1.1
  /\ ((consume_line i;; post) s).2 = ((consume_line i;; post) s2).2
  /\ R ((consume_line i;; post) s).1.2 ((consume_line i;; post) s2).1.2.
Proof.
  intros Hcut Hpost. unfold consume_line. rewrite !run_modify_then.
  exact (Hpost _ _ Hcut).
Qed.

Lemma sim_parseInline_cut metadata i s s2 :
  R s s2 ->
  (parseInline metadata i s).1.1 <> Ok false ->
  (Z.of_nat (length (buffer s)) <? i + 1 + 8) = false ->
  (Z.of_nat (length (buffer s2)) <? i + 1 + 8) = false ->
  readBigInt64LE (buffer s2) (i + 1) = readBigInt64LE (buffer s) (i + 1) ->
  (forall size,
      readBigInt64LE (buffer s) (i + 1) = Some size ->
      (Z.of_nat (length (buffer s))
       <? js_add (i + 1 + 8) (Number_of_BigInt size)) = false ->
      (Z.of_nat (length (buffer s2))
       <? js_add (i + 1 + 8) (Number_of_BigInt size)) = false
      /\ subarray (buffer s2) (i + 1 + 8) (js_add (i + 1 + 8) (Number_of_BigInt size))
         = subarray (buffer s) (i + 1 + 8) (js_add (i + 1 + 8) (Number_of_BigInt size))
      /\ R (set_buffer
              (subarray_from (buffer s) (js_add (i + 1 + 8) (Number_of_BigInt size))) s)
           (set_buffer
              (subarray_from (buffer s2) (js_add (i + 1 + 8) (Number_of_BigInt size)))
              s2)) ->
  (parseInline metadata i s).1.1 = (parseInline metadata i s2).1.1
  /\ (parseInline metadata i s).2 = (parseInline metadata i s2).2
  /\ R (parseInline metadata i s).1.2 (parseInline metadata i s2).1.2.
Proof.
  intros HR Hok Hlen Hlen2 Hread Hcut. revert Hok.
  unfold parseInline. rewrite !run_get_state. cbv zeta.
  rewrite Hlen, Hlen2, Hread.
  destruct (readBigInt64LE (buffer s) (i + 1)) as [size |] eqn:Hsize;
    [| intros _; repeat split; exact HR].
  destruct (Z.of_nat (length (buffer s))
            <? js_add (i + 1 + 8) (Number_of_BigInt size)) eqn:Hfits;
    [intros Hok; exfalso; apply Hok; reflexivity |].
  intros _. destruct (Hcut size eq_refl Hfits) as (Hfits2 & Hdata & Hstate).
  rewrite Hfits2, Hdata.
  match goal with
  | |- ((modify (set_buffer ?b) ≫= ?f) s).1.1 = _ /\ _ =>
      assert (Hrest : forall a, sim R (f a)) by (intros a; simulate);
      rewrite !run_modify_then; exact (Hrest tt _ _ Hstate)
  end.
Qed.

Lemma sim_dispatch_consumed metadata i s s2 :
  R s s2 ->
  R (set_buffer (subarray_from (buffer s) (i + 1)) s)
    (set_buffer (subarray_from (buffer s2) (i + 1)) s2) ->
  (is_str (prop metadata "type") "snapshot" = true ->
   is_str (resolved_transport metadata) "file" = false ->
   is_str (resolved_transport metadata) "mmap" = false ->
   (parseInline metadata i s).1.1 = (parseInline metadata i s2).1.1
   /\ (parseInline metadata i s).2 = (parseInline metadata i s2).2
   /\ R (parseInline metadata i s).1.2 (parseInline metadata i s2).1.2) ->
  (dispatch metadata i s).1.1 = (dispatch metadata i s2).1.1
  /\ (dispatch metadata i s).2 = (dispatch metadata i s2).2
  /\ R (dispatch metadata i s).1.2 (dispatch metadata i s2).1.2.
Proof.
  intros HR Hcut Hinline. unfold dispatch. cbv zeta.
  repeat match goal with
  | |- ((if is_str _ "snapshot" then _ else _) _).1.1 = _ /\ _ =>
      destruct (is_str _ "snapshot") eqn:Hsnapshot;
        [unfold parseSnapshot; cbv zeta;
         destruct (is_str _ "file") eqn:Hfile;
           [apply sim_consumed_then; [exact Hcut | simulate] |];
         destruct (is_str _ "mmap") eqn:Hmmap;
           [apply sim_consumed_then; [exact Hcut | simulate] |];
         apply Hinline; reflexivity |]
  | |- ((if ?c then _ else _) _).1.1 = _ /\ _ =>
      destruct c; [apply sim_consumed_then; [exact Hcut | simulate] |]
  end.
  destruct (stringable (prop metadata "messageType")) eqn:Htext.
  - rewrite !run_to_string_ok by exact Htext. rewrite !run_log_then.
    apply sim_consumed_then; [| simulate].
    exact (R_add_log _ _ _ Hcut).
  - rewrite !run_to_string_throw by exact Htext. repeat split. exact HR.
Qed.

Lemma sim_out_of_fuel {A} : sim R (out_of_fuel : Eff A).
Proof. intros s s2 H. repeat split. exact H. Qed.

(** When the two states have the same buffer, a whole parse attempt, and
    the loop, do the same on them. *)
Hypothesis R_buffer : forall s s2, R s s2 -> buffer s = buffer s2.
Hypothesis R_set_buffer :
  forall b s s2, R s s2 -> R (set_buffer b s) (set_buffer b s2).

Lemma sim_consume_line i : sim R (consume_line i).
Proof.
  intros s s2 H. unfold consume_line, modify. cbn [fst snd].
  rewrite <- (R_buffer s s2 H). repeat split. apply R_set_buffer, H.
Qed.
#[local] Hint Resolve sim_consume_line : sim.

Lemma sim_parseInline metadata i : sim R (parseInline metadata i).
Proof.
  intros s s2 H. unfold parseInline. rewrite !run_get_state. cbv zeta.
  rewrite <- (R_buffer s s2 H).
  destruct (_ <? _); [repeat split; exact H |].
  destruct (readBigInt64LE _ _) as [size |]; [| repeat split; exact H].
  destruct (_ <? _); [repeat split; exact H |].
  match goal with
  | |- ((modify (set_buffer ?b) ≫= ?f) s).1.1 = _ /\ _ =>
      assert (Hrest : forall a, sim R (f a)) by (intros a; simulate);
      rewrite !run_modify_then; apply (Hrest tt); apply R_set_buffer, H
  end.
Qed.
#[local] Hint Resolve sim_parseInline : sim.

Lemma sim_parseSnapshot metadata i : sim R (parseSnapshot metadata i).
Proof. unfold parseSnapshot. simulate. Qed.
#[local] Hint Resolve sim_parseSnapshot : sim.

Lemma sim_dispatch metadata i : sim R (dispatch metadata i).
Proof. unfold dispatch. simulate. Qed.
#[local] Hint Resolve sim_dispatch : sim.

Lemma sim_parseMessage : sim R parseMessage.
Proof.
  intros s s2 H. unfold parseMessage. rewrite !run_get_state. cbv zeta.
  rewrite <- (R_buffer s s2 H).
  destruct (_ =? _); [repeat split; exact H |].
  destruct (decodeJSON _) as [message | metadata].
  - match goal with
    | |- (?m s).1.1 = _ /\ _ =>
        assert (Hm : sim R m) by simulate; exact (Hm s s2 H)
    end.
  - destruct (nullish metadata); [repeat split; exact H |].
    match goal with
    | |- (?m s).1.1 = _ /\ _ =>
        assert (Hm : sim R m) by simulate; exact (Hm s s2 H)
    end.
Qed.
#[local] Hint Resolve sim_parseMessage : sim.

Lemma sim_processLoop fuel : sim R (processLoop fuel).
Proof.
  induction fuel as [| fuel IH]; cbn [processLoop];
    [apply sim_out_of_fuel | simulate].
Qed.

End Sim.

Section LaterBytes.

Import BufferFacts.

Context {E : Env}.

Lemma subarray_app (b more : Buffer) a c :
  0 <= a <= Z.of_nat (length b) -> 0 <= c <= Z.of_nat (length b) ->
  subarray (b ++ more) a c = subarray b a c.
Proof.
  intros Ha Hc. unfold subarray, clamp_index. rewrite length_app.
  destruct (Z.ltb_spec a 0); [lia |]. destruct (Z.ltb_spec c 0); [lia |].
  rewrite !Z.min_l by lia.
  rewrite drop_app_le by lia.
  apply take_app_le. rewrite length_drop. lia.
Qed.

Lemma subarray_from_app (b more : Buffer) k :
  0 <= k <= Z.of_nat (length b) ->
  subarray_from (b ++ more) k = subarray_from b k ++ more.
Proof.
  intros Hk. unfold subarray_from, subarray, clamp_index. rewrite length_app.
  destruct (Z.ltb_spec k 0); [lia |].
  destruct (Z.ltb_spec (Z.of_nat (length b + length more)) 0); [lia |].
  destruct (Z.ltb_spec (Z.of_nat (length b)) 0); [lia |].
  rewrite !Z.min_l by lia.
  rewrite drop_app_le by lia.
  rewrite !take_ge by (rewrite ?length_app, !length_drop; lia).
  reflexivity.
Qed.

Lemma readBigInt64LE_app (b more : Buffer) offset :
  0 <= offset -> offset + 8 <= Z.of_nat (length b) ->
  readBigInt64LE (b ++ more) offset = readBigInt64LE b offset.
Proof.
  intros Hoff Hfit. unfold readBigInt64LE. rewrite length_app.
  destruct (Z.ltb_spec offset 0); [lia |].
  destruct (Z.ltb_spec (Z.of_nat (length b + length more) - 8) offset); [lia |].
  destruct (Z.ltb_spec (Z.of_nat (length b) - 8) offset); [lia |].
  cbn [orb]. rewrite drop_app_le by lia.
  rewrite take_app_le by (rewrite length_drop; lia). reflexivity.
Qed.

Lemma cut_line (line rest : Buffer) :
  subarray_from (line ++ newline :: rest) (Z.of_nat (length line) + 1) = rest.
Proof.
  replace (Z.of_nat (length line) + 1) with (Z.of_nat (length (line ++ [newline])))
    by (rewrite length_app; simpl; lia).
  replace (line ++ newline :: rest) with ((line ++ [newline]) ++ rest)
    by (rewrite <- app_assoc; reflexivity).
  apply subarray_from_suffix.
Qed.

Lemma parseInline_needs_prefix metadata i s :
  (parseInline metadata i s).1.1 <> Ok false ->
  (Z.of_nat (length (buffer s)) <? i + 1 + 8) = false.
Proof.
  unfold parseInline. rewrite run_get_state. cbv zeta.
  destruct (_ <? _); [| reflexivity].
  intros H. exfalso. apply H. reflexivity.
Qed.

Ltac extended_side :=
  solve [unfold extended; intros; subst; reflexivity].

Lemma later_bytes (more : Buffer) s :
  (parseMessage s).1.1 <> Ok false ->
  negative_frame (buffer s) = false ->
  (parseMessage s).1.1 = (parseMessage (set_buffer (buffer s ++ more) s)).1.1
  /\ (parseMessage s).2 = (parseMessage (set_buffer (buffer s ++ more) s)).2
  /\ extended more (parseMessage s).1.2
              (parseMessage (set_buffer (buffer s ++ more) s)).1.2.
Proof.
  intros Hnot Hsized.
  destruct (buffer_cases (buffer s)) as [Hnone | (line & rest & Hbuf & Hnl)].
  { rewrite parseMessage_no_newline in Hnot by exact Hnone.
    exfalso. apply Hnot. reflexivity. }
  set (s2 := set_buffer (buffer s ++ more) s).
  assert (Hbuf2 : buffer s2 = line ++ newline :: (rest ++ more)).
  { unfold s2. cbn [buffer set_buffer]. rewrite Hbuf, <- app_assoc. reflexivity. }
  assert (Hcut : extended more
                   (set_buffer (subarray_from (buffer s) (Z.of_nat (length line) + 1)) s)
                   (set_buffer (subarray_from (buffer s2) (Z.of_nat (length line) + 1))
                               s2)).
  { rewrite Hbuf, Hbuf2, !cut_line. reflexivity. }
  revert Hnot.
  rewrite (parseMessage_head line rest s Hbuf Hnl),
    (parseMessage_head line (rest ++ more) s2 Hbuf2 Hnl).
  rewrite Hbuf in Hsized.
  destruct (decodeJSON line) as [message | metadata] eqn:Hdec.
  { intros _. unfold onError, consume_line. eff_unfold. cbn [fst snd].
    repeat split. exact Hcut. }
  rewrite (negative_frame_head line rest metadata Hnl Hdec) in Hsized.
  destruct (nullish metadata) eqn:Hnull; [intros _; repeat split |].
  destruct (stringable (prop metadata "type")) eqn:Htext;
    [rewrite !run_to_string_ok by exact Htext
    | rewrite !run_to_string_throw by exact Htext; intros _; repeat split].
  rewrite !run_log_then. intros Hnot.
  apply (sim_dispatch_consumed (extended more)); try extended_side.
  { unfold extended in Hcut |- *.
    match goal with
    | |- set_buffer _ (add_log ?l _) = _ =>
        apply (f_equal (add_log l)) in Hcut; exact Hcut
    end. }
  intros Hsnapshot Hfile Hmmap.
  rewrite Hsnapshot, Hfile, Hmmap in Hsized. cbn [negb andb] in Hsized.
  rewrite dispatch_snapshot, parseSnapshot_inline in Hnot by assumption.
  pose proof (parseInline_needs_prefix _ _ _ Hnot) as Hprefix.
  cbn [buffer add_log] in Hprefix. rewrite Hbuf in Hprefix.
  apply Z.ltb_ge in Hprefix.
  assert (Hshape : buffer s2 = buffer s ++ more) by reflexivity.
  apply (sim_parseInline_cut (extended more)); try extended_side;
    cbn [buffer add_log]; try exact Hnot.
  - rewrite Hbuf. apply Z.ltb_ge. lia.
  - rewrite Hshape, length_app, Hbuf. apply Z.ltb_ge. lia.
  - rewrite Hshape. apply readBigInt64LE_app; rewrite ?Hbuf; lia.
  - intros size Hread Hfits.
    rewrite <- Hbuf, Hread in Hsized.
    apply Z.ltb_ge in Hsized, Hfits.
    assert (Htotal : 0 < js_add (Z.of_nat (length line) + 1 + 8)
                                (Number_of_BigInt size)).
    { unfold js_add, Number_of_BigInt. apply round_double_pos.
      pose proof (round_double_nonneg size Hsized). lia. }
    rewrite Hshape. split; [| split].
    + rewrite length_app. apply Z.ltb_ge.
      etrans; [exact Hfits | rewrite Nat2Z.inj_add; lia].
    + apply subarray_app; [rewrite Hbuf; lia | lia].
    + rewrite subarray_from_app by lia. reflexivity.
Qed.

(** X23.  A parse attempt looks only at the frame at the head of the
    buffer.  When it handles a message, or throws, it does just the same
    with any bytes added at the end of the buffer, which it leaves there:
    the same result, the same effects, the same state but for these
    bytes.  (A frame whose length prefix is below zero is outside this: its
    slices are counted from the end of the buffer.) *)
Theorem later_bytes_do_not_matter (more : Buffer) r s s' t :
  parseMessage s = (r, s', t) ->
  r <> Ok false ->
  negative_frame (buffer s) = false ->
  parseMessage (set_buffer (buffer s ++ more) s)
  = (r, set_buffer (buffer s' ++ more) s', t).
Proof.
  intros Hrun Hnot Hsized.
  destruct (later_bytes more s) as (Hr & Ht & Hs).
  - rewrite Hrun. exact Hnot.
  - exact Hsized.
  - rewrite Hrun in Hr, Ht, Hs. cbn [fst snd] in Hr, Ht, Hs.
    destruct (parseMessage (set_buffer (buffer s ++ more) s)) as [[r2 s2] t2].
    cbn [fst snd] in Hr, Ht, Hs. unfold extended in Hs. subst. reflexivity.
Qed.

End LaterBytes.

(** ** Chunks *)

Section Chunking.

Import BufferFacts.

Context {E : Env}.

Lemma attempt_false s s' t :
  parseMessage s = (Ok false, s', t) ->
  t = [] /\ forget_log s' = forget_log s.
Proof.
  unfold parseMessage. rewrite run_get_state. cbv zeta.
  destruct (_ =? _).
  { intros [= <- <-]. repeat split. }
  destruct (decodeJSON _) as [message | metadata].
  { intros Hrun. exfalso. revert Hrun. apply consumes_contradiction.
    do 2 (apply consumes_bind; intros _). apply consumes_ret_true. }
  destruct (nullish metadata); [discriminate |].
  destruct (stringable (prop metadata "type")) eqn:Htext;
    [rewrite run_to_string_ok by exact Htext
    | rewrite run_to_string_throw by exact Htext; discriminate].
  rewrite run_log_then. intros Hrun.
  apply dispatch_false in Hrun as [-> ->]. repeat split.
Qed.

Ltac same_fields :=
  unfold same_but_log; intros;
  repeat match goal with
         | s : State |- _ => destruct s
         end;
  cbv [forget_log add_log set_buffer set_handshakeComplete set_crc32Table
       set_packageInfo set_windowsInit buffer started handshakeComplete
       crc32Table packageInfo windowsInitialized windowsInitError logged] in *;
  congruence.

Lemma same_but_log_sim_parseMessage : sim same_but_log parseMessage.
Proof. apply sim_parseMessage; same_fields. Qed.

Lemma same_but_log_sim_processLoop fuel : sim same_but_log (processLoop fuel).
Proof. apply sim_processLoop; same_fields. Qed.

Lemma same_but_log_extended (more : Buffer) s s2 :
  forget_log s = forget_log s2 ->
  same_but_log (set_buffer (buffer s ++ more) s) (set_buffer (buffer s2 ++ more) s2).
Proof. same_fields. Qed.

(** More fuel than a run needs changes nothing. *)
Lemma fuel_mono fuel s :
  (processLoop fuel s).1.1 <> OutOfFuel ->
  processLoop (S fuel) s = processLoop fuel s.
Proof.
  revert s. induction fuel as [| fuel IH]; intros s Hends.
  - exfalso. apply Hends. reflexivity.
  - change (processLoop (S (S fuel)) s)
      with ((again ← parseMessage;
             if (again : bool) then processLoop (S fuel) else mret tt) s).
    change (processLoop (S fuel) s)
      with ((again ← parseMessage;
             if (again : bool) then processLoop fuel else mret tt) s) in Hends |- *.
    unfold mbind, Eff_bind, eff_bind in Hends |- *.
    destruct (parseMessage s) as [[[[] | e |] s1] t1]; try reflexivity.
    rewrite IH; [reflexivity |].
    destruct (processLoop fuel s1) as [[r s2] t2]. exact Hends.
Qed.

Lemma readBigInt64LE_fits (b : Buffer) offset value :
  readBigInt64LE b offset = Some value ->
  0 <= offset /\ offset + 8 <= Z.of_nat (length b).
Proof.
  unfold readBigInt64LE.
  destruct (Z.ltb_spec offset 0); [discriminate |].
  destruct (Z.ltb_spec (Z.of_nat (length b) - 8) offset); [discriminate |].
  intros _. lia.
Qed.

Lemma negative_frame_line (line rest : Buffer) :
  newline ∉ line ->
  negative_frame (line ++ newline :: rest)
  = match decodeJSON line with
    | inl _ => false
    | inr metadata =>
        negb (nullish metadata)
        && is_str (prop metadata "type") "snapshot"
        && negb (is_str (resolved_transport metadata) "file")
        && negb (is_str (resolved_transport metadata) "mmap")
        && match readBigInt64LE (line ++ newline :: rest)
                                (Z.of_nat (length line) + 1) with
           | Some dataSize => dataSize <? 0
           | None => false
           end
    end.
Proof.
  intros Hnl. unfold negative_frame. cbv zeta.
  rewrite indexOf_first by exact Hnl.
  destruct (Z.eqb_spec (Z.of_nat (length line)) (-1)); [lia |].
  rewrite subarray_prefix. reflexivity.
Qed.

(** A frame with a length prefix below zero stays one when bytes
    follow. *)
Lemma negative_frame_app (b more : Buffer) :
  negative_frame b = true -> negative_frame (b ++ more) = true.
Proof.
  destruct (buffer_cases b) as [Hnone | (line & rest & -> & Hnl)].
  { unfold negative_frame. cbv zeta. rewrite indexOf_absent by exact Hnone.
    discriminate. }
  rewrite <- app_assoc. cbn [app].
  rewrite !negative_frame_line by exact Hnl.
  destruct (decodeJSON line) as [message | metadata]; [discriminate |].
  destruct (readBigInt64LE (line ++ newline :: rest) _) as [size |] eqn:Hread.
  - replace (line ++ newline :: rest ++ more)
      with ((line ++ newline :: rest) ++ more)
      by (rewrite <- app_assoc; reflexivity).
    destruct (readBigInt64LE_fits _ _ _ Hread) as [Hoff Hfit].
    rewrite readBigInt64LE_app, Hread by assumption. intros H. exact H.
  - rewrite !andb_false_r. discriminate.
Qed.

Lemma well_sized_head (b : Buffer) : well_sized b = true -> negative_frame b = false.
Proof. intros H. apply (well_sized_suffix b b H). reflexivity. Qed.

Lemma well_sized_of_suffix (b b0 : Buffer) :
  well_sized b0 = true -> b `suffix_of` b0 -> well_sized b = true.
Proof.
  intros Hall Hsuffix. unfold well_sized. apply forallb_forall. intros k _.
  apply negb_true_iff, (well_sized_suffix _ b0 Hall).
  etrans; [apply suffix_drop | exact Hsuffix].
Qed.

Lemma well_sized_of_prefix (b more : Buffer) :
  well_sized (b ++ more) = true -> well_sized b = true.
Proof.
  intros Hall. unfold well_sized. apply forallb_forall. intros k Hk.
  apply in_seq in Hk.
  apply negb_true_iff.
  destruct (negative_frame (drop k b)) eqn:Hneg; [| reflexivity].
  apply (negative_frame_app _ more) in Hneg.
  rewrite <- drop_app_le in Hneg by lia.
  rewrite (well_sized_suffix _ (b ++ more) Hall) in Hneg; [discriminate |].
  apply suffix_drop.
Qed.

Lemma attempt_suffix s : buffer (parseMessage s).1.2 `suffix_of` buffer s.
Proof.
  pose proof (front_parseMessage (buffer_within (buffer s))) as Hfront.
  unfold preserves, buffer_within in Hfront.
  apply Hfront; try (intros; assumption); [| reflexivity].
  intros b s0 Hb Hs0. cbn [buffer set_buffer]. etrans; eassumption.
Qed.

(** A run that ends by asking for more data, seen again with the bytes
    that come next already in the buffer: the same effects first, and then
    what the next call does. *)
Lemma loop_extends (more : Buffer) fuel :
  forall u u1 t1 F,
    processLoop fuel u = (Ok tt, u1, t1) ->
    well_sized (buffer u ++ more) = true ->
    (length (buffer u ++ more) < F)%nat ->
    (processLoop F (set_buffer (buffer u ++ more) u)).1.1
    = (processLoop F (set_buffer (buffer u1 ++ more) u1)).1.1
    /\ (processLoop F (set_buffer (buffer u ++ more) u)).2
       = t1 ++ (processLoop F (set_buffer (buffer u1 ++ more) u1)).2
    /\ same_but_log (processLoop F (set_buffer (buffer u ++ more) u)).1.2
                    (processLoop F (set_buffer (buffer u1 ++ more) u1)).1.2
    /\ buffer u1 `suffix_of` buffer u
    /\ (parseMessage u1).1.1 = Ok false.
Proof.
  induction fuel as [| fuel IH]; intros u u1 t1 F Hrun Hsized Hfuel;
    [discriminate Hrun |].
  cbn [processLoop] in Hrun. unfold mbind, Eff_bind, eff_bind in Hrun.
  destruct (parseMessage u) as [[[again | e |] u'] t0] eqn:Hattempt;
    [| discriminate Hrun | discriminate Hrun].
  destruct again.
  - destruct (processLoop fuel u') as [[r u2] t2] eqn:Hloop.
    injection Hrun as -> -> <-.
    assert (Hneg : negative_frame (buffer u) = false)
      by (apply well_sized_head, (well_sized_of_prefix _ more), Hsized).
    pose proof (progress_of_attempt u u' t0 Hattempt Hneg) as Hshorter.
    pose proof (attempt_suffix u) as Hsuffix. rewrite Hattempt in Hsuffix.
    cbn [fst snd] in Hsuffix.
    destruct (later_bytes more u) as (Hr & Ht & Hs).
    { rewrite Hattempt. discriminate. }
    { exact Hneg. }
    rewrite Hattempt in Hr, Ht, Hs. cbn [fst snd] in Hr, Ht, Hs.
    destruct F as [| F]; [lia |].
    assert (Hsized' : well_sized (buffer u' ++ more) = true).
    { apply (well_sized_of_suffix _ (buffer u ++ more) Hsized).
      destruct Hsuffix as [k ->]. exists k. rewrite app_assoc. reflexivity. }
    assert (Hfuel' : (length (buffer u' ++ more) < F)%nat).
    { rewrite length_app in Hfuel |- *. lia. }
    destruct (IH u' u1 t2 F Hloop Hsized' Hfuel') as (Hr' & Ht' & Hs' & Hsuf' & Hsettled).
    assert (Hends : (processLoop F (set_buffer (buffer u1 ++ more) u1)).1.1
                    <> OutOfFuel).
    { apply (loop_ends (buffer u' ++ more)); [exact Hsized' | |].
      - cbn [buffer set_buffer]. destruct Hsuf' as [k ->]. exists k.
        rewrite app_assoc. reflexivity.
      - cbn [buffer set_buffer]. apply suffix_shorter in Hsuf'.
        rewrite length_app in Hfuel' |- *. lia. }
    rewrite (fuel_mono F _ Hends).
    cbn [processLoop]. unfold mbind, Eff_bind, eff_bind.
    destruct (parseMessage (set_buffer (buffer u ++ more) u))
      as [[r0 w] t0'] eqn:Hattempt2.
    cbn [fst snd] in Hr, Ht, Hs. subst r0 t0'. unfold extended in Hs. subst w.
    destruct (processLoop F (set_buffer (buffer u' ++ more) u')) as [[r3 u3] t3].
    cbn [fst snd] in *.
    split; [exact Hr' |]. split; [rewrite Ht', app_assoc; reflexivity |].
    split; [exact Hs' |]. split; [etrans; eassumption | exact Hsettled].
  - injection Hrun as <- <-.
    destruct (attempt_false u u' t0 Hattempt) as [-> Hlog].
    pose proof (same_but_log_sim_processLoop F
                  (set_buffer (buffer u ++ more) u)
                  (set_buffer (buffer u' ++ more) u')
                  (same_but_log_extended more u u' (eq_sym Hlog)))
      as (Hr & Ht & Hs).
    pose proof (attempt_suffix u) as Hsuffix. rewrite Hattempt in Hsuffix.
    split; [exact Hr |]. split; [exact Ht |]. split; [exact Hs |].
    split; [exact Hsuffix |].
    destruct (same_but_log_sim_parseMessage u u' (eq_sym Hlog)) as (Hr2 & _).
    rewrite <- Hr2, Hattempt. reflexivity.
Qed.

Lemma loop_extends_throw (more : Buffer) fuel :
  forall u u1 t1 e,
    processLoop fuel u = (Throw e, u1, t1) ->
    well_sized (buffer u ++ more) = true ->
    (processLoop fuel (set_buffer (buffer u ++ more) u)).1.1 = Throw e
    /\ (processLoop fuel (set_buffer (buffer u ++ more) u)).2 = t1.
Proof.
  induction fuel as [| fuel IH]; intros u u1 t1 e Hrun Hsized;
    [discriminate Hrun |].
  cbn [processLoop] in Hrun |- *. unfold mbind, Eff_bind, eff_bind in Hrun |- *.
  assert (Hneg : negative_frame (buffer u) = false)
    by (apply well_sized_head, (well_sized_of_prefix _ more), Hsized).
  pose proof (attempt_suffix u) as Hsuffix.
  pose proof (later_bytes more u) as Hlater.
  destruct (parseMessage u) as [[r0 u'] t0] eqn:Hattempt.
  cbn [fst snd] in Hlater, Hsuffix.
  assert (Hnot : r0 <> Ok false).
  { intros ->. discriminate Hrun. }
  destruct (Hlater Hnot Hneg) as (Hr & Ht & Hs).
  destruct (parseMessage (set_buffer (buffer u ++ more) u)) as [[r0' w] t0'].
  cbn [fst snd] in Hr, Ht, Hs. subst r0' t0'. unfold extended in Hs. subst w.
  destruct r0 as [[] | e0 |]; try discriminate Hrun.
  - destruct (processLoop fuel u') as [[r u2] t2] eqn:Hloop.
    injection Hrun as -> -> <-.
    assert (Hsized' : well_sized (buffer u' ++ more) = true).
    { apply (well_sized_of_suffix _ (buffer u ++ more) Hsized).
      destruct Hsuffix as [k ->]. exists k. rewrite app_assoc. reflexivity. }
    destruct (IH u' u1 t2 e Hloop Hsized') as (Hr' & Ht').
    destruct (processLoop fuel (set_buffer (buffer u' ++ more) u'))
      as [[r3 u3] t3].
    cbn [fst snd] in *. subst. split; reflexivity.
  - injection Hrun as -> -> <-. split; reflexivity.
Qed.

(** X24.  How the stream is cut in chunks does not matter.  For a parser
    with no message waiting in its buffer, and chunks in which no length
    prefix below zero can come to be read, feeding the chunks one call
    after the other ends as one call with all the bytes does: the same
    result (a return, or the same thrown error), the same effects in the
    same order, and after a return the same state, but for debug lines
    of attempts on incomplete frames. *)
Theorem chunking_does_not_matter fuel (chunks : list Buffer) s :
  (parseMessage s).1.1 = Ok false ->
  well_sized (buffer s ++ mjoin chunks) = true ->
  (length (buffer s ++ mjoin chunks) < fuel)%nat ->
  (feed fuel chunks s).1.1 = (processData fuel (mjoin chunks) s).1.1
  /\ (feed fuel chunks s).2 = (processData fuel (mjoin chunks) s).2
  /\ ((feed fuel chunks s).1.1 = Ok tt ->
      same_but_log (feed fuel chunks s).1.2
                   (processData fuel (mjoin chunks) s).1.2).
Proof.
  revert s. induction chunks as [| c cs IH]; intros s Hsettled Hsized Hfuel.
  - cbn [feed mjoin list_join]. rewrite processData_run, app_nil_r.
    rewrite set_buffer_same by reflexivity.
    destruct fuel as [| fuel]; [lia |].
    cbn [processLoop]. unfold mbind, Eff_bind, eff_bind.
    destruct (parseMessage s) as [[r s'] t] eqn:Hattempt.
    cbn [fst] in Hsettled. subst r.
    destruct (attempt_false s s' t Hattempt) as [-> Hlog].
    cbn [fst snd]. repeat split. intros _. unfold same_but_log.
    symmetry. exact Hlog.
  - change (mjoin (c :: cs)) with (c ++ mjoin cs) in Hsized, Hfuel |- *.
    rewrite processData_run.
    replace (set_buffer (buffer s ++ c ++ mjoin cs) s)
      with (set_buffer (buffer (set_buffer (buffer s ++ c) s) ++ mjoin cs)
                       (set_buffer (buffer s ++ c) s))
      by (cbn [buffer set_buffer]; rewrite <- app_assoc; reflexivity).
    change (feed fuel (c :: cs) s) with ((processData fuel c;; feed fuel cs) s).
    unfold mbind, Eff_bind, eff_bind. rewrite processData_run.
    set (u := set_buffer (buffer s ++ c) s).
    assert (Hsized_u : well_sized (buffer u ++ mjoin cs) = true).
    { unfold u. cbn [buffer set_buffer]. rewrite <- app_assoc. exact Hsized. }
    assert (Hfuel_u : (length (buffer u ++ mjoin cs) < fuel)%nat).
    { unfold u. cbn [buffer set_buffer]. rewrite <- app_assoc. exact Hfuel. }
    destruct (processLoop fuel u) as [[[[] | e |] s1] t1] eqn:Hloop.
    + destruct (loop_extends (mjoin cs) fuel u s1 t1 fuel Hloop Hsized_u Hfuel_u)
        as (Hr & Ht & Hs & Hsuffix & Hsettled1).
      assert (Hsized1 : well_sized (buffer s1 ++ mjoin cs) = true).
      { apply (well_sized_of_suffix _ (buffer u ++ mjoin cs) Hsized_u).
        destruct Hsuffix as [k ->]. exists k. rewrite app_assoc. reflexivity. }
      assert (Hfuel1 : (length (buffer s1 ++ mjoin cs) < fuel)%nat).
      { apply suffix_shorter in Hsuffix. rewrite length_app in Hfuel_u |- *. lia. }
      destruct (IH s1 Hsettled1 Hsized1 Hfuel1) as (Hr1 & Ht1 & Hs1).
      rewrite processData_run in Hr1, Ht1, Hs1.
      destruct (feed fuel cs s1) as [[r2 s2] t2].
      cbn [fst snd] in Hr1, Ht1, Hs1 |- *.
      split; [congruence |]. split; [congruence |].
      intros Hok. unfold same_but_log in *. rewrite (Hs1 Hok). symmetry. exact Hs.
    + destruct (loop_extends_throw (mjoin cs) fuel u s1 t1 e Hloop Hsized_u)
        as (Hr & Ht).
      cbn [fst snd]. split; [congruence |]. split; [congruence |]. discriminate.
    + exfalso.
      assert (Hends : (processLoop fuel u).1.1 <> OutOfFuel).
      { apply (loop_ends (buffer u)).
        - exact (well_sized_of_prefix _ _ Hsized_u).
        - reflexivity.
        - rewrite length_app in Hfuel_u. lia. }
      apply Hends. rewrite Hloop. reflexivity.
Qed.

End Chunking.

(** * The further properties on concrete inputs *)

Module MoreInstances.

(** X1 on a snapshot line followed by three bytes of its length prefix. *)
Lemma need_more_data_is_silent_witness :
  parseMessage (E := Demo.env)
    (set_buffer (Demo.snapshot_line ++ [newline] ++ take 3 Demo.prefix5)
                initial_state)
  = (Ok false,
     add_log (received_log (E := Demo.env) Demo.snapshot_metadata)
       (set_buffer (Demo.snapshot_line ++ [newline] ++ take 3 Demo.prefix5)
                   initial_state),
     [])
  /\ forget_log
       (add_log (received_log (E := Demo.env) Demo.snapshot_metadata)
          (set_buffer (Demo.snapshot_line ++ [newline] ++ take 3 Demo.prefix5)
                      initial_state))
     = forget_log
         (set_buffer (Demo.snapshot_line ++ [newline] ++ take 3 Demo.prefix5)
                     initial_state).
Proof.
  assert (Hrun :
    parseMessage (E := Demo.env)
      (set_buffer (Demo.snapshot_line ++ [newline] ++ take 3 Demo.prefix5)
                  initial_state)
    = (Ok false,
       add_log (received_log (E := Demo.env) Demo.snapshot_metadata)
         (set_buffer (Demo.snapshot_line ++ [newline] ++ take 3 Demo.prefix5)
                     initial_state),
       [])) by (vm_compute; reflexivity).
  split; [exact Hrun |].
  exact (proj1 (proj2 (need_more_data_is_silent (E := Demo.env) _ _ _ Hrun))).
Defined.

(** X2 on a frame that arrives after the beginning of a line. *)
Lemma buffer_is_consumed_from_the_front_witness :
  buffer (processData (E := Demo.env) 3 Demo.snapshot_frame
            (set_buffer (take 4 Demo.garbage_line) initial_state)).1.2
  `suffix_of` take 4 Demo.garbage_line ++ Demo.snapshot_frame.
Proof.
  exact (proj1 (buffer_is_consumed_from_the_front (E := Demo.env) 3
                  Demo.snapshot_frame
                  (set_buffer (take 4 Demo.garbage_line) initial_state))).
Defined.

Lemma demo_snapshot_frame :
  InlineFrame (E := DemoLines.env) Demo.snapshot_line Demo.prefix5 Demo.payload5
              Demo.snapshot_metadata.
Proof. constructor; vm_compute; (reflexivity || congruence). Qed.

Lemma demo_image_frame :
  InlineFrame (E := DemoLines.env) DemoLines.image_line Demo.prefix5 Demo.payload5
              DemoLines.image_metadata.
Proof. constructor; vm_compute; (reflexivity || congruence). Qed.

(** X3 on two frames and the beginning of a heartbeat line. *)
Lemma frames_are_handled_in_order_witness :
  exists s',
    processData (E := DemoLines.env) 3
      (wire [DemoLines.snapshot_frame; DemoLines.image_frame]
       ++ take 5 Demo.heartbeat_line)
      initial_state
    = (Ok tt, s',
       delivery Demo.snapshot_metadata Demo.payload5
       ++ delivery DemoLines.image_metadata Demo.payload5)
    /\ buffer s' = take 5 Demo.heartbeat_line.
Proof.
  destruct (frames_are_handled_in_order (E := DemoLines.env)
              [DemoLines.snapshot_frame; DemoLines.image_frame]
              (take 5 Demo.heartbeat_line) 0 initial_state)
    as (s' & Hrun & Hbuf & _).
  - constructor; [split; [exact demo_snapshot_frame | reflexivity] |].
    constructor; [split; [exact demo_image_frame | reflexivity] |].
    constructor.
  - vm_compute. reflexivity.
  - left. reflexivity.
  - reflexivity.
  - exists s'. split; [exact Hrun | exact Hbuf].
Defined.

(** X4 on a heartbeat, the end of a session, a line that does not
    decode, a message of an unknown type and a command. *)
Lemma line_messages_are_handled_in_order_witness :
  exists s',
    processData (E := DemoLines.env) 6
      (stream [Demo.heartbeat_line; DemoLines.session_closed_line;
               Demo.garbage_line; DemoLines.progress_line; Demo.command_line])
      initial_state
    = (Ok tt, s',
       [Stdout Pong; OnHeartbeat; OnSessionClosed (JStr "s1");
        OnError "Failed to parse JSON metadata: Unexpected end of JSON input";
        Stdout (CommandResult (JStr "c1") false None
                  (Some (JStr "Unknown command type: reload")))])
    /\ buffer s' = [].
Proof.
  destruct (line_messages_are_handled_in_order (E := DemoLines.env)
              [Demo.heartbeat_line; DemoLines.session_closed_line;
               Demo.garbage_line; DemoLines.progress_line; Demo.command_line]
              [] 0 initial_state)
    as (s' & Hrun & Hbuf).
  - repeat constructor; vm_compute; reflexivity.
  - reflexivity.
  - reflexivity.
  - exists s'. rewrite app_nil_r in Hrun. split; [exact Hrun | exact Hbuf].
Defined.


(** X6 on the line [null] followed by a heartbeat, and two more chunks. *)
Lemma null_line_blocks_the_stream_witness :
  exists s',
    listen (E := DemoLines.env) 1
      [Demo.heartbeat_line ++ [newline]; Demo.initialized_line ++ [newline]]
      (set_buffer (DemoLines.null_line ++ newline :: Demo.heartbeat_line ++ [newline])
                  initial_state)
    = (Ok tt, s',
       [OnError "Cannot read properties of null (reading 'type')";
        OnError "Cannot read properties of null (reading 'type')"])
    /\ buffer s'
       = (DemoLines.null_line ++ newline :: Demo.heartbeat_line ++ [newline])
         ++ mjoin [Demo.heartbeat_line ++ [newline];
                   Demo.initialized_line ++ [newline]].
Proof.
  destruct (null_line_blocks_the_stream (E := DemoLines.env) DemoLines.null_line
              (Demo.heartbeat_line ++ [newline]) JNull
              [Demo.heartbeat_line ++ [newline]; Demo.initialized_line ++ [newline]]
              0
              (set_buffer (DemoLines.null_line ++ newline :: Demo.heartbeat_line
                           ++ [newline]) initial_state))
    as (s' & Hrun & Hbuf).
  - reflexivity.
  - vm_compute. reflexivity.
  - vm_compute. reflexivity.
  - reflexivity.
  - exists s'. split; [exact Hrun | exact Hbuf].
Defined.

(** X7 on an [initialize] line: the parser is not ready after it. *)
Lemma ready_only_by_initialized_witness :
  handshakeComplete
    (parseMessage (E := DemoLines.env)
       (set_buffer (DemoLines.initialize_line ++ [newline]) initial_state)).1.2
  = true
  <-> exists line rest metadata,
        DemoLines.initialize_line ++ [newline] = line ++ newline :: rest
        /\ (newline ∉ line)
        /\ decodeJSON (Env := DemoLines.env) line = inr metadata
        /\ is_str (prop metadata "type") "initialized" = true.
Proof.
  exact (ready_only_by_initialized (E := DemoLines.env)
           (set_buffer (DemoLines.initialize_line ++ [newline]) initial_state)
           eq_refl).
Defined.

(** X8 on an [initialize] line, in a fresh process. *)
Lemma initialize_is_answered_witness :
  exists s',
    parseMessage (E := DemoLines.env)
      (set_buffer (DemoLines.initialize_line ++ [newline]) initial_state)
    = (Ok true, s',
       [Stdout (InitializeResponse
                  (JStr "aspose-mcp-preview") (JStr "1.0.0")
                  "Aspose MCP Preview" (JStr "Preview extension")
                  (JStr "xjustloveux")
                  "https://github.com/xjustloveux/aspose-mcp-preview")])
    /\ buffer s' = []
    /\ handshakeComplete s' = false.
Proof.
  destruct (initialize_is_answered (E := DemoLines.env) DemoLines.initialize_line
              [] DemoLines.initialize_metadata
              (set_buffer (DemoLines.initialize_line ++ [newline]) initial_state)
              eq_refl eq_refl eq_refl eq_refl)
    as (Htyped & _ & _).
  destruct (Htyped eq_refl) as (s' & Hbuf & Hready & Hrun).
  exists s'. split; [exact (proj1 Hrun) |]. split; [exact Hbuf | exact Hready].
Defined.

(** X9 on a frame cut in two, a frame with a wrong checksum and a frame
    whose sequence number has no text: two acknowledgements, of which one
    is followed by its delivery. *)
Lemma acknowledgements_pair_with_deliveries_witness :
  paired (listen (E := Demo.env) 3
            [take 60 Demo.snapshot_frame;
             drop 60 Demo.snapshot_frame ++ Demo.bad_checksum_frame;
             Demo.untyped_sequence_frame]
            initial_state).2
  /\ count is_ack
           (listen (E := Demo.env) 3
              [take 60 Demo.snapshot_frame;
               drop 60 Demo.snapshot_frame ++ Demo.bad_checksum_frame;
               Demo.untyped_sequence_frame]
              initial_state).2
     = (count is_snapshot_delivery
              (listen (E := Demo.env) 3
                 [take 60 Demo.snapshot_frame;
                  drop 60 Demo.snapshot_frame ++ Demo.bad_checksum_frame;
                  Demo.untyped_sequence_frame]
                 initial_state).2
        + count is_lone_ack
                (listen (E := Demo.env) 3
                   [take 60 Demo.snapshot_frame;
                    drop 60 Demo.snapshot_frame ++ Demo.bad_checksum_frame;
                    Demo.untyped_sequence_frame]
                   initial_state).2)%nat.
Proof.
  destruct (acknowledgements_pair_with_deliveries (E := Demo.env) 3
              [take 60 Demo.snapshot_frame;
               drop 60 Demo.snapshot_frame ++ Demo.bad_checksum_frame;
               Demo.untyped_sequence_frame]
              [] initial_state) as (Hpaired & Hcount & _).
  split; [exact Hpaired | exact Hcount].
Defined.

(** The trace of this example. *)
Example lone_acknowledgement :
  (listen (E := Demo.env) 3
     [take 60 Demo.snapshot_frame;
      drop 60 Demo.snapshot_frame ++ Demo.bad_checksum_frame;
      Demo.untyped_sequence_frame]
     initial_state).2
  = [Stdout (Ack (JNum (Integral 1)) "processed");
     OnSnapshot Demo.snapshot_metadata Demo.payload5;
     OnError "Checksum mismatch: expected 1, got 1926437589";
     Stdout (Ack (JObj [("toString", JNum (Integral 0))]) "processed");
     OnError "Cannot convert object to primitive value"].
Proof. vm_compute. reflexivity. Qed.

(** X10 on two payloads that differ in their third and fourth bytes. *)
Lemma calculateCRC32_detects_bursts_witness :
  (calculateCRC32 [x41; x42; x43; x44; x45] initial_state).1.1
  <> (calculateCRC32 [x41; x42; x00; x01; x45] initial_state).1.1.
Proof.
  apply (calculateCRC32_detects_bursts [x41; x42] [x43; x44] [x00; x01] [x45]
           initial_state initial_state).
  - left. reflexivity.
  - left. reflexivity.
  - reflexivity.
  - simpl. lia.
  - discriminate.
Defined.

(** X11 on the frame of the scenario, at the byte after the line feed. *)
Lemma parseLengthPrefix_reads_eight_bytes_witness :
  exists value,
    parseLengthPrefix Demo.snapshot_frame 56 = inr value
    /\ - 2 ^ 63 <= value < 2 ^ 63
    /\ length (take 8 (drop (Z.to_nat 56) Demo.snapshot_frame)) = 8%nat
    /\ value mod 2 ^ 64
       = le_unsigned (take 8 (drop (Z.to_nat 56) Demo.snapshot_frame)).
Proof.
  exact (parseLengthPrefix_reads_eight_bytes Demo.snapshot_frame 56
           ltac:(lia) ltac:(lia)).
Defined.

(** X12 on the frame of the scenario: the five bytes of the payload. *)
Lemma readFromStdin_returns_the_slice_witness :
  exists before data after,
    readFromStdin (E := Demo.env) Demo.snapshot_frame 64 5 = inr data
    /\ Demo.snapshot_frame = before ++ data ++ after
    /\ Z.of_nat (length before) = 64
    /\ Z.of_nat (length data) = 5.
Proof.
  exact (readFromStdin_returns_the_slice (E := Demo.env) Demo.snapshot_frame 64 5
           ltac:(lia) ltac:(lia) ltac:(lia)).
Defined.

(** X13 on the frame of the scenario. *)
Lemma stdin_helpers_agree_with_parser_witness :
  exists size data s',
    parseLengthPrefix Demo.snapshot_frame
      (indexOf Demo.snapshot_frame newline + 1) = inr size
    /\ readFromStdin (E := DemoLines.env) Demo.snapshot_frame
         (indexOf Demo.snapshot_frame newline + 1 + 8) (Number_of_BigInt size)
       = inr data
    /\ parseMessage (E := DemoLines.env) (set_buffer Demo.snapshot_frame initial_state)
       = (Ok true, s', delivery Demo.snapshot_metadata data)
    /\ buffer s' = [].
Proof.
  apply (stdin_helpers_agree_with_parser (E := DemoLines.env) Demo.snapshot_line
           Demo.prefix5 Demo.payload5 [] Demo.snapshot_metadata
           (set_buffer Demo.snapshot_frame initial_state)).
  - exact demo_snapshot_frame.
  - reflexivity.
  - left. reflexivity.
  - vm_compute. reflexivity.
Defined.

(** X14 after a snapshot for s1, one for s4, a view of s1 and the end of
    s4. *)
Lemma stored_sessions_come_from_updates_witness :
  store_calls (E := Demo.env)
    [UpdateSnapshot "s1" Demo.snapshot_metadata Demo.payload5;
     UpdateSnapshot "s4" DemoLines.image_metadata Demo.payload5;
     MarkAsViewed "s1"; RemoveSession "s4"]
    SessionStore.empty !! "s1"
  = Some (SessionStore.mark_viewed
            (SessionStore.snapshot_of "s1" Demo.snapshot_metadata Demo.payload5))
  /\ exists metadata bytes,
       UpdateSnapshot "s1" metadata bytes
       ∈ [UpdateSnapshot "s1" Demo.snapshot_metadata Demo.payload5;
          UpdateSnapshot "s4" DemoLines.image_metadata Demo.payload5;
          MarkAsViewed "s1"; RemoveSession "s4"]
       /\ SessionStore.mark_viewed
            (SessionStore.mark_viewed
               (SessionStore.snapshot_of "s1" Demo.snapshot_metadata Demo.payload5))
          = SessionStore.mark_viewed (SessionStore.snapshot_of "s1" metadata bytes).
Proof.
  assert (Hlook :
    store_calls (E := Demo.env)
      [UpdateSnapshot "s1" Demo.snapshot_metadata Demo.payload5;
       UpdateSnapshot "s4" DemoLines.image_metadata Demo.payload5;
       MarkAsViewed "s1"; RemoveSession "s4"]
      SessionStore.empty !! "s1"
    = Some (SessionStore.mark_viewed
              (SessionStore.snapshot_of "s1" Demo.snapshot_metadata Demo.payload5)))
    by (vm_compute; reflexivity).
  split; [exact Hlook |].
  exact (proj2 (stored_sessions_come_from_updates (E := Demo.env) _ _ _ Hlook)).
Defined.

(** X15 on a store with two sessions. *)
Lemma getAllSessions_lists_each_session_once_witness :
  length (SessionStore.getAllSessions
            (store_calls (E := Demo.env)
               [UpdateSnapshot "s1" Demo.snapshot_metadata Demo.payload5;
                UpdateSnapshot "s4" DemoLines.image_metadata Demo.payload5]
               SessionStore.empty))
  = SessionStore.size
      (store_calls (E := Demo.env)
         [UpdateSnapshot "s1" Demo.snapshot_metadata Demo.payload5;
          UpdateSnapshot "s4" DemoLines.image_metadata Demo.payload5]
         SessionStore.empty).
Proof.
  exact (proj1 (proj2 (getAllSessions_lists_each_session_once
                         (store_calls (E := Demo.env)
                            [UpdateSnapshot "s1" Demo.snapshot_metadata Demo.payload5;
                             UpdateSnapshot "s4" DemoLines.image_metadata
                                            Demo.payload5]
                            SessionStore.empty)))).
Defined.

(** X16 on a request for a session the store does not hold. *)
Lemma getSnapshot_only_clears_the_flag_witness :
  reply_code
    (Routes.getSnapshot (E := Demo.env) DemoLines.encode "2026-01-01T00:00:00.000Z"
       "s9"
       (store_calls (E := Demo.env)
          [UpdateSnapshot "s1" Demo.snapshot_metadata Demo.payload5]
          SessionStore.empty)).1.1
  = 404
  <-> store_calls (E := Demo.env)
        [UpdateSnapshot "s1" Demo.snapshot_metadata Demo.payload5]
        SessionStore.empty !! "s9"
      = None.
Proof.
  exact (proj1 (proj2 (proj2
           (getSnapshot_only_clears_the_flag (E := Demo.env) DemoLines.encode
              "2026-01-01T00:00:00.000Z" "s9"
              (store_calls (E := Demo.env)
                 [UpdateSnapshot "s1" Demo.snapshot_metadata Demo.payload5]
                 SessionStore.empty))))).
Defined.


(** X18 on two snapshots for s1 with a heartbeat, a snapshot for s4 and
    an error in between, and then the end of s4. *)
Lemma session_follows_its_last_event_witness :
  sessions
    (Main.run (E := Demo.env)
       [OnSnapshot Demo.snapshot_metadata Demo.payload5; OnHeartbeat;
        OnSnapshot DemoLines.image_metadata Demo.payload5;
        OnSnapshot Demo.snapshot_metadata [x41]; OnError "EPIPE";
        OnSessionClosed (JStr "s4")]
       initial_host).1 !! "s1"
  = Some (SessionStore.snapshot_of "s1" Demo.snapshot_metadata [x41]).
Proof.
  exact (session_follows_its_last_event (E := Demo.env) "s1"
           [OnSnapshot Demo.snapshot_metadata Demo.payload5; OnHeartbeat;
            OnSnapshot DemoLines.image_metadata Demo.payload5;
            OnSnapshot Demo.snapshot_metadata [x41]; OnError "EPIPE";
            OnSessionClosed (JStr "s4")]
           initial_host).
Defined.

(** X19 on Windows without koffi, in a fresh process. *)
Lemma getMmapInfo_agrees_after_probe_witness :
  exists available s1 info,
    isMmapAvailable (E := DemoLines.env_windows) initial_state
    = (Ok available, s1, [])
    /\ getMmapInfo (E := DemoLines.env_windows) s1 = (Ok info, s1, [])
    /\ windows_coherent s1
    /\ (available = false
        <-> info_strategy info = "Unsupported"
            \/ info_windowsAvailable info = Some false)
    /\ (String.eqb (currentPlatform (Env := DemoLines.env_windows)) "win32" = true ->
        windowsInitialized initial_state = false ->
        exists info0,
          getMmapInfo (E := DemoLines.env_windows) initial_state
          = (Ok info0, initial_state, [])
          /\ info_windowsAvailable info0 = Some true).
Proof.
  apply (getMmapInfo_agrees_after_probe (E := DemoLines.env_windows) initial_state).
  intros _. reflexivity.
Defined.


(** X21 on the frame of the scenario followed by a heartbeat line. *)
Lemma every_attempt_makes_progress_witness :
  (length (buffer (parseMessage (E := Demo.env)
                     (set_buffer (Demo.snapshot_frame ++ Demo.heartbeat_line
                                  ++ [newline]) initial_state)).1.2)
   < length (Demo.snapshot_frame ++ Demo.heartbeat_line ++ [newline]))%nat
  /\ buffer (parseMessage (E := Demo.env)
               (set_buffer (Demo.snapshot_frame ++ Demo.heartbeat_line
                            ++ [newline]) initial_state)).1.2
     `suffix_of` Demo.snapshot_frame ++ Demo.heartbeat_line ++ [newline].
Proof.
  apply (every_attempt_makes_progress (E := Demo.env)
           (set_buffer (Demo.snapshot_frame ++ Demo.heartbeat_line ++ [newline])
                       initial_state)
           _
           (parseMessage (E := Demo.env)
              (set_buffer (Demo.snapshot_frame ++ Demo.heartbeat_line
                           ++ [newline]) initial_state)).2).
  - vm_compute. reflexivity.
  - vm_compute. reflexivity.
Defined.

(** X22 on the frame of the scenario, a line that does not decode and a
    heartbeat. *)
Lemma processData_ends_witness :
  (processData (E := Demo.env) 100
     (Demo.snapshot_frame ++ Demo.garbage_line ++ newline :: Demo.heartbeat_line
      ++ [newline])
     initial_state).1.1
  <> OutOfFuel.
Proof.
  apply (processData_ends (E := Demo.env) 100
           (Demo.snapshot_frame ++ Demo.garbage_line ++ newline
            :: Demo.heartbeat_line ++ [newline])
           initial_state).
  - vm_compute. reflexivity.
  - vm_compute. lia.
Defined.

(** X23 on the frame of the scenario, with and without a heartbeat line
    after it. *)
Lemma later_bytes_do_not_matter_witness :
  parseMessage (E := Demo.env)
    (set_buffer (buffer (set_buffer Demo.snapshot_frame initial_state)
                 ++ Demo.heartbeat_line ++ [newline])
                (set_buffer Demo.snapshot_frame initial_state))
  = (Ok true,
     set_buffer
       (buffer (parseMessage (E := Demo.env)
                  (set_buffer Demo.snapshot_frame initial_state)).1.2
        ++ Demo.heartbeat_line ++ [newline])
       (parseMessage (E := Demo.env)
          (set_buffer Demo.snapshot_frame initial_state)).1.2,
     delivery Demo.snapshot_metadata Demo.payload5).
Proof.
  apply (later_bytes_do_not_matter (E := Demo.env)
           (Demo.heartbeat_line ++ [newline]) (Ok true)
           (set_buffer Demo.snapshot_frame initial_state)).
  - vm_compute. reflexivity.
  - discriminate.
  - vm_compute. reflexivity.
Defined.

(** X24 on the frame of the scenario and a heartbeat, cut in the line and
    in the length prefix. *)
Lemma chunking_does_not_matter_witness :
  (feed (E := Demo.env) 100
     [take 20 Demo.snapshot_line;
      drop 20 Demo.snapshot_line ++ [newline] ++ take 3 Demo.prefix5;
      drop 3 Demo.prefix5 ++ Demo.payload5 ++ Demo.heartbeat_line ++ [newline]]
     initial_state).2
  = (processData (E := Demo.env) 100
       (mjoin
          [take 20 Demo.snapshot_line;
           drop 20 Demo.snapshot_line ++ [newline] ++ take 3 Demo.prefix5;
           drop 3 Demo.prefix5 ++ Demo.payload5 ++ Demo.heartbeat_line
           ++ [newline]])
       initial_state).2.
Proof.
  apply (chunking_does_not_matter (E := Demo.env) 100
           [take 20 Demo.snapshot_line;
            drop 20 Demo.snapshot_line ++ [newline] ++ take 3 Demo.prefix5;
            drop 3 Demo.prefix5 ++ Demo.payload5 ++ Demo.heartbeat_line
            ++ [newline]]
           initial_state).
  - vm_compute. reflexivity.
  - vm_compute. reflexivity.
  - vm_compute. lia.
Defined.

(** X25 on a store with two sessions, and on a snapshot for the session
    5: it is kept, and the info request for the text 5 finds nothing. *)
Lemma listed_sessions_have_info_witness :
  (exists entry,
      entry ∈ SessionStore.getAllSessions
                (store_calls (E := Demo.env)
                   [UpdateSnapshot "s1" Demo.snapshot_metadata Demo.payload5;
                    UpdateSnapshot "s4" DemoLines.image_metadata Demo.payload5]
                   SessionStore.empty)
      /\ sum_sessionId entry = "s1")
  /\ mkStray (JNum (Integral 5)) (JObj [("sessionId", JNum (Integral 5))])
             Demo.payload5
       ∈ others (Main.handle (E := Demo.env)
                   (OnSnapshot (JObj [("sessionId", JNum (Integral 5))])
                               Demo.payload5) initial_host).1
  /\ reply_code
       (Routes.getInfo "5"
          (sessions (Main.handle (E := Demo.env)
                       (OnSnapshot (JObj [("sessionId", JNum (Integral 5))])
                                   Demo.payload5) initial_host).1))
     = 404.
Proof.
  destruct (listed_sessions_have_info (E := Demo.env)
              [UpdateSnapshot "s1" Demo.snapshot_metadata Demo.payload5;
               UpdateSnapshot "s4" DemoLines.image_metadata Demo.payload5])
    as (_ & Hlisted & Hstray).
  split; [| split].
  - apply (Hlisted "s1"). vm_compute. reflexivity.
  - apply (Hstray (JObj [("sessionId", JNum (Integral 5))]) Demo.payload5
             initial_host eq_refl).
    intros id. discriminate.
  - destruct (Hstray (JObj [("sessionId", JNum (Integral 5))]) Demo.payload5
                initial_host eq_refl) as (_ & _ & Hinfo).
    { intros id. discriminate. }
    rewrite Hinfo. reflexivity.
Defined.

End MoreInstances.
